(** * CITE-seq-Count: tag matching, merging, barcode correction, staging

    A shallow embedding of [cite_seq_count/processing.py] and of the
    staging loop of [cite_seq_count/io.py], with the properties of the
    design document stated over it.

    Conventions.
    - A Python [str] (and the [bytes] of a UMI) is a [string]; a Python
      [int] is a [Z].
    - A [dict], [defaultdict] or [Counter] is a [gmap]; two of them are
      equal in Python ([==]) exactly when the gmaps are equal.  A loop
      [for k in d] is a fold over [map_to_list d].
    - A [set] of strings is a [gset string].
    - An exception that the source does not catch ends the call: the
      embedded function returns [None]. *)

From Stdlib Require Import ZArith String Ascii List Lia.
From Stdlib.Floats Require Import SpecFloat.
From stdpp Require Import base option list gmap strings fin_maps pretty.

Local Open Scope string_scope.
#[local] Set Warnings "-clear-no-such-hyp".

(** ** Python strings *)

Module Py.

(** Bound of a slice: a negative index counts from the end, and the
    result is clamped to [0, len]. *)
Definition slice_bound (len i : Z) : Z :=
  if (i <? 0)%Z then Z.max 0 (i + len) else Z.min i len.

(** [s[lo:hi]] *)
Definition slice (s : string) (lo hi : Z) : string :=
  let len := Z.of_nat (String.length s) in
  let l := slice_bound len lo in
  let h := slice_bound len hi in
  String.substring (Z.to_nat l) (Z.to_nat (h - l)) s.

(** [len(s)] *)
Definition len (s : string) : Z := Z.of_nat (String.length s).

(** [sum(l)] on a list of integers *)
Definition sum (l : list Z) : Z := foldr Z.add 0%Z l.

(** [sum(c.values())] *)
Definition sum_values (c : gmap string Z) : Z := sum (map_to_list c).*2.

(** [len(c)] *)
Definition dict_len {V} (c : gmap string V) : Z := Z.of_nat (size c).

(** [c[k]] on a [Counter]: a missing key reads as 0. *)
Definition counter_get (c : gmap string Z) (k : string) : Z :=
  default 0%Z (c !! k).

(** [c.update(other)] on a [Counter]: counts are added, keys of
    [other] are created. *)
Definition counter_update (c other : gmap string Z) : gmap string Z :=
  union_with (λ x y, Some (x + y)%Z) c other.

End Py.

(** ** Hamming distance

    [Levenshtein.hamming] is defined on two strings of the same length;
    on strings of different lengths it raises [ValueError]. *)

Fixpoint hamming (s1 s2 : string) : option nat :=
  match s1, s2 with
  | EmptyString, EmptyString => Some 0
  | String a r1, String b r2 =>
      d ← hamming r1 r2;
      Some (if Ascii.eqb a b then d else S d)
  | _, _ => None
  end.

(** ** Tag matching (processing.py, [find_best_match]) *)

Record tag := mk_tag { name : string; sequence : string; id : Z }.

Definition unmapped : string := "unmapped".

(** Score of one tag against the read:
    [Levenshtein.hamming(tag.sequence, TAG_seq[: len(tag.sequence)])]. *)
Definition tag_score (TAG_seq : string) (t : tag) : option nat :=
  hamming (sequence t) (Py.slice TAG_seq 0 (Py.len (sequence t))).

(** The loop of [find_best_match]; [best_score] and [best_match] are the
    two local variables. *)
Fixpoint find_best_match_loop (TAG_seq : string) (tags : list tag)
    (best_score : Z) (best_match : string) : option string :=
  match tags with
  | [] => Some best_match
  | t :: rest =>
      score ← tag_score TAG_seq t;
      if (Z.of_nat score =? 0)%Z then Some (name t)
      else if (Z.of_nat score <=? best_score)%Z then Some (name t)
      else find_best_match_loop TAG_seq rest best_score best_match
  end.

Definition find_best_match (TAG_seq : string) (tags : list tag)
    (maximum_distance : Z) : option string :=
  find_best_match_loop TAG_seq tags maximum_distance unmapped.

(** ** Result structures

    A per-chunk result and the global result set have the same shape:
    cell barcode -> tag name -> UMI -> count.  The inner dictionaries are
    [defaultdict(Counter)] and [Counter]. *)

Abbreviation counter := (gmap string Z).
Abbreviation tag_counts := (gmap string (gmap string Z)).
Abbreviation results := (gmap string (gmap string (gmap string Z))).

(** [r[cb][TAG][UMI]], every missing level reading as empty. *)
Definition count_at (r : results) (cb TAG UMI : string) : Z :=
  Py.counter_get (default ∅ (default ∅ (r !! cb) !! TAG)) UMI.

(** ** Result merging (processing.py, [merge_results]) *)

Record merged := mk_merged {
  merged_results : results;
  umis_per_cell : counter;
  reads_per_cell : counter;
  merged_no_match : counter
}.

(** [c[k] += n] on a [Counter]. *)
Definition counter_incr (c : counter) (k : string) (n : Z) : counter :=
  <[k := (Py.counter_get c k + n)%Z]> c.

(** [r[cb][TAG][UMI] += n], where [r[cb]] is a [defaultdict(Counter)]:
    a missing [TAG] is created with an empty counter.  (In
    [merge_results] the entry [r[cb]] exists when this runs.) *)
Definition nested_incr (r : results) (cb TAG UMI : string) (n : Z) : results :=
  let tags := default ∅ (r !! cb) in
  let c := default ∅ (tags !! TAG) in
  <[cb := <[TAG := counter_incr c UMI n]> tags]> r.

(** Body of [for UMI in mapped[cell_barcode][TAG]]; [kv] is the UMI with
    its count [mapped[cell_barcode][TAG][UMI]], and [cnt] is the whole
    counter [mapped[cell_barcode][TAG]]. *)
Definition merge_umi (cb TAG : string) (cnt : counter) (st : merged)
    (kv : string * Z) : merged :=
  {| merged_results := nested_incr (merged_results st) cb TAG kv.1 kv.2;
     umis_per_cell := counter_incr (umis_per_cell st) cb (Py.dict_len cnt);
     reads_per_cell := counter_incr (reads_per_cell st) cb kv.2;
     merged_no_match := merged_no_match st |}.

(** Body of [for TAG in mapped[cell_barcode]]: an empty counter is
    skipped. *)
Definition merge_tag (cb : string) (st : merged) (tc : string * counter) : merged :=
  if decide (tc.2 = ∅) then st
  else foldl (merge_umi cb tc.1 tc.2) st (map_to_list tc.2).

(** [if cell_barcode not in merged_results:
       merged_results[cell_barcode] = defaultdict(Counter)] *)
Definition ensure_cell (cb : string) (st : merged) : merged :=
  match merged_results st !! cb with
  | Some _ => st
  | None =>
      {| merged_results := <[cb := ∅]> (merged_results st);
         umis_per_cell := umis_per_cell st;
         reads_per_cell := reads_per_cell st;
         merged_no_match := merged_no_match st |}
  end.

(** Body of [for cell_barcode in mapped]. *)
Definition merge_cell (st : merged) (ct : string * tag_counts) : merged :=
  foldl (merge_tag ct.1) (ensure_cell ct.1 st) (map_to_list ct.2).

(** Body of [for chunk in parallel_results]; a chunk is the pair
    [(mapped, unmapped)]. *)
Definition merge_chunk (st : merged) (chunk : results * counter) : merged :=
  let st' := foldl merge_cell st (map_to_list chunk.1) in
  {| merged_results := merged_results st';
     umis_per_cell := umis_per_cell st';
     reads_per_cell := reads_per_cell st';
     merged_no_match := Py.counter_update (merged_no_match st') chunk.2 |}.

Definition merged_empty : merged := mk_merged ∅ ∅ ∅ ∅.

Definition merge_results (parallel_results : list (results * counter)) : merged :=
  foldl merge_chunk merged_empty parallel_results.

(** Sum over the tags of one cell of the square of the number of UMIs. *)
Definition umi_squares (tags : tag_counts) : Z :=
  Py.sum ((λ tc, (Py.dict_len tc.2 * Py.dict_len tc.2)%Z) <$> map_to_list tags).

(** Sum over the tags of one cell of all the UMI counts. *)
Definition read_total (tags : tag_counts) : Z :=
  Py.sum ((λ tc, Py.sum_values tc.2) <$> map_to_list tags).

(** Pointwise sum of two merged states: counts are added at every key
    and every key of either side is kept.  Each step of the merge adds a
    contribution in this sense. *)
Definition tag_counts_plus (a b : tag_counts) : tag_counts :=
  union_with (λ x y, Some (Py.counter_update x y)) a b.

Definition results_plus (a b : results) : results :=
  union_with (λ x y, Some (tag_counts_plus x y)) a b.

Definition merged_plus (a b : merged) : merged :=
  {| merged_results := results_plus (merged_results a) (merged_results b);
     umis_per_cell := Py.counter_update (umis_per_cell a) (umis_per_cell b);
     reads_per_cell := Py.counter_update (reads_per_cell a) (reads_per_cell b);
     merged_no_match := Py.counter_update (merged_no_match a) (merged_no_match b) |}.

(** A step of a loop that only adds a contribution to the state. *)
Definition additive {X} (step : merged → X → merged) : Prop :=
  ∀ st x, step st x = merged_plus st (step merged_empty x).

(** ** Cell-barcode assignment against a whitelist
       (processing.py, [find_true_to_false_map]) *)

(** The search tree handed to [find_true_to_false_map].  [pybktree] is a
    third-party package; of it the function uses one method, [find], and
    the design document gives its contract: the members of the tree within
    distance [n] of the query, each with its distance.  The tree is built
    from a distance function and the members ([BKTree(distance, items)]). *)
Record BKTree := mk_BKTree {
  distance_func : string → string → nat;
  members : list string
}.

(** [tree.find(item, n)]: the pairs [(distance, member)] with
    [distance <= n]. *)
Definition BKTree_find (tree : BKTree) (item : string) (n : Z) : list (nat * string) :=
  filter (λ p, (Z.of_nat p.1 ≤ n)%Z)
         ((λ w, (distance_func tree w item, w)) <$> members tree).

(** [[white_cell for d, white_cell in barcode_tree.find(cell_barcode,
      collapsing_threshold) if d > 0]] *)
Definition candidates (barcode_tree : BKTree) (cell_barcode : string)
    (collapsing_threshold : Z) : list string :=
  (filter (λ p, 0 < p.1) (BKTree_find barcode_tree cell_barcode collapsing_threshold)).*2.

(** [true_to_false[k].append(v)] on a [defaultdict(list)]. *)
Definition defaultdict_append (d : gmap string (list string)) (k v : string) :
    gmap string (list string) :=
  <[k := (default [] (d !! k) ++ [v])%list]> d.

(** Body of [for cell_barcode in cell_barcodes]. *)
Definition find_true_to_false_step (barcode_tree : BKTree) (whitelist : gset string)
    (collapsing_threshold : Z) (true_to_false : gmap string (list string))
    (cell_barcode : string) : gmap string (list string) :=
  if decide (cell_barcode ∈ whitelist) then true_to_false
  else
    match candidates barcode_tree cell_barcode collapsing_threshold with
    | [white_cell_str] => defaultdict_append true_to_false white_cell_str cell_barcode
    | [] => true_to_false
    | _ => true_to_false
    end.

Definition find_true_to_false_map (barcode_tree : BKTree) (cell_barcodes : list string)
    (whitelist : gset string) (collapsing_threshold : Z) : gmap string (list string) :=
  foldl (find_true_to_false_step barcode_tree whitelist collapsing_threshold)
        ∅ cell_barcodes.

(** The whitelist members at a distance from [cell_barcode] that is
    greater than 0 and at most the collapsing threshold. *)
Definition near_whitelist (distance : string → string → nat) (whitelist : gset string)
    (collapsing_threshold : Z) (cell_barcode : string) : list string :=
  filter (λ w, 0 < distance w cell_barcode
               ∧ (Z.of_nat (distance w cell_barcode) ≤ collapsing_threshold)%Z)
         (elements whitelist).

(** The barcodes folded into [w] by a true-to-false mapping. *)
Definition folded_into (true_to_false : gmap string (list string)) (w : string) :
    list string :=
  default [] (true_to_false !! w).

(** Distance of two barcodes for the examples: their Hamming distance
    (barcodes of one run have one length; 0 stands for the undefined
    case). *)
Definition barcode_distance (a b : string) : nat := default 0 (hamming a b).

(** ** Collapsing cell barcodes (processing.py, [collapse_cells]) *)

(** A loop whose body can raise: the first exception ends it. *)
Fixpoint for_each {S X} (body : S → X → option S) (st : S) (l : list X) : option S :=
  match l with
  | [] => Some st
  | x :: rest => st' ← body st x; for_each body st' rest
  end.

(** Entry of the tag map [ab_map] / [ordered_tags_map]: the dictionary
    [{"id": ..., "sequence": ...}] of one tag name. *)
Record tag_info := mk_tag_info { info_id : Z; info_sequence : string }.

Record collapse_state := mk_collapse_state {
  cs_umis_per_cell : counter;
  cs_final_results : results;
  corrected_barcodes : Z
}.

(** [final_results[real_barcode] = defaultdict()
     for TAG in ab_map: final_results[real_barcode][TAG] = Counter()] *)
Definition empty_tag_counters (ab_map : gmap string tag_info) : tag_counts :=
  foldl (λ d kv, <[kv.1 := ∅]> d) ∅ (map_to_list ab_map).

(** Body of [for TAG in temp.keys()]:
    [final_results[real_barcode][TAG].update(temp[TAG])].

    The cell dictionaries of the input are [defaultdict(Counter)]: a
    missing [TAG] is created.  The dictionary that [collapse_cells] itself
    creates for a real barcode missing from the results is a
    [defaultdict()] without a factory: there a missing [TAG] raises
    [KeyError].  [fresh] tells which of the two [final_results[real_barcode]]
    is; it is fixed during the iteration of one real barcode. *)
Definition collapse_tag (real_barcode : string) (fresh : bool) (final_results : results)
    (tc : string * counter) : option results :=
  tags ← final_results !! real_barcode;
  match tags !! tc.1 with
  | Some c =>
      Some (<[real_barcode := <[tc.1 := Py.counter_update c tc.2]> tags]> final_results)
  | None =>
      if fresh then None
      else Some (<[real_barcode := <[tc.1 := Py.counter_update ∅ tc.2]> tags]> final_results)
  end.

(** Body of [for fake_barcode in true_to_false[real_barcode]].  Both
    [pop] calls raise [KeyError] on a missing key. *)
Definition collapse_fake (real_barcode : string) (fresh : bool) (st : collapse_state)
    (fake_barcode : string) : option collapse_state :=
  temp ← cs_final_results st !! fake_barcode;
  let final_results := delete fake_barcode (cs_final_results st) in
  let corrected := (corrected_barcodes st + 1)%Z in
  final_results' ← for_each (collapse_tag real_barcode fresh) final_results
                            (map_to_list temp);
  temp_umi_counts ← cs_umis_per_cell st !! fake_barcode;
  let umis := delete fake_barcode (cs_umis_per_cell st) in
  Some {| cs_umis_per_cell := counter_incr umis real_barcode temp_umi_counts;
          cs_final_results := final_results';
          corrected_barcodes := corrected |}.

(** Body of [for real_barcode in true_to_false]. *)
Definition collapse_real (ab_map : gmap string tag_info) (st : collapse_state)
    (rf : string * list string) : option collapse_state :=
  let fresh := bool_decide (cs_final_results st !! rf.1 = None) in
  let final_results :=
    if fresh then <[rf.1 := empty_tag_counters ab_map]> (cs_final_results st)
    else cs_final_results st in
  for_each (collapse_fake rf.1 fresh)
           {| cs_umis_per_cell := cs_umis_per_cell st;
              cs_final_results := final_results;
              corrected_barcodes := corrected_barcodes st |}
           rf.2.

Definition collapse_cells (true_to_false : gmap string (list string))
    (umis_per_cell : counter) (final_results : results)
    (ab_map : gmap string tag_info) : option collapse_state :=
  for_each (collapse_real ab_map)
           {| cs_umis_per_cell := umis_per_cell;
              cs_final_results := final_results;
              corrected_barcodes := 0 |}
           (map_to_list true_to_false).

(** Conditions under which no step of [collapse_cells] raises: every
    false barcode has an entry in the results and in the UMI totals, no
    barcode is folded twice, no false barcode is itself a true barcode of
    the mapping, and every tag that occurs in the results is a tag of the
    panel. *)
Record collapsible (true_to_false : gmap string (list string))
    (umis_per_cell : counter) (final_results : results)
    (ab_map : gmap string tag_info) : Prop := {
  fakes_known : ∀ r fakes f, true_to_false !! r = Some fakes → f ∈ fakes →
                  is_Some (final_results !! f) ∧ is_Some (umis_per_cell !! f);
  fakes_once : NoDup (concat (map_to_list true_to_false).*2);
  fakes_not_real : ∀ r fakes f, true_to_false !! r = Some fakes → f ∈ fakes →
                  true_to_false !! f = None;
  tags_in_panel : ∀ cb tags TAG, final_results !! cb = Some tags →
                  is_Some (tags !! TAG) → is_Some (ab_map !! TAG)
}.

(** [final_results[cb]], an absent cell reading as having no tag. *)
Definition tags_of (final_results : results) (cb : string) : tag_counts :=
  default ∅ (final_results !! cb).

(** What folding the false barcodes [fakes] into [real_barcode] does to
    the state: the false barcodes are gone, the other cells are untouched,
    and the counts and the UMI totals of the false barcodes have been
    added to those of the real one. *)
Record folded (real_barcode : string) (fakes : list string)
    (st st' : collapse_state) : Prop := {
  folded_removed : ∀ f, f ∈ fakes →
    cs_final_results st' !! f = None ∧ cs_umis_per_cell st' !! f = None;
  folded_frame : ∀ cb, cb ∉ fakes → cb ≠ real_barcode →
    cs_final_results st' !! cb = cs_final_results st !! cb
    ∧ cs_umis_per_cell st' !! cb = cs_umis_per_cell st !! cb;
  folded_present : is_Some (cs_final_results st' !! real_barcode);
  folded_tags : ∀ TAG, is_Some (tags_of (cs_final_results st) real_barcode !! TAG) →
    is_Some (tags_of (cs_final_results st') real_barcode !! TAG);
  folded_counts : ∀ TAG UMI,
    count_at (cs_final_results st') real_barcode TAG UMI
    = (count_at (cs_final_results st) real_barcode TAG UMI
       + Py.sum ((λ f, count_at (cs_final_results st) f TAG UMI) <$> fakes))%Z;
  folded_umis :
    Py.counter_get (cs_umis_per_cell st') real_barcode
    = (Py.counter_get (cs_umis_per_cell st) real_barcode
       + Py.sum ((λ f, Py.counter_get (cs_umis_per_cell st) f) <$> fakes))%Z;
  folded_corrected :
    corrected_barcodes st' = (corrected_barcodes st + Z.of_nat (length fakes))%Z
}.

(** Every tag that occurs in the results is a tag of the panel. *)
Definition panel_tags_only (ab_map : gmap string tag_info) (final_results : results) : Prop :=
  ∀ cb tags TAG, final_results !! cb = Some tags →
    is_Some (tags !! TAG) → is_Some (ab_map !! TAG).

(** What [collapse_cells] does over the items [L] of the true-to-false
    mapping, from state [st] to state [st']. *)
Record collapsed (ab_map : gmap string tag_info) (L : list (string * list string))
    (st st' : collapse_state) : Prop := {
  collapsed_real : ∀ r fakes, (r, fakes) ∈ L →
    is_Some (cs_final_results st' !! r)
    ∧ (cs_final_results st !! r = None →
         ∀ TAG, is_Some (ab_map !! TAG) →
           is_Some (tags_of (cs_final_results st') r !! TAG))
    ∧ (∀ TAG UMI,
         count_at (cs_final_results st') r TAG UMI
         = (count_at (cs_final_results st) r TAG UMI
            + Py.sum ((λ f, count_at (cs_final_results st) f TAG UMI) <$> fakes))%Z)
    ∧ Py.counter_get (cs_umis_per_cell st') r
      = (Py.counter_get (cs_umis_per_cell st) r
         + Py.sum ((λ f, Py.counter_get (cs_umis_per_cell st) f) <$> fakes))%Z;
  collapsed_removed : ∀ f, f ∈ concat L.*2 →
    cs_final_results st' !! f = None ∧ cs_umis_per_cell st' !! f = None;
  collapsed_frame : ∀ cb, cb ∉ L.*1 → cb ∉ concat L.*2 →
    cs_final_results st' !! cb = cs_final_results st !! cb
    ∧ cs_umis_per_cell st' !! cb = cs_umis_per_cell st !! cb;
  collapsed_corrected :
    corrected_barcodes st'
    = (corrected_barcodes st + Z.of_nat (length (concat L.*2)))%Z
}.

(** ** Sparse matrices (processing.py, [generate_sparse_matrices]) *)

(** Conversion to [numpy.int32].  Within the range of the type this is
    the identity; out of range NumPy wraps around or raises, depending on
    its version, and the embedding wraps around. *)
Definition int32 (v : Z) : Z := ((v + 2 ^ 31) mod 2 ^ 32 - 2 ^ 31)%Z.

(** [scipy.sparse.dok_matrix]: a shape and a dictionary from (row, column)
    to the nonzero entries. *)
Record dok_matrix := mk_dok { shape : Z * Z; dok_entries : gmap (Z * Z) Z }.

(** [sparse.dok_matrix((rows, cols), dtype=int32)] *)
Definition dok_new (rows cols : Z) : dok_matrix := mk_dok (rows, cols) ∅.

(** An index into an axis of length [n]: a negative index counts from the
    end, and an index outside [-n, n) raises [IndexError]. *)
Definition dok_index (n i : Z) : option Z :=
  if ((i <? - n) || (n <=? i))%Z then None
  else Some (if (i <? 0)%Z then (i + n)%Z else i).

(** [m[row, col] = v]: a zero is not stored. *)
Definition dok_setitem (m : dok_matrix) (row col v : Z) : option dok_matrix :=
  r ← dok_index (shape m).1 row;
  c ← dok_index (shape m).2 col;
  let x := int32 v in
  Some (mk_dok (shape m)
          (if (x =? 0)%Z then delete (r, c) (dok_entries m)
           else <[(r, c) := x]> (dok_entries m))).

(** [m[row, col]] for indices within the shape. *)
Definition dok_getitem (m : dok_matrix) (row col : Z) : Z :=
  default 0%Z (dok_entries m !! (row, col)).

(** [enumerate(l)] *)
Definition enumerate {X} (l : list X) : list (nat * X) := imap pair l.

(** Body of [for j, TAG in enumerate(final_results[cell_barcode])]; the
    index [j] is not used.  [mats] is the pair of the UMI matrix and the
    read matrix. *)
Definition fill_tag (ordered_tags_map : gmap string tag_info) (i : Z)
    (mats : dok_matrix * dok_matrix) (tc : string * counter) :
    option (dok_matrix * dok_matrix) :=
  if decide (tc.2 = ∅) then Some mats
  else
    info ← ordered_tags_map !! tc.1;
    umi ← dok_setitem mats.1 (info_id info) i (Py.dict_len tc.2);
    read ← dok_setitem mats.2 (info_id info) i (Py.sum_values tc.2);
    Some (umi, read).

(** Body of [for i, cell_barcode in enumerate(top_cells)]. *)
Definition fill_cell (final_results : results) (ordered_tags_map : gmap string tag_info)
    (mats : dok_matrix * dok_matrix) (ic : nat * string) :
    option (dok_matrix * dok_matrix) :=
  tags ← final_results !! ic.2;
  for_each (fill_tag ordered_tags_map (Z.of_nat ic.1)) mats (map_to_list tags).

Definition generate_sparse_matrices (final_results : results)
    (ordered_tags_map : gmap string tag_info) (top_cells : list string) :
    option (dok_matrix * dok_matrix) :=
  let rows := Py.dict_len ordered_tags_map in
  let cols := Z.of_nat (length top_cells) in
  for_each (fill_cell final_results ordered_tags_map)
           (dok_new rows cols, dok_new rows cols) (enumerate top_cells).

(** A non-empty UMI counter of a tag of the cell at position [i] of the
    selection, the tag having row [row]. *)
Definition observed (final_results : results) (ordered_tags_map : gmap string tag_info)
    (top_cells : list string) (i : nat) (row : Z) (cnt : counter) : Prop :=
  ∃ cell tags TAG info,
    top_cells !! i = Some cell ∧ final_results !! cell = Some tags
    ∧ tags !! TAG = Some cnt ∧ cnt ≠ ∅
    ∧ ordered_tags_map !! TAG = Some info ∧ info_id info = row.

(** Conditions under which no step of [generate_sparse_matrices] raises
    and no value is truncated: the selected cells are in the results, the
    tags with observations are in the tag map with their panel index as
    [id], two tags do not share an [id], and the values fit [int32]. *)
Record matrix_inputs (final_results : results) (ordered_tags_map : gmap string tag_info)
    (top_cells : list string) : Prop := {
  cells_known : ∀ cell, cell ∈ top_cells → is_Some (final_results !! cell);
  tags_known : ∀ cell tags TAG cnt, cell ∈ top_cells →
    final_results !! cell = Some tags → tags !! TAG = Some cnt → cnt ≠ ∅ →
    ∃ info, ordered_tags_map !! TAG = Some info
            ∧ (0 ≤ info_id info < Py.dict_len ordered_tags_map)%Z;
  ids_distinct : ∀ T1 T2 i1 i2, ordered_tags_map !! T1 = Some i1 →
    ordered_tags_map !! T2 = Some i2 → info_id i1 = info_id i2 → T1 = T2;
  values_fit : ∀ cell tags TAG cnt, cell ∈ top_cells →
    final_results !! cell = Some tags → tags !! TAG = Some cnt →
    (Py.dict_len cnt < 2 ^ 31)%Z ∧ (- 2 ^ 31 ≤ Py.sum_values cnt < 2 ^ 31)%Z
}.

(** ** Unmapped-rate guard (processing.py, [check_unmapped]) *)

(** Python floats are IEEE 754 binary64 numbers: [spec_float] with
    [prec = 53] and [emax = 1024]. *)
Definition float_of_int (a : Z) : spec_float :=
  match a with
  | Z0 => S754_zero false
  | Zpos p => S754_finite false p 0
  | Zneg p => S754_finite true p 0
  end.

(** [a / b] on two ints: the binary64 number nearest to the exact
    quotient; [ZeroDivisionError] when [b] is 0 and [OverflowError] when
    the quotient is too large for a float. *)
Definition int_truediv (a b : Z) : option spec_float :=
  if (b =? 0)%Z then None
  else match SFdiv 53 1024 (float_of_int a) (float_of_int b) with
       | S754_infinity _ => None
       | q => Some q
       end.

(** [float(0.99)]: the binary64 number nearest to 0.99,
    8917127262193582 * 2^-53. *)
Definition float_0_99 : spec_float := S754_finite false 8917127262193582 (-53).

(** How a call ends: it returns, the process exits with a message
    ([exit(message)]), or an exception is raised. *)
Inductive outcome :=
  | Returns
  | Exits (message : string)
  | Raises.

Definition newline : string := String (ascii_of_nat 10) EmptyString.

(** The message of the guard, with [start_trim] formatted in decimal. *)
Definition unmapped_message (start_trim : Z) : string :=
  "More than 99 percent of your data is unmapped." +:+ newline
  +:+ "Please check that your --start_trim " +:+ pretty start_trim
  +:+ " parameter is correct and that your tags file is properly formatted".

Definition check_unmapped (no_match : counter) (total_reads : Z) (start_trim : Z) :
    outcome :=
  match int_truediv (Py.sum_values no_match) total_reads with
  | None => Raises
  | Some ratio =>
      if SFltb float_0_99 ratio then Exits (unmapped_message start_trim)
      else Returns
  end.

(** The test of the guard on an unmapped count and a total: [None] when
    the division raises. *)
Definition guard_test (unmapped_count total_reads : Z) : option bool :=
  SFltb float_0_99 <$> int_truediv unmapped_count total_reads.

(** The test agrees with the exact comparison
    [100 * unmapped > 99 * total] for every total from 1 to [bound] - 1 and
    every unmapped count from 0 to the total. *)
Definition guard_exact_upto (bound : Z) : bool :=
  forallb (λ total,
    forallb (λ n, bool_decide (guard_test n total
                               = Some (bool_decide (99 * total < 100 * n)%Z)))
            (seqZ 0 (total + 1)))
    (seqZ 1 (bound - 1)).

(** ** Read chunking and disk staging (io.py, [write_chunks_to_disk]) *)

Module Path.
(** [os.path.join(a, b)] on POSIX paths. *)
Definition join (a b : string) : string :=
  if String.prefix "/" b then b
  else if String.eqb a "" then b
  else if String.eqb (Py.slice a (-1) (Py.len a)) "/" then a +:+ b
  else a +:+ "/" +:+ b.

(** [os.path.abspath(p)] in the working directory [cwd], for paths
    that are already normalised (no [.] or [..] component, no doubled or
    trailing separator). *)
Definition abspath (cwd p : string) : string := join cwd p.
End Path.

(** Whitespace removed by [str.strip()] from an ASCII string. *)
Definition is_space (c : ascii) : bool :=
  let n := nat_of_ascii c in
  (((9 <=? n) && (n <=? 13)) || ((28 <=? n) && (n <=? 32)))%nat.

Fixpoint lstrip (s : string) : string :=
  match s with
  | String c rest => if is_space c then lstrip rest else s
  | EmptyString => EmptyString
  end.

Fixpoint rstrip (s : string) : string :=
  match s with
  | String c rest =>
      match rstrip rest with
      | EmptyString => if is_space c then EmptyString else String c EmptyString
      | r => String c r
      end
  | EmptyString => EmptyString
  end.

(** [s.strip()] *)
Definition strip (s : string) : string := rstrip (lstrip s).

(** [islice(l, start, None, step)] for [step >= 1]: the elements at
    positions [start], [start + step], ... *)
Fixpoint islice_from {X} (skip step : nat) (l : list X) : list X :=
  match l with
  | [] => []
  | x :: rest =>
      match skip with
      | 0 => x :: islice_from (step - 1) step rest
      | S k => islice_from k step rest
      end
  end.

(** [zip(l1, l2)] *)
Fixpoint zip {X Y} (l1 : list X) (l2 : list Y) : list (X * Y) :=
  match l1, l2 with
  | x :: r1, y :: r2 => (x, y) :: zip r1 r2
  | _, _ => []
  end.

Record chemistry := mk_chemistry {
  cell_barcode_start : Z;
  cell_barcode_end : Z;
  umi_barcode_start : Z;
  umi_barcode_end : Z;
  R2_trim_start : Z
}.

(** The fields of [args] that the function reads.  [chunk_size] is the
    value in effect in the loop: [args.chunk_size], or when that is unset
    the default [round(total_reads / args.n_threads) + 1] computed before
    the loop.  [first_n] is [None] when no cap is configured (the
    comparison with the count of written rows is then never true). *)
Record arguments := mk_arguments {
  chunk_size : Z;
  temp_path : string;
  debug : bool;
  max_error : Z;
  sliding_window : bool;
  first_n : option Z
}.

Record mapping_input := mk_mapping_input {
  mi_filename : string;
  mi_tags : list tag;
  mi_debug : bool;
  mi_maximum_distance : Z;
  mi_sliding_window : bool
}.

(** What the function does to the file system, in order: [open(name,
    "w")], a [write] of one row to the file opened under [name], and
    [close]. *)
Inductive io_event :=
  | Open (filename : string)
  | Write (filename : string) (row : string)
  | Close (filename : string).

(** The local variables of [write_chunks_to_disk], with the trace of its
    file operations. *)
Record staging := mk_staging {
  num_chunk : Z;
  temp_filename : string;
  reads_written : Z;
  total_reads_written : Z;
  R1_too_short : Z;
  R2_too_short : Z;
  total_reads : Z;
  input_queue : list mapping_input;
  temp_files : list string;
  trace : list io_event
}.

Section staging.
Context (args : arguments) (cwd : string) (R2_max_length : Z)
        (chemistry_def : chemistry) (named_tuples_tags_map : list tag).

Definition task (filename : string) : mapping_input :=
  {| mi_filename := filename;
     mi_tags := named_tuples_tags_map;
     mi_debug := debug args;
     mi_maximum_distance := max_error args;
     mi_sliding_window := sliding_window args |}.

(** The row written for a read pair that is not skipped; [read1] is
    already stripped. *)
Definition chunk_row (read1 read2 : string) : string :=
  let read1_sliced :=
    Py.slice read1 (cell_barcode_start chemistry_def - 1)
                   (umi_barcode_end chemistry_def) in
  let read2_sliced :=
    Py.slice read2 (R2_trim_start chemistry_def)
                   (R2_max_length + R2_trim_start chemistry_def) in
  Py.slice read1_sliced (cell_barcode_start chemistry_def - 1)
                        (cell_barcode_end chemistry_def)
  +:+ "," +:+
  Py.slice read1_sliced (umi_barcode_start chemistry_def - 1)
                        (umi_barcode_end chemistry_def)
  +:+ "," +:+ read2_sliced +:+ newline.

(** [chunked_file_object.write(row); reads_written += 1;
    total_reads_written += 1] *)
Definition write_row (st : staging) (row : string) : staging :=
  {| num_chunk := num_chunk st;
     temp_filename := temp_filename st;
     reads_written := reads_written st + 1;
     total_reads_written := total_reads_written st + 1;
     R1_too_short := R1_too_short st;
     R2_too_short := R2_too_short st;
     total_reads := total_reads st;
     input_queue := input_queue st;
     temp_files := temp_files st;
     trace := trace st ++ [Write (temp_filename st) row] |}.

(** The branch [if reads_written % args.chunk_size == 0]: the chunk
    file is registered and closed, and the next one is opened under the
    name ["temp_" + str(num_chunk)], as the source writes it. *)
Definition rotate (st : staging) : staging :=
  let num_chunk' := (num_chunk st + 1)%Z in
  let temp_filename' := "temp_" +:+ pretty num_chunk' in
  {| num_chunk := num_chunk';
     temp_filename := temp_filename';
     reads_written := 0;
     total_reads_written := total_reads_written st;
     R1_too_short := R1_too_short st;
     R2_too_short := R2_too_short st;
     total_reads := total_reads st;
     input_queue := input_queue st ++ [task (temp_filename st)];
     temp_files := temp_files st ++ [Path.abspath cwd temp_filename'];
     trace := trace st ++ [Close (temp_filename st); Open temp_filename'] |}.

Definition count_R1_too_short (st : staging) : staging :=
  {| num_chunk := num_chunk st; temp_filename := temp_filename st;
     reads_written := reads_written st;
     total_reads_written := total_reads_written st;
     R1_too_short := R1_too_short st + 1; R2_too_short := R2_too_short st;
     total_reads := total_reads st; input_queue := input_queue st;
     temp_files := temp_files st; trace := trace st |}.

Definition count_R2_too_short (st : staging) : staging :=
  {| num_chunk := num_chunk st; temp_filename := temp_filename st;
     reads_written := reads_written st;
     total_reads_written := total_reads_written st;
     R1_too_short := R1_too_short st; R2_too_short := R2_too_short st + 1;
     total_reads := total_reads st; input_queue := input_queue st;
     temp_files := temp_files st; trace := trace st |}.

(** [total_reads = total_reads_written] before the [break]. *)
Definition report_total (st : staging) : staging :=
  {| num_chunk := num_chunk st; temp_filename := temp_filename st;
     reads_written := reads_written st;
     total_reads_written := total_reads_written st;
     R1_too_short := R1_too_short st; R2_too_short := R2_too_short st;
     total_reads := total_reads_written st; input_queue := input_queue st;
     temp_files := temp_files st; trace := trace st |}.

(** [total_reads_written >= args.first_n] *)
Definition cap_reached (st : staging) : bool :=
  match first_n args with
  | Some n => bool_decide (n ≤ total_reads_written st)%Z
  | None => false
  end.

(** The part of the loop body after the two length tests. *)
Definition stage_row (st : staging) (read1 read2 : string) : staging :=
  let st1 := write_row st (chunk_row read1 read2) in
  if (reads_written st1 mod chunk_size args =? 0)%Z then rotate st1 else st1.

(** [for read1, read2 in secondlines]; the [break] leaves this loop and
    no other. *)
Fixpoint stage_reads (st : staging) (secondlines : list (string * string)) : staging :=
  match secondlines with
  | [] => st
  | (read1, read2) :: rest =>
      let read1 := strip read1 in
      if (Py.len read1 <? umi_barcode_end chemistry_def)%Z then
        stage_reads (count_R1_too_short st) rest
      else if (Py.len read2 <? R2_max_length)%Z then
        stage_reads (count_R2_too_short st) rest
      else
        let st' := stage_row st read1 read2 in
        if cap_reached st' then report_total st'
        else stage_reads st' rest
  end.

(** Body of [for read1_path, read2_path in zip(read1_paths,
    read2_paths)]; a file is the list of its lines, each with its line
    end. *)
Definition stage_files (st : staging) (files : list string * list string) : staging :=
  let secondlines := islice_from 1 4 (zip files.1 files.2) in
  let filename := Path.join (Path.abspath cwd (temp_path args))
                            ("temp_" +:+ pretty (num_chunk st)) in
  let st0 :=
    {| num_chunk := num_chunk st; temp_filename := filename;
       reads_written := 0;
       total_reads_written := total_reads_written st;
       R1_too_short := R1_too_short st; R2_too_short := R2_too_short st;
       total_reads := total_reads st; input_queue := input_queue st;
       temp_files := temp_files st ++ [Path.abspath cwd filename];
       trace := trace st ++ [Open filename] |} in
  let st1 := stage_reads st0 secondlines in
  {| num_chunk := num_chunk st1; temp_filename := temp_filename st1;
     reads_written := reads_written st1;
     total_reads_written := total_reads_written st1;
     R1_too_short := R1_too_short st1; R2_too_short := R2_too_short st1;
     total_reads := total_reads st1;
     input_queue := input_queue st1 ++ [task (temp_filename st1)];
     temp_files := temp_files st1;
     trace := trace st1 ++ [Close (temp_filename st1)] |}.

(** [write_chunks_to_disk]; [files] are the opened pairs of read-1 and
    read-2 files.  The result carries the returned values
    [input_queue], [temp_files], [R1_too_short], [R2_too_short] and
    [total_reads]. *)
Definition write_chunks_to_disk (files : list (list string * list string))
    (total_reads0 : Z) : staging :=
  foldl stage_files
        {| num_chunk := 0; temp_filename := ""; reads_written := 0;
           total_reads_written := 0; R1_too_short := 0; R2_too_short := 0;
           total_reads := total_reads0; input_queue := []; temp_files := [];
           trace := [] |}
        files.
End staging.

(** The rows written, in order, and the names under which files were
    opened. *)
Definition rows_written (tr : list io_event) : list string :=
  omap (λ ev, match ev with Write _ row => Some row | _ => None end) tr.

Definition files_opened (tr : list io_event) : list string :=
  omap (λ ev, match ev with Open f => Some f | _ => None end) tr.

(** A FASTQ record of four lines around a sequence line. *)
Definition fastq_record (sequence_line : string) : list string :=
  ["@read" +:+ newline; sequence_line +:+ newline; "+" +:+ newline;
   "IIII" +:+ newline].

(** A pair of sequence lines that the loop skips. *)
Definition skipped (R2_max_length : Z) (chemistry_def : chemistry)
    (pair : string * string) : bool :=
  (Py.len (strip pair.1) <? umi_barcode_end chemistry_def)%Z
  || (Py.len pair.2 <? R2_max_length)%Z.

(** The number of pairs of sequence lines that are not skipped. *)
Definition valid_reads (R2_max_length : Z) (chemistry_def : chemistry)
    (secondlines : list (string * string)) : Z :=
  Z.of_nat (length (filter (λ p, skipped R2_max_length chemistry_def p = false)
                           secondlines)).

(** Inputs of the staging examples: a cell barcode at positions 1-4, a
    UMI at positions 5-6, reads 2 of 4 bases, and /home/user as working
    directory. *)
Definition example_chemistry : chemistry := mk_chemistry 1 4 5 6 0.

Definition example_files_1 : list string * list string :=
  ((fastq_record "AAAACC" ++ fastq_record "CCCCGG")%list,
   (fastq_record "ACGT" ++ fastq_record "TTTT")%list).

Definition example_files_2 : list string * list string :=
  (fastq_record "GGGGTT", fastq_record "ACGA").

Definition example_run (chunk_size : Z) (first_n : option Z)
    (files : list (list string * list string)) (total_reads : Z) : staging :=
  write_chunks_to_disk (mk_arguments chunk_size "/tmp/work" false 1 false first_n)
    "/home/user" 4 example_chemistry [] files total_reads.


(** * More of the code *)

(** ** Binary64 division, for the unmapped-rate guard *)

(** The position of the remainder [r] of a division by [b] relative to
    one half: the location that the division hands to the rounding. *)
Definition loc_of (r b : Z) : location :=
  if (r =? 0)%Z then loc_Exact else loc_Inexact (2 * r ?= b)%Z.

(** ** Sliding-window matching (processing.py, [find_best_match_shift]) *)

(** [needle in hay] on two strings: [needle] occurs in [hay] at some
    offset. *)
Fixpoint contains (needle hay : string) : bool :=
  String.prefix needle hay
  || match hay with
     | String _ rest => contains needle rest
     | EmptyString => false
     end.

Fixpoint find_best_match_shift_loop (TAG_seq : string) (tags : list tag)
    (best_match : string) : string :=
  match tags with
  | [] => best_match
  | t :: rest =>
      if contains (sequence t) TAG_seq then name t
      else find_best_match_shift_loop TAG_seq rest best_match
  end.

Definition find_best_match_shift (TAG_seq : string) (tags : list tag) : string :=
  find_best_match_shift_loop TAG_seq tags unmapped.

(** ** Mapping the reads of a chunk (processing.py, [map_reads]) *)

(** [bytes(s, "ascii")]: the string itself, [UnicodeEncodeError] when one
    of its characters lies outside the 7-bit range. *)
Definition is_ascii (s : string) : bool :=
  forallb (λ c, (nat_of_ascii c <? 128)%nat) (list_ascii_of_string s).

Definition bytes_ascii (s : string) : option string :=
  if is_ascii s then Some s else None.

(** [map_reads] reads its chunk file through [csv.reader]; a row is the
    list of its fields.  [read[0]], [read[1]] and [read[2]] raise
    [IndexError] on a shorter row.  The progress and debug prints are left
    out. *)
Definition map_read (tags : list tag) (maximum_distance : Z) (sliding_window : bool)
    (st : results * counter) (read : list string) : option (results * counter) :=
  cell_barcode ← read !! 0%nat;
  UMI ← read !! 1%nat ≫= bytes_ascii;
  read2 ← read !! 2%nat;
  let results :=
    match st.1 !! cell_barcode with
    | Some _ => st.1
    | None => <[cell_barcode := ∅]> st.1
    end in
  best_match ← (if sliding_window then Some (find_best_match_shift read2 tags)
                else find_best_match read2 tags maximum_distance);
  let results := nested_incr results cell_barcode best_match UMI 1 in
  let no_match :=
    if decide (best_match = unmapped) then counter_incr st.2 read2 1 else st.2 in
  Some (results, no_match).

(** [map_reads] on the rows of its chunk file: the pair
    [(results, no_match)]. *)
Definition map_reads (reads : list (list string)) (tags : list tag)
    (maximum_distance : Z) (sliding_window : bool) : option (results * counter) :=
  for_each (map_read tags maximum_distance sliding_window) (∅, ∅) reads.

(** The tag that a row is counted under. *)
Definition best_match_of (tags : list tag) (maximum_distance : Z)
    (sliding_window : bool) (read2 : string) : option string :=
  if sliding_window then Some (find_best_match_shift read2 tags)
  else find_best_match read2 tags maximum_distance.

(** The contribution of one row to the results and to the unmapped
    tally. *)
Definition row_results (cell_barcode best_match UMI : string) : results :=
  {[ cell_barcode := {[ best_match := {[ UMI := 1%Z ]} ]} ]}.

Definition row_no_match (best_match read2 : string) : counter :=
  if decide (best_match = unmapped) then {[ read2 := 1%Z ]} else ∅.

(** Every counter of the results holds at least one UMI. *)
Definition no_empty_counter (r : results) : Prop :=
  ∀ cb tags TAG cnt, r !! cb = Some tags → tags !! TAG = Some cnt → cnt ≠ ∅.

(** The number of all reads counted in the results of one cell, and in
    all the results. *)
Definition cell_reads (r : results) (cb : string) : Z := read_total (tags_of r cb).

Definition all_reads (r : results) : Z :=
  Py.sum ((λ ct, read_total ct.2) <$> map_to_list r).

(** [needle] occurs in [hay]: [hay] is [before] + [needle] + [after]. *)
Definition occurs_in (needle hay : string) : Prop :=
  ∃ before after, hay = before +:+ needle +:+ after.

(** Pointwise sum of two pairs [(results, no_match)]. *)
Definition chunk_plus (a b : results * counter) : results * counter :=
  (results_plus a.1 b.1, Py.counter_update a.2 b.2).

(** What one row adds to [(results, no_match)]; [None] when the row is
    too short or the matching raises. *)
Definition row_contribution (tags : list tag) (maximum_distance : Z)
    (sliding_window : bool) (read : list string) : option (results * counter) :=
  cell_barcode ← read !! 0%nat;
  UMI ← read !! 1%nat ≫= bytes_ascii;
  read2 ← read !! 2%nat;
  best_match ← best_match_of tags maximum_distance sliding_window read2;
  Some (row_results cell_barcode best_match UMI, row_no_match best_match read2).

(** Sum of [h] over the values of a dictionary. *)
Definition map_sum {V} (h : V → Z) (m : gmap string V) : Z :=
  Py.sum ((λ kv, h kv.2) <$> map_to_list m).

(** The reads counted under the tag ["unmapped"], over all cells. *)
Definition unmapped_reads (r : results) : Z :=
  map_sum (λ tags : tag_counts, Py.sum_values (default ∅ (tags !! unmapped))) r.

(** The rows of a chunk that belong to the cell [cb]. *)
Definition rows_of_cell (cb : string) (reads : list (list string)) : list (list string) :=
  filter (λ read, read !! 0%nat = Some cb) reads.

(** Rows and tags of the mapping examples: two chunks of rows
    [cell barcode, UMI, read 2] and two tags of four bases. *)
Definition mapping_example_tags : list tag :=
  [mk_tag "CD3" "ACGT" 0; mk_tag "CD4" "TTTT" 1].

Definition mapping_example_chunks : list (list (list string)) :=
  [ [ ["AAAA"; "GG"; "ACGT"]; ["AAAA"; "GC"; "CCCC"] ];
    [ ["CCCC"; "GG"; "TTTA"] ] ].

(** ** UMI correction (processing.py, [update_umi_counts]) *)

(** Body of [for minor_umi in umi_cluster[1:]]; the state is the pair
    [(cell_tag_counts, temp_corrected_umis)].  [pop] raises [KeyError] on
    a UMI that is not a key of the counter. *)
Definition merge_minor_umi (major_umi : string) (st : counter * Z) (minor_umi : string) :
    option (counter * Z) :=
  let temp_corrected_umis := (st.2 + 1)%Z in
  temp ← st.1 !! minor_umi;
  let cell_tag_counts := delete minor_umi st.1 in
  Some (counter_incr cell_tag_counts major_umi temp, temp_corrected_umis).

(** Body of [for umi_cluster in UMIclusters]. *)
Definition update_cluster (st : counter * Z) (umi_cluster : list string) :
    option (counter * Z) :=
  if decide (1 < length umi_cluster)%nat then
    major_umi ← umi_cluster !! 0%nat;
    for_each (merge_minor_umi major_umi) st (drop 1 umi_cluster)
  else Some st.

Definition update_umi_counts (UMIclusters : list (list string))
    (cell_tag_counts : counter) : option (counter * Z) :=
  for_each update_cluster (cell_tag_counts, 0%Z) UMIclusters.

(** The minor UMIs of the clusters: all but the first of each. *)
Definition minor_umis (UMIclusters : list (list string)) : list string :=
  concat (drop 1 <$> UMIclusters).

(** A counter of three UMIs and a clustering that folds ["AAT"] into
    ["AAC"]. *)
Definition umi_example_counts : counter := {[ "AAC" := 5%Z; "AAT" := 1%Z; "GGG" := 2%Z ]}.
Definition umi_example_clusters : list (list string) := [["AAC"; "AAT"]; ["GGG"]].

(** ** Whitelist correction (processing.py, [correct_cells_whitelist]) *)

(** [distance] stands for [Levenshtein.hamming], which the source hands
    to the tree; the cell barcodes are the keys of the results, in the
    order of the dictionary.  The state returned holds the three values
    of the source's tuple. *)
Definition correct_cells_whitelist (distance : string → string → nat)
    (final_results : results) (umis_per_cell : counter) (whitelist : gset string)
    (collapsing_threshold : Z) (ab_map : gmap string tag_info) : option collapse_state :=
  let barcode_tree := mk_BKTree distance (elements whitelist) in
  let cell_barcodes := (map_to_list final_results).*1 in
  let true_to_false :=
    find_true_to_false_map barcode_tree cell_barcodes whitelist collapsing_threshold in
  collapse_cells true_to_false umis_per_cell final_results ab_map.

(** ** The file operations of [write_chunks_to_disk] *)

(** Replaying a trace of file operations against the discipline of one
    output file at a time: the state is [None] after a violation, else
    the file currently open with the number of rows written to it since
    it was opened.  A file is opened only when none is open, a row is
    written only to the open file and only while it holds fewer than
    [bound] rows, and only the open file is closed. *)
Definition protocol_step (bound : Z) (cur : option (option (string * Z)))
    (ev : io_event) : option (option (string * Z)) :=
  match cur with
  | Some None =>
      match ev with
      | Open f => Some (Some (f, 0%Z))
      | _ => None
      end
  | Some (Some (g, n)) =>
      match ev with
      | Write f _ =>
          if decide (f = g ∧ (n < bound)%Z) then Some (Some (g, (n + 1)%Z)) else None
      | Close f => if decide (f = g) then Some None else None
      | Open _ => None
      end
  | None => None
  end.

Definition file_protocol (bound : Z) (tr : list io_event) :
    option (option (string * Z)) :=
  foldl (protocol_step bound) (Some None) tr.

(** The pairs of sequence lines of a pair of files:
    [islice(zip(textfile1, textfile2), 1, None, 4)]. *)
Definition secondlines_of (files : list string * list string) : list (string * string) :=
  islice_from 1 4 (zip files.1 files.2).

(** The two length tests of the loop, in the order of the source. *)
Definition R1_short (chemistry_def : chemistry) (pair : string * string) : bool :=
  (Py.len (strip pair.1) <? umi_barcode_end chemistry_def)%Z.

Definition R2_short (R2_max_length : Z) (pair : string * string) : bool :=
  (Py.len pair.2 <? R2_max_length)%Z.

(** During the loop over one pair of files: the current chunk file is
    open and holds [reads_written] rows, fewer than the chunk size. *)
Definition chunk_open (args : arguments) (st : staging) : Prop :=
  file_protocol (chunk_size args) (trace st)
  = Some (Some (temp_filename st, reads_written st))
  ∧ (0 ≤ reads_written st < chunk_size args)%Z.

(** During the loop over one pair of files: the files opened so far are
    those of the queue and the current one, and the list of temporary
    files holds their absolute paths. *)
Definition files_registered (cwd : string) (st : staging) : Prop :=
  files_opened (trace st) = ((mi_filename <$> input_queue st) ++ [temp_filename st])%list
  ∧ temp_files st = Path.abspath cwd <$> files_opened (trace st).

(** The rows of the pairs of sequence lines that pass both length
    tests. *)
Definition staged_rows (R2_max_length : Z) (chemistry_def : chemistry)
    (secondlines : list (string * string)) : list string :=
  (λ p, chunk_row R2_max_length chemistry_def (strip p.1) p.2)
    <$> filter (λ p, skipped R2_max_length chemistry_def p = false) secondlines.

(** The counters and the rows of a state [st'] relative to an earlier
    state [st] and the pairs of sequence lines examined in between, when
    every pair is examined. *)
Definition accounted (R2_max_length : Z) (chemistry_def : chemistry)
    (st : staging) (secondlines : list (string * string)) (st' : staging) : Prop :=
  rows_written (trace st')
  = (rows_written (trace st) ++ staged_rows R2_max_length chemistry_def secondlines)%list
  ∧ R1_too_short st'
    = (R1_too_short st
       + Z.of_nat (length (filter (λ p, R1_short chemistry_def p = true) secondlines)))%Z
  ∧ R2_too_short st'
    = (R2_too_short st
       + Z.of_nat (length (filter (λ p, R1_short chemistry_def p = false
                                        ∧ R2_short R2_max_length p = true)
                                  secondlines)))%Z
  ∧ total_reads st' = total_reads st.

(** ** Run report (io.py, [create_report]) *)

(** The int [100] as a float. *)
Definition float_100 : spec_float := S754_finite false 100 0.

(** [round(x)] on a float: the nearest integer, a tie going to the even
    one; [OverflowError] on an infinity and [ValueError] on a NaN. *)
Definition py_round (x : spec_float) : option Z :=
  match x with
  | S754_zero _ => Some 0%Z
  | S754_finite s m e =>
      let n :=
        if (0 <=? e)%Z then (Zpos m * 2 ^ e)%Z
        else
          let d := (2 ^ (- e))%Z in
          let q := (Zpos m / d)%Z in
          let r := (Zpos m mod d)%Z in
          if (2 * r <? d)%Z then q
          else if (d <? 2 * r)%Z then (q + 1)%Z
          else if Z.even q then q else (q + 1)%Z in
      Some (if s then (- n)%Z else n)
  | S754_infinity _ | S754_nan => None
  end.

(** [round((part / total_reads) * 100)] *)
Definition percentage (part total_reads : Z) : option Z :=
  ratio ← int_truediv part total_reads;
  py_round (SFmul 53 1024 ratio float_100).

(** The percentages that [create_report] writes into the report, as the
    triple [(mapped_perc, unmapped_perc, too_short_perc)]; they are
    computed in the order of the source, the too-short one first.  The
    rest of the report copies arguments into the text. *)
Definition create_report_percentages (total_reads : Z) (no_match : counter) :
    option (Z * Z * Z) :=
  let total_unmapped := Py.sum_values no_match in
  let total_mapped := (total_reads - total_unmapped)%Z in
  let total_too_short := (total_reads - total_unmapped - total_mapped)%Z in
  too_short_perc ← percentage total_too_short total_reads;
  mapped_perc ← percentage total_mapped total_reads;
  unmapped_perc ← percentage total_unmapped total_reads;
  Some (mapped_perc, unmapped_perc, too_short_perc).

(** A row that [map_reads] can count: it has the three fields, its UMI
    is ASCII, and the matching of its read 2 does not raise. *)
Definition countable_row (tags : list tag) (maximum_distance : Z)
    (sliding_window : bool) (read : list string) : Prop :=
  ∃ cell_barcode UMI read2,
    read !! 0%nat = Some cell_barcode
    ∧ read !! 1%nat = Some UMI ∧ is_ascii UMI = true
    ∧ read !! 2%nat = Some read2
    ∧ (sliding_window = false → is_Some (find_best_match read2 tags maximum_distance)).
(** * Properties *)

(** ** Tag matching *)

(** A tag that the loop passes over: its score is defined, is not 0 and
    exceeds the maximum distance. *)
Definition passed_over (TAG_seq : string) (maximum_distance : Z) (t : tag) : Prop :=
  ∃ d : nat, tag_score TAG_seq t = Some d ∧ d ≠ 0 ∧ (maximum_distance < Z.of_nat d)%Z.

Lemma find_best_match_loop_skip TAG_seq pre rest best_score best_match :
  Forall (passed_over TAG_seq best_score) pre →
  find_best_match_loop TAG_seq (pre ++ rest) best_score best_match
  = find_best_match_loop TAG_seq rest best_score best_match.
Proof.
  induction 1 as [|t pre (d & Hd & Hne & Hlt) _ IH]; [done|].
  cbn [app find_best_match_loop]. rewrite Hd. cbn.
  destruct (Z.eqb_spec (Z.of_nat d) 0); [lia|].
  destruct (Z.leb_spec (Z.of_nat d) best_score); [lia|]. exact IH.
Qed.

Lemma tag_score_defined TAG_seq t :
  (String.length (sequence t) ≤ String.length TAG_seq)%nat →
  is_Some (tag_score TAG_seq t).
Proof.
  unfold tag_score, Py.slice, Py.len, Py.slice_bound. intros Hlen.
  replace (0 <? 0)%Z with false by done.
  destruct (Z.ltb_spec (Z.of_nat (String.length (sequence t))) 0); [lia|].
  rewrite Z.min_l by lia. rewrite Z.min_l by lia.
  rewrite Z.sub_0_r, Nat2Z.id. change (Z.to_nat 0) with 0.
  revert Hlen. generalize (sequence t) as s. generalize TAG_seq as r.
  induction r as [|c r IH]; intros [|a s] Hlen; cbn in *; try lia; eauto.
  destruct (IH s ltac:(lia)) as [d ->]. cbn. eauto.
Qed.

(** Two tags at distance 1 from the read: the first one in panel order
    is returned. *)
Example find_best_match_first_of_two :
  find_best_match "AAATCC" [mk_tag "t1" "AAAA" 0; mk_tag "t2" "AAAG" 1] 1
  = Some "t1".
Proof. reflexivity. Qed.

(** A later exact match does not displace an earlier tag within the
    maximum distance. *)
Example find_best_match_earlier_within_threshold :
  find_best_match "AAATCC" [mk_tag "t1" "AAAG" 0; mk_tag "t2" "AAAT" 1] 1
  = Some "t1".
Proof. reflexivity. Qed.

(** C1: bounded-distance matching.  Scanning the panel in order, the
    first tag whose Hamming distance to the equally truncated read is 0,
    or else is at most the maximum distance, is returned at once, whatever
    tags follow it; when every tag is passed over the result is the
    sentinel "unmapped"; and the call returns a result whenever no tag is
    longer than the read. *)
Theorem find_best_match_first_within_threshold
    (TAG_seq : string) (maximum_distance : Z) :
  (∀ pre t post (d : nat),
      Forall (passed_over TAG_seq maximum_distance) pre →
      tag_score TAG_seq t = Some d →
      d = 0 ∨ (Z.of_nat d ≤ maximum_distance)%Z →
      find_best_match TAG_seq (pre ++ t :: post) maximum_distance = Some (name t))
  ∧ (∀ tags,
      Forall (passed_over TAG_seq maximum_distance) tags →
      find_best_match TAG_seq tags maximum_distance = Some unmapped)
  ∧ (∀ tags,
      Forall (λ t, (String.length (sequence t) ≤ String.length TAG_seq)%nat) tags →
      is_Some (find_best_match TAG_seq tags maximum_distance)).
Proof.
  unfold find_best_match. split; [|split].
  - intros pre t post d Hpre Hd Hq.
    rewrite find_best_match_loop_skip by done.
    cbn [find_best_match_loop]. rewrite Hd. cbn.
    destruct (Z.eqb_spec (Z.of_nat d) 0); [done|].
    destruct (Z.leb_spec (Z.of_nat d) maximum_distance); [done|lia].
  - intros tags Hall.
    rewrite <- (app_nil_r tags), find_best_match_loop_skip by done. done.
  - intros tags Hall. generalize unmapped as best.
    induction Hall as [|t tags Hlen _ IH]; intros best; cbn; [eauto|].
    destruct (tag_score_defined TAG_seq t Hlen) as [d ->]. cbn.
    destruct (Z.of_nat d =? 0)%Z; [eauto|].
    destruct (Z.of_nat d <=? maximum_distance)%Z; eauto.
Qed.

Lemma find_best_match_first_within_threshold_witness :
  find_best_match "AAATCC"
    ([mk_tag "t0" "CCCC" 0] ++ mk_tag "t1" "AAAA" 1 :: [mk_tag "t2" "AAAG" 2]) 1
  = Some "t1".
Proof.
  apply (proj1 (find_best_match_first_within_threshold "AAATCC" 1)
           [mk_tag "t0" "CCCC" 0] (mk_tag "t1" "AAAA" 1) [mk_tag "t2" "AAAG" 2] 1).
  - constructor; [|constructor]. exists 4. split; [reflexivity|]. split; [lia|lia].
  - reflexivity.
  - right. lia.
Defined.

(** ** Result merging *)

Definition merge_example_chunk : results * counter :=
  ({[ "CELL" := {[ "tagA" := {[ "u1" := 2%Z; "u2" := 3%Z ]} ]} ]}, ∅).

(** One tag with two distinct UMIs adds 4, not 2, to the cell's UMI
    total. *)
Example merge_results_two_umis :
  let m := merge_results [merge_example_chunk] in
  umis_per_cell m !! "CELL" = Some 4%Z ∧ reads_per_cell m !! "CELL" = Some 5%Z
  ∧ count_at (merged_results m) "CELL" "tagA" "u2" = 3%Z.
Proof. vm_compute. done. Qed.

Section union_with_total.
Context {A : Type} (f : A → A → A).
Implicit Types a b c : gmap string A.

Let uw a b := union_with (λ x y, Some (f x y)) a b.

Lemma union_with_total_comm a b :
  (∀ x y, f x y = f y x) → uw a b = uw b a.
Proof.
  intros Hf. apply map_eq. intros k. unfold uw.
  rewrite !lookup_union_with.
  destruct (a !! k), (b !! k); cbn; try done. by rewrite Hf.
Qed.

Lemma union_with_total_assoc a b c :
  (∀ x y z, f x (f y z) = f (f x y) z) → uw a (uw b c) = uw (uw a b) c.
Proof.
  intros Hf. apply map_eq. intros k. unfold uw.
  rewrite !lookup_union_with.
  destruct (a !! k), (b !! k), (c !! k); cbn; try done. by rewrite Hf.
Qed.

Lemma union_with_total_singleton a k x :
  uw a {[k := x]} = <[k := from_option (λ y, f y x) x (a !! k)]> a.
Proof.
  apply map_eq. intros j. unfold uw. rewrite lookup_union_with.
  destruct (decide (k = j)) as [->|Hne].
  - rewrite lookup_singleton_eq, lookup_insert_eq. by destruct (a !! j).
  - rewrite lookup_singleton_ne, lookup_insert_ne by done. by destruct (a !! j).
Qed.
End union_with_total.

Lemma counter_update_comm (a b : counter) :
  Py.counter_update a b = Py.counter_update b a.
Proof. apply (union_with_total_comm Z.add). intros. lia. Qed.

Lemma counter_update_assoc (a b c : counter) :
  Py.counter_update a (Py.counter_update b c)
  = Py.counter_update (Py.counter_update a b) c.
Proof. apply (union_with_total_assoc Z.add). intros. lia. Qed.

Lemma counter_update_empty_r (a : counter) : Py.counter_update a ∅ = a.
Proof. unfold Py.counter_update. by rewrite (right_id ∅ _). Qed.

Lemma counter_update_empty_l (a : counter) : Py.counter_update ∅ a = a.
Proof. unfold Py.counter_update. by rewrite (left_id ∅ _). Qed.

Lemma counter_get_update (a b : counter) k :
  Py.counter_get (Py.counter_update a b) k
  = (Py.counter_get a k + Py.counter_get b k)%Z.
Proof.
  unfold Py.counter_get, Py.counter_update. rewrite lookup_union_with.
  destruct (a !! k), (b !! k); cbn; lia.
Qed.

Lemma counter_incr_update (c : counter) k n :
  counter_incr c k n = Py.counter_update c {[k := n]}.
Proof.
  unfold counter_incr, Py.counter_update, Py.counter_get.
  rewrite (union_with_total_singleton Z.add). by destruct (c !! k).
Qed.

Lemma tag_counts_plus_comm (a b : tag_counts) :
  tag_counts_plus a b = tag_counts_plus b a.
Proof. apply (union_with_total_comm Py.counter_update), counter_update_comm. Qed.

Lemma tag_counts_plus_assoc (a b c : tag_counts) :
  tag_counts_plus a (tag_counts_plus b c) = tag_counts_plus (tag_counts_plus a b) c.
Proof. apply (union_with_total_assoc Py.counter_update), counter_update_assoc. Qed.

Lemma tag_counts_plus_empty_r (a : tag_counts) : tag_counts_plus a ∅ = a.
Proof. unfold tag_counts_plus. by rewrite (right_id ∅ _). Qed.

Lemma results_plus_comm (a b : results) : results_plus a b = results_plus b a.
Proof. apply (union_with_total_comm tag_counts_plus), tag_counts_plus_comm. Qed.

Lemma results_plus_assoc (a b c : results) :
  results_plus a (results_plus b c) = results_plus (results_plus a b) c.
Proof. apply (union_with_total_assoc tag_counts_plus), tag_counts_plus_assoc. Qed.

Lemma merged_plus_comm a b : merged_plus a b = merged_plus b a.
Proof.
  unfold merged_plus. f_equal; auto using results_plus_comm, counter_update_comm.
Qed.

Lemma merged_plus_assoc a b c :
  merged_plus a (merged_plus b c) = merged_plus (merged_plus a b) c.
Proof.
  unfold merged_plus; cbn.
  f_equal; auto using results_plus_assoc, counter_update_assoc.
Qed.

Lemma merged_plus_empty_r a : merged_plus a merged_empty = a.
Proof.
  destruct a. unfold merged_plus, results_plus; cbn.
  rewrite !counter_update_empty_r. by rewrite (right_id ∅ _).
Qed.

Lemma merged_plus_empty_l a : merged_plus merged_empty a = a.
Proof. by rewrite merged_plus_comm, merged_plus_empty_r. Qed.

(** *** Every step of the merge adds a contribution *)

Lemma nested_incr_plus (r : results) cb TAG UMI n :
  nested_incr r cb TAG UMI n = results_plus r {[cb := {[TAG := {[UMI := n]}]}]}.
Proof.
  unfold nested_incr, results_plus.
  rewrite (union_with_total_singleton tag_counts_plus). f_equal.
  destruct (r !! cb) as [tags|]; cbn.
  - unfold tag_counts_plus.
    rewrite (union_with_total_singleton Py.counter_update). f_equal.
    destruct (tags !! TAG) as [c|]; cbn.
    + apply counter_incr_update.
    + by rewrite counter_incr_update, counter_update_empty_l.
  - rewrite lookup_empty; cbn.
    by rewrite counter_incr_update, counter_update_empty_l, insert_empty.
Qed.

Lemma foldl_additive {X} (step : merged → X → merged) (l : list X) st :
  additive step →
  foldl step st l = merged_plus st (foldl step merged_empty l).
Proof.
  intros Hstep. revert st.
  induction l as [|x l IH] using rev_ind; intros st; cbn.
  - by rewrite merged_plus_empty_r.
  - rewrite !foldl_app; cbn.
    rewrite Hstep, IH, (Hstep (foldl _ _ _)). by rewrite merged_plus_assoc.
Qed.

Lemma merge_umi_additive cb TAG cnt : additive (merge_umi cb TAG cnt).
Proof.
  intros st kv. unfold merge_umi, merged_plus; cbn.
  rewrite !nested_incr_plus, !counter_incr_update.
  rewrite !counter_update_empty_l, counter_update_empty_r.
  f_equal. unfold results_plus at 3. by rewrite (left_id ∅ _).
Qed.

Lemma merge_tag_additive cb : additive (merge_tag cb).
Proof.
  intros st tc. unfold merge_tag. case_decide.
  - by rewrite merged_plus_empty_r.
  - apply foldl_additive, merge_umi_additive.
Qed.

Lemma ensure_cell_plus cb st :
  ensure_cell cb st = merged_plus st (ensure_cell cb merged_empty).
Proof.
  unfold ensure_cell at 2; cbn. rewrite lookup_empty, insert_empty.
  unfold ensure_cell, merged_plus; cbn. rewrite !counter_update_empty_r.
  unfold results_plus. rewrite (union_with_total_singleton tag_counts_plus).
  destruct st as [r u rd nm]; cbn.
  destruct (r !! cb) as [tags|] eqn:Hcb; cbn; f_equal.
  by rewrite tag_counts_plus_empty_r, insert_id.
Qed.

Lemma merge_cell_additive : additive merge_cell.
Proof.
  intros st ct. unfold merge_cell.
  rewrite foldl_additive by apply merge_tag_additive.
  rewrite (foldl_additive _ _ (ensure_cell _ merged_empty))
    by apply merge_tag_additive.
  by rewrite ensure_cell_plus, merged_plus_assoc.
Qed.

Lemma merge_chunk_cells st chunk :
  merge_chunk st chunk
  = merged_plus (foldl merge_cell st (map_to_list chunk.1))
                (mk_merged ∅ ∅ ∅ chunk.2).
Proof.
  unfold merge_chunk, merged_plus; cbn.
  rewrite !counter_update_empty_r. f_equal.
  unfold results_plus. by rewrite (right_id ∅ _).
Qed.

Lemma merge_chunk_additive : additive merge_chunk.
Proof.
  intros st chunk. rewrite !merge_chunk_cells.
  rewrite foldl_additive by apply merge_cell_additive.
  by rewrite merged_plus_assoc.
Qed.

Lemma foldl_additive_perm {X} (step : merged → X → merged) (l1 l2 : list X) :
  additive step → l1 ≡ₚ l2 → ∀ st, foldl step st l1 = foldl step st l2.
Proof.
  intros Hstep. induction 1 as [|x l1 l2 _ IH|x y l|l1 l2 l3 _ IH1 _ IH2];
    intros st; cbn.
  - done.
  - apply IH.
  - f_equal. rewrite (Hstep (step st y)), (Hstep (step st x)), (Hstep st x), (Hstep st y).
    rewrite <- !merged_plus_assoc. f_equal. apply merged_plus_comm.
  - by rewrite IH1, IH2.
Qed.

(** C8: merging is independent of the order of the per-chunk results:
    for every permutation of the list, the merged nested counts, the
    per-cell UMI totals, the per-cell read totals and the unmapped tally
    are the same dictionaries. *)
Theorem merge_results_order_independent
    (parallel_results permuted : list (results * counter)) :
  parallel_results ≡ₚ permuted →
  merged_results (merge_results parallel_results)
    = merged_results (merge_results permuted)
  ∧ umis_per_cell (merge_results parallel_results)
    = umis_per_cell (merge_results permuted)
  ∧ reads_per_cell (merge_results parallel_results)
    = reads_per_cell (merge_results permuted)
  ∧ merged_no_match (merge_results parallel_results)
    = merged_no_match (merge_results permuted).
Proof.
  intros Hperm. unfold merge_results.
  by rewrite (foldl_additive_perm _ _ _ merge_chunk_additive Hperm).
Qed.

Lemma merge_results_order_independent_witness :
  let c1 : results * counter :=
    ({[ "CELL" := {[ "tagA" := {[ "u1" := 2%Z ]} ]} ]}, {[ "GGGG" := 1%Z ]}) in
  let c2 : results * counter :=
    ({[ "CELL" := {[ "tagA" := {[ "u1" := 1%Z; "u2" := 1%Z ]} ]} ]}, ∅) in
  merged_results (merge_results [c1; c2]) = merged_results (merge_results [c2; c1])
  ∧ umis_per_cell (merge_results [c1; c2]) = umis_per_cell (merge_results [c2; c1])
  ∧ reads_per_cell (merge_results [c1; c2]) = reads_per_cell (merge_results [c2; c1])
  ∧ merged_no_match (merge_results [c1; c2]) = merged_no_match (merge_results [c2; c1]).
Proof.
  intros c1 c2. apply (merge_results_order_independent [c1; c2] [c2; c1]).
  apply perm_swap.
Defined.

(** *** What the merge accumulates *)

Lemma sum_perm (l1 l2 : list Z) : l1 ≡ₚ l2 → Py.sum l1 = Py.sum l2.
Proof.
  unfold Py.sum. induction 1; cbn; lia.
Qed.

Lemma sum_const {X} (l : list X) (z : Z) :
  Py.sum ((λ _, z) <$> l) = (Z.of_nat (length l) * z)%Z.
Proof. unfold Py.sum. induction l; cbn [length fmap list_fmap foldr]; lia. Qed.

Lemma sum_zero {X} (l : list X) : Py.sum ((λ _, 0%Z) <$> l) = 0%Z.
Proof. rewrite sum_const. lia. Qed.

Lemma sum_ext {X} (f g : X → Z) (l : list X) :
  (∀ x, x ∈ l → f x = g x) → Py.sum (f <$> l) = Py.sum (g <$> l).
Proof.
  unfold Py.sum. induction l as [|x l IH]; intros Hfg; cbn; [done|].
  rewrite (Hfg x) by left. f_equal. apply IH. intros y Hy. apply Hfg. by right.
Qed.

(** A sum over the items of a dictionary in which only the key [k]
    contributes. *)
Lemma sum_at_key {V} (m : gmap string V) (h : V → Z) (k : string) :
  Py.sum ((λ kv, if decide (kv.1 = k) then h kv.2 else 0%Z) <$> map_to_list m)
  = from_option h 0%Z (m !! k).
Proof.
  induction m as [|i x m Hi IH] using map_ind.
  - by rewrite map_to_list_empty, lookup_empty.
  - rewrite (sum_perm _ _ (fmap_Permutation _ _ _ (map_to_list_insert m i x Hi))).
    cbn. unfold Py.sum in *. cbn. rewrite IH.
    destruct (decide (i = k)) as [->|Hne].
    + rewrite lookup_insert_eq, Hi. cbn. lia.
    + by rewrite lookup_insert_ne.
Qed.

Section getter.
Context (g : merged → Z).
Hypothesis g_plus : ∀ a b, g (merged_plus a b) = (g a + g b)%Z.
Hypothesis g_empty : g merged_empty = 0%Z.

Lemma getter_foldl {X} (step : merged → X → merged) (l : list X) :
  additive step →
  g (foldl step merged_empty l) = Py.sum ((λ x, g (step merged_empty x)) <$> l).
Proof.
  intros Hstep. induction l as [|x l IH]; cbn; [done|].
  rewrite foldl_additive, g_plus, IH by done. unfold Py.sum. cbn. lia.
Qed.

Lemma getter_merge_tag cb tc :
  g (merge_tag cb merged_empty tc)
  = Py.sum ((λ kv, g (merge_umi cb tc.1 tc.2 merged_empty kv)) <$> map_to_list tc.2).
Proof.
  unfold merge_tag. case_decide as Hc.
  - by rewrite Hc, map_to_list_empty.
  - apply getter_foldl, merge_umi_additive.
Qed.

Lemma getter_merge_cell ct :
  g (merge_cell merged_empty ct)
  = (g (ensure_cell ct.1 merged_empty)
     + Py.sum ((λ tc, g (merge_tag ct.1 merged_empty tc)) <$> map_to_list ct.2))%Z.
Proof.
  unfold merge_cell.
  rewrite foldl_additive, g_plus by apply merge_tag_additive.
  by rewrite getter_foldl by apply merge_tag_additive.
Qed.

Lemma getter_merge_chunk chunk :
  g (merge_chunk merged_empty chunk)
  = (Py.sum ((λ ct, g (merge_cell merged_empty ct)) <$> map_to_list chunk.1)
     + g (mk_merged ∅ ∅ ∅ chunk.2))%Z.
Proof.
  rewrite merge_chunk_cells, g_plus.
  by rewrite getter_foldl by apply merge_cell_additive.
Qed.

Lemma getter_merge_results l :
  g (merge_results l) = Py.sum ((λ chunk, g (merge_chunk merged_empty chunk)) <$> l).
Proof. apply getter_foldl, merge_chunk_additive. Qed.
End getter.

Lemma count_at_plus (a b : results) cb TAG UMI :
  count_at (results_plus a b) cb TAG UMI
  = (count_at a cb TAG UMI + count_at b cb TAG UMI)%Z.
Proof.
  unfold count_at, results_plus. rewrite lookup_union_with.
  destruct (a !! cb) as [ta|], (b !! cb) as [tb|]; cbn;
    rewrite ?lookup_empty; cbn; try (unfold Py.counter_get; rewrite ?lookup_empty; cbn; lia).
  unfold tag_counts_plus. rewrite lookup_union_with.
  destruct (ta !! TAG) as [ca|], (tb !! TAG) as [cb'|]; cbn;
    try (unfold Py.counter_get; rewrite ?lookup_empty; cbn; lia).
  apply counter_get_update.
Qed.

Lemma counter_get_incr_empty k n j :
  Py.counter_get (counter_incr ∅ k n) j = if decide (k = j) then n else 0%Z.
Proof.
  unfold counter_incr, Py.counter_get. rewrite lookup_empty; cbn.
  case_decide as Hk.
  - subst. by rewrite lookup_insert_eq.
  - by rewrite lookup_insert_ne, lookup_empty.
Qed.

Lemma length_items {V} (m : gmap string V) :
  Z.of_nat (length (map_to_list m)) = Py.dict_len m.
Proof. unfold Py.dict_len. by rewrite length_map_to_list. Qed.

(** Per-cell UMI total. *)
Definition get_umis (cb : string) (m : merged) : Z :=
  Py.counter_get (umis_per_cell m) cb.

Lemma get_umis_merge_tag cb cb' tc :
  get_umis cb (merge_tag cb' merged_empty tc)
  = if decide (cb' = cb) then (Py.dict_len tc.2 * Py.dict_len tc.2)%Z else 0%Z.
Proof.
  rewrite (getter_merge_tag (get_umis cb)); [|intros; apply counter_get_update|done].
  unfold get_umis, merge_umi; cbn.
  rewrite (sum_ext _ (λ _, if decide (cb' = cb) then Py.dict_len tc.2 else 0%Z))
    by (intros; apply counter_get_incr_empty).
  rewrite sum_const, length_items. case_decide; lia.
Qed.

Lemma get_umis_merge_cell cb ct :
  get_umis cb (merge_cell merged_empty ct)
  = if decide (ct.1 = cb) then umi_squares ct.2 else 0%Z.
Proof.
  rewrite (getter_merge_cell (get_umis cb)); [|intros; apply counter_get_update|done].
  rewrite (sum_ext _ _ _ (λ tc _, get_umis_merge_tag cb ct.1 tc)).
  replace (get_umis cb (ensure_cell ct.1 merged_empty)) with 0%Z by done.
  case_decide; [done|]. by rewrite sum_zero.
Qed.

Lemma get_umis_merge_chunk cb (chunk : results * counter) :
  get_umis cb (merge_chunk merged_empty chunk)
  = umi_squares (default ∅ (chunk.1 !! cb)).
Proof.
  rewrite (getter_merge_chunk (get_umis cb)); [|intros; apply counter_get_update|done].
  rewrite (sum_ext _ _ _ (λ ct _, get_umis_merge_cell cb ct)).
  rewrite (sum_at_key chunk.1 umi_squares cb).
  replace (get_umis cb _) with 0%Z by done.
  destruct (chunk.1 !! cb); cbn; [lia|]. by rewrite Z.add_0_r.
Qed.

(** Per-cell read total. *)
Definition get_reads (cb : string) (m : merged) : Z :=
  Py.counter_get (reads_per_cell m) cb.

Lemma get_reads_merge_tag cb cb' tc :
  get_reads cb (merge_tag cb' merged_empty tc)
  = if decide (cb' = cb) then Py.sum_values tc.2 else 0%Z.
Proof.
  rewrite (getter_merge_tag (get_reads cb)); [|intros; apply counter_get_update|done].
  unfold get_reads, merge_umi; cbn.
  rewrite (sum_ext _ (λ kv, if decide (cb' = cb) then kv.2 else 0%Z))
    by (intros; apply counter_get_incr_empty).
  case_decide; [|by rewrite sum_zero]. reflexivity.
Qed.

Lemma get_reads_merge_cell cb ct :
  get_reads cb (merge_cell merged_empty ct)
  = if decide (ct.1 = cb) then read_total ct.2 else 0%Z.
Proof.
  rewrite (getter_merge_cell (get_reads cb)); [|intros; apply counter_get_update|done].
  rewrite (sum_ext _ _ _ (λ tc _, get_reads_merge_tag cb ct.1 tc)).
  replace (get_reads cb (ensure_cell ct.1 merged_empty)) with 0%Z by done.
  case_decide; [done|]. by rewrite sum_zero.
Qed.

Lemma get_reads_merge_chunk cb (chunk : results * counter) :
  get_reads cb (merge_chunk merged_empty chunk)
  = read_total (default ∅ (chunk.1 !! cb)).
Proof.
  rewrite (getter_merge_chunk (get_reads cb)); [|intros; apply counter_get_update|done].
  rewrite (sum_ext _ _ _ (λ ct _, get_reads_merge_cell cb ct)).
  rewrite (sum_at_key chunk.1 read_total cb).
  replace (get_reads cb _) with 0%Z by done.
  destruct (chunk.1 !! cb); cbn; [lia|]. by rewrite Z.add_0_r.
Qed.

(** Count of one UMI in the merged nested counter. *)
Definition get_count (cb TAG UMI : string) (m : merged) : Z :=
  count_at (merged_results m) cb TAG UMI.

Lemma get_count_plus cb TAG UMI a b :
  get_count cb TAG UMI (merged_plus a b)
  = (get_count cb TAG UMI a + get_count cb TAG UMI b)%Z.
Proof. apply count_at_plus. Qed.

Lemma get_count_merge_umi cb TAG UMI cb' TAG' cnt kv :
  get_count cb TAG UMI (merge_umi cb' TAG' cnt merged_empty kv)
  = if decide (cb' = cb ∧ TAG' = TAG) then
      (if decide (kv.1 = UMI) then kv.2 else 0%Z)
    else 0%Z.
Proof.
  unfold get_count, merge_umi, count_at, nested_incr; cbn.
  rewrite !lookup_empty; cbn. rewrite lookup_empty; cbn.
  destruct (decide (cb' = cb)) as [->|Hcb].
  - rewrite lookup_insert_eq; cbn. destruct (decide (TAG' = TAG)) as [->|Ht].
    + rewrite lookup_insert_eq; cbn. rewrite counter_get_incr_empty.
      rewrite (decide_True (P := cb = cb ∧ TAG = TAG)) by done. done.
    + rewrite lookup_insert_ne, lookup_empty by done; cbn.
      rewrite decide_False by (by intros [_ ?]). done.
  - rewrite lookup_insert_ne, lookup_empty by done; cbn.
    rewrite decide_False by (by intros [? _]). done.
Qed.

Lemma get_count_merge_tag cb TAG UMI cb' tc :
  get_count cb TAG UMI (merge_tag cb' merged_empty tc)
  = if decide (cb' = cb ∧ tc.1 = TAG) then Py.counter_get tc.2 UMI else 0%Z.
Proof.
  rewrite (getter_merge_tag (get_count cb TAG UMI));
    [|apply get_count_plus|done].
  rewrite (sum_ext _ _ _ (λ kv _, get_count_merge_umi cb TAG UMI cb' tc.1 tc.2 kv)).
  case_decide; [|by rewrite sum_zero].
  apply (sum_at_key tc.2 (λ z : Z, z) UMI).
Qed.

Lemma get_count_merge_cell cb TAG UMI ct :
  get_count cb TAG UMI (merge_cell merged_empty ct)
  = if decide (ct.1 = cb) then Py.counter_get (default ∅ (ct.2 !! TAG)) UMI else 0%Z.
Proof.
  rewrite (getter_merge_cell (get_count cb TAG UMI));
    [|apply get_count_plus|done].
  rewrite (sum_ext _ _ _ (λ tc _, get_count_merge_tag cb TAG UMI ct.1 tc)).
  assert (get_count cb TAG UMI (ensure_cell ct.1 merged_empty) = 0%Z) as ->.
  { unfold get_count, ensure_cell, count_at; cbn. rewrite lookup_empty; cbn.
    destruct (decide (ct.1 = cb)) as [->|Hne].
    - by rewrite lookup_insert_eq.
    - by rewrite lookup_insert_ne, lookup_empty. }
  destruct (decide (ct.1 = cb)) as [Hcb|Hcb].
  - rewrite (sum_ext _ (λ tc, if decide (tc.1 = TAG)
                              then Py.counter_get tc.2 UMI else 0%Z)).
    + rewrite (sum_at_key ct.2 (λ c, Py.counter_get c UMI) TAG).
      by destruct (ct.2 !! TAG).
    + intros tc _. destruct (decide (tc.1 = TAG));
        [rewrite decide_True by done|rewrite decide_False by (by intros [_ ?])]; done.
  - rewrite (sum_ext _ (λ _, 0%Z)); [by rewrite sum_zero|].
    intros tc _. rewrite decide_False by (by intros [? _]). done.
Qed.

Lemma get_count_merge_chunk cb TAG UMI (chunk : results * counter) :
  get_count cb TAG UMI (merge_chunk merged_empty chunk)
  = count_at chunk.1 cb TAG UMI.
Proof.
  rewrite (getter_merge_chunk (get_count cb TAG UMI));
    [|apply get_count_plus|done].
  rewrite (sum_ext _ _ _ (λ ct _, get_count_merge_cell cb TAG UMI ct)).
  rewrite (sum_at_key chunk.1 (λ tags, Py.counter_get (default ∅ (tags !! TAG)) UMI) cb).
  replace (get_count cb TAG UMI _) with 0%Z by done.
  unfold count_at. destruct (chunk.1 !! cb); cbn; [lia|]. done.
Qed.

(** C2: what merging accumulates.  Merging one tag of one cell whose UMI
    counter holds k distinct UMIs adds k for each of its k UMIs, that is
    k * k, to the cell's UMI total, adds the sum of the UMI counts to the
    cell's read total and adds each UMI's count to the nested counter.
    Over a whole list of per-chunk results, the UMI total of a cell is the
    sum over chunks and tags of k * k, its read total the sum of all its
    UMI counts, and every nested count the sum of the per-chunk counts. *)
Theorem merge_results_accumulates
    (parallel_results : list (results * counter)) (cb TAG UMI : string) :
  (∀ st (cnt : counter),
      let st' := merge_tag cb st (TAG, cnt) in
      Py.counter_get (umis_per_cell st') cb
        = (Py.counter_get (umis_per_cell st) cb
           + Py.dict_len cnt * Py.dict_len cnt)%Z
      ∧ Py.counter_get (reads_per_cell st') cb
        = (Py.counter_get (reads_per_cell st) cb + Py.sum_values cnt)%Z
      ∧ count_at (merged_results st') cb TAG UMI
        = (count_at (merged_results st) cb TAG UMI + Py.counter_get cnt UMI)%Z)
  ∧ Py.counter_get (umis_per_cell (merge_results parallel_results)) cb
    = Py.sum ((λ chunk, umi_squares (default ∅ (chunk.1 !! cb)))
                <$> parallel_results)
  ∧ Py.counter_get (reads_per_cell (merge_results parallel_results)) cb
    = Py.sum ((λ chunk, read_total (default ∅ (chunk.1 !! cb)))
                <$> parallel_results)
  ∧ count_at (merged_results (merge_results parallel_results)) cb TAG UMI
    = Py.sum ((λ chunk, count_at chunk.1 cb TAG UMI) <$> parallel_results).
Proof.
  split; [|split; [|split]].
  - intros st cnt st'. subst st'. rewrite merge_tag_additive.
    split; [|split].
    + change (get_umis cb (merged_plus st (merge_tag cb merged_empty (TAG, cnt)))
              = (get_umis cb st + Py.dict_len cnt * Py.dict_len cnt)%Z).
      unfold get_umis at 1. cbn [umis_per_cell merged_plus].
      rewrite counter_get_update. fold (get_umis cb (merge_tag cb merged_empty (TAG, cnt))).
      rewrite get_umis_merge_tag, decide_True by done. done.
    + change (get_reads cb (merged_plus st (merge_tag cb merged_empty (TAG, cnt)))
              = (get_reads cb st + Py.sum_values cnt)%Z).
      unfold get_reads at 1. cbn [reads_per_cell merged_plus].
      rewrite counter_get_update. fold (get_reads cb (merge_tag cb merged_empty (TAG, cnt))).
      rewrite get_reads_merge_tag, decide_True by done. done.
    + change (get_count cb TAG UMI (merged_plus st (merge_tag cb merged_empty (TAG, cnt)))
              = (get_count cb TAG UMI st + Py.counter_get cnt UMI)%Z).
      rewrite get_count_plus, get_count_merge_tag, decide_True by done. done.
  - change (get_umis cb (merge_results parallel_results) = 
            Py.sum ((λ chunk, umi_squares (default ∅ (chunk.1 !! cb))) <$> parallel_results)).
    rewrite (getter_merge_results (get_umis cb)); [|intros; apply counter_get_update|done].
    apply sum_ext. intros chunk _. apply get_umis_merge_chunk.
  - change (get_reads cb (merge_results parallel_results) = 
            Py.sum ((λ chunk, read_total (default ∅ (chunk.1 !! cb))) <$> parallel_results)).
    rewrite (getter_merge_results (get_reads cb)); [|intros; apply counter_get_update|done].
    apply sum_ext. intros chunk _. apply get_reads_merge_chunk.
  - change (get_count cb TAG UMI (merge_results parallel_results) = 
            Py.sum ((λ chunk, count_at chunk.1 cb TAG UMI) <$> parallel_results)).
    rewrite (getter_merge_results (get_count cb TAG UMI)); [|apply get_count_plus|done].
    apply sum_ext. intros chunk _. apply get_count_merge_chunk.
Qed.

(** ** Cell-barcode assignment against a whitelist *)

Lemma candidates_near_whitelist distance whitelist cell_barcode n :
  candidates (mk_BKTree distance (elements whitelist)) cell_barcode n
  = near_whitelist distance whitelist n cell_barcode.
Proof.
  unfold candidates, BKTree_find, near_whitelist; cbn.
  induction (elements whitelist) as [|w l IH]; [done|].
  rewrite fmap_cons, !filter_cons; cbn.
  destruct (decide (Z.of_nat (distance w cell_barcode) ≤ n)%Z) as [Hle|Hle].
  - rewrite filter_cons; cbn.
    destruct (decide (0 < distance w cell_barcode)) as [Hpos|Hpos].
    + rewrite decide_True by done. cbn. by rewrite IH.
    + rewrite decide_False by (by intros [? _]). done.
  - rewrite decide_False by (by intros [_ ?]). done.
Qed.

Lemma elem_of_near_whitelist distance whitelist n cell_barcode w :
  w ∈ near_whitelist distance whitelist n cell_barcode → w ∈ whitelist.
Proof.
  unfold near_whitelist. rewrite list_elem_of_filter, elem_of_elements. tauto.
Qed.

Section true_to_false.
Context (distance : string → string → nat) (whitelist : gset string)
        (collapsing_threshold : Z).

Let tree := mk_BKTree distance (elements whitelist).
Let step := find_true_to_false_step tree whitelist collapsing_threshold.
Let near := near_whitelist distance whitelist collapsing_threshold.

Lemma find_true_to_false_step_folded ttf c cb w :
  cb ∈ folded_into (step ttf c) w
  ↔ (cb ∈ folded_into ttf w ∨ (cb = c ∧ (c ∉ whitelist) ∧ near c = [w])).
Proof.
  unfold step, find_true_to_false_step, folded_into.
  case_decide as Hwl; [naive_solver|].
  unfold tree. rewrite candidates_near_whitelist. fold (near c).
  destruct (near c) as [|w0 [|w1 rest]]; [naive_solver| |naive_solver].
  unfold defaultdict_append.
  destruct (decide (w0 = w)) as [->|Hne].
  - rewrite lookup_insert_eq; cbn. rewrite elem_of_app, list_elem_of_singleton.
    naive_solver.
  - rewrite lookup_insert_ne by done. naive_solver.
Qed.

Lemma find_true_to_false_step_keys ttf c w :
  is_Some (step ttf c !! w) → is_Some (ttf !! w) ∨ w ∈ whitelist.
Proof.
  unfold step, find_true_to_false_step.
  case_decide as Hwl; [by left|].
  unfold tree. rewrite candidates_near_whitelist.
  destruct (near_whitelist _ _ _ c) as [|w0 [|w1 rest]] eqn:Hnear; [by left| |by left].
  unfold defaultdict_append. destruct (decide (w0 = w)) as [->|Hne].
  - intros _. right. eapply elem_of_near_whitelist. rewrite Hnear. by left.
  - rewrite lookup_insert_ne by done. by left.
Qed.

Lemma find_true_to_false_map_folded cell_barcodes cb w :
  cb ∈ folded_into
         (find_true_to_false_map tree cell_barcodes whitelist collapsing_threshold) w
  ↔ cb ∈ cell_barcodes ∧ (cb ∉ whitelist) ∧ near cb = [w].
Proof.
  unfold find_true_to_false_map. fold step.
  induction cell_barcodes as [|c l IH] using rev_ind.
  - cbn. unfold folded_into. rewrite lookup_empty; cbn.
    rewrite !elem_of_nil. tauto.
  - rewrite foldl_app; cbn. rewrite find_true_to_false_step_folded, IH.
    rewrite elem_of_app, list_elem_of_singleton. naive_solver.
Qed.

Lemma find_true_to_false_map_keys cell_barcodes w :
  is_Some (find_true_to_false_map tree cell_barcodes whitelist collapsing_threshold !! w)
  → w ∈ whitelist.
Proof.
  unfold find_true_to_false_map. fold step.
  induction cell_barcodes as [|c l IH] using rev_ind.
  - cbn. rewrite lookup_empty. by intros [? ?].
  - rewrite foldl_app; cbn. intros [?|?]%find_true_to_false_step_keys; auto.
Qed.
End true_to_false.

(** C3: assignment of observed barcodes to a whitelist.  For a tree built
    over the whitelist and every observed barcode: the candidates are the
    whitelist members at a distance greater than 0 and at most the
    collapsing distance; a barcode of the whitelist is skipped; any other
    barcode is folded into [w] exactly when [w] is its only candidate; and
    with no candidate or with two or more it appears nowhere in the
    mapping, neither among the folded barcodes nor as a key. *)
Theorem find_true_to_false_map_unique_candidate
    (distance : string → string → nat) (whitelist : gset string)
    (cell_barcodes : list string) (collapsing_threshold : Z) (cell_barcode : string) :
  let tree := mk_BKTree distance (elements whitelist) in
  let true_to_false :=
    find_true_to_false_map tree cell_barcodes whitelist collapsing_threshold in
  let near := near_whitelist distance whitelist collapsing_threshold cell_barcode in
  cell_barcode ∈ cell_barcodes →
  candidates tree cell_barcode collapsing_threshold = near
  ∧ (cell_barcode ∈ whitelist →
       ∀ w, cell_barcode ∉ folded_into true_to_false w)
  ∧ (cell_barcode ∉ whitelist →
       ∀ w, cell_barcode ∈ folded_into true_to_false w ↔ near = [w])
  ∧ (cell_barcode ∉ whitelist → length near ≠ 1 →
       (∀ w, cell_barcode ∉ folded_into true_to_false w)
       ∧ true_to_false !! cell_barcode = None).
Proof.
  intros tree ttf near Hin. subst tree ttf near.
  split; [apply candidates_near_whitelist|]. split; [|split].
  - intros Hwl w. rewrite find_true_to_false_map_folded. tauto.
  - intros Hwl w. rewrite find_true_to_false_map_folded. tauto.
  - intros Hwl Hlen. split.
    + intros w. rewrite find_true_to_false_map_folded.
      intros (_ & _ & Heq). by rewrite Heq in Hlen.
    + apply eq_None_not_Some. intros Hkey.
      by apply find_true_to_false_map_keys in Hkey.
Qed.

Lemma find_true_to_false_map_unique_candidate_witness :
  let whitelist : gset string := {[ "AAAAA"; "CCCCC" ]} in
  let tree := mk_BKTree barcode_distance (elements whitelist) in
  let true_to_false := find_true_to_false_map tree ["AAAAA"; "AAAAT"; "GGGGG"] whitelist 1 in
  let near := near_whitelist barcode_distance whitelist 1 "AAAAT" in
  candidates tree "AAAAT" 1 = near
  ∧ ("AAAAT" ∈ whitelist → ∀ w, "AAAAT" ∉ folded_into true_to_false w)
  ∧ ("AAAAT" ∉ whitelist → ∀ w, "AAAAT" ∈ folded_into true_to_false w ↔ near = [w])
  ∧ ("AAAAT" ∉ whitelist → length near ≠ 1 →
       (∀ w, "AAAAT" ∉ folded_into true_to_false w)
       ∧ true_to_false !! "AAAAT" = None).
Proof.
  apply (find_true_to_false_map_unique_candidate barcode_distance
           {[ "AAAAA"; "CCCCC" ]} ["AAAAA"; "AAAAT"; "GGGGG"] 1 "AAAAT").
  right. left.
Defined.

(** One whitelist member within distance 1: the barcode is folded into
    it; a barcode equally close to two members is dropped. *)
Example find_true_to_false_map_unique :
  find_true_to_false_map (mk_BKTree barcode_distance ["AAAAA"; "CCCCC"])
    ["AAAAA"; "AAAAT"; "GGGGG"] {[ "AAAAA"; "CCCCC" ]} 1
  = {[ "AAAAA" := ["AAAAT"] ]}.
Proof. by vm_compute. Qed.

Example find_true_to_false_map_ambiguous :
  find_true_to_false_map (mk_BKTree barcode_distance ["AAAAA"; "AAATT"])
    ["AAAAT"] {[ "AAAAA"; "AAATT" ]} 1
  = ∅.
Proof. by vm_compute. Qed.

(** ** Collapsing cell barcodes *)

Lemma empty_tag_counters_lookup ab_map TAG :
  empty_tag_counters ab_map !! TAG = (λ _, ∅) <$> ab_map !! TAG.
Proof.
  unfold empty_tag_counters.
  assert (∀ (l : list (string * tag_info)) (d : tag_counts),
    foldl (λ d kv, <[kv.1 := ∅]> d) d l !! TAG
    = if decide (TAG ∈ l.*1) then Some ∅ else d !! TAG) as Hfold.
  { induction l as [|[k v] l IH]; intros d; cbn.
    - rewrite decide_False; [done|]. apply not_elem_of_nil.
    - rewrite IH. destruct (decide (TAG ∈ l.*1)) as [Hin|Hin].
      + rewrite decide_True; [done|]. by right.
      + destruct (decide (k = TAG)) as [->|Hne].
        * rewrite lookup_insert_eq, decide_True; [done|]. by left.
        * rewrite lookup_insert_ne by done. rewrite decide_False; [done|].
          rewrite elem_of_cons. naive_solver. }
  rewrite Hfold, lookup_empty.
  destruct (ab_map !! TAG) as [info|] eqn:Hab; cbn.
  - rewrite decide_True; [done|]. apply list_elem_of_fmap.
    exists (TAG, info). split; [done|]. by apply elem_of_map_to_list.
  - rewrite decide_False; [done|]. intros ([k v] & -> & Hkv)%list_elem_of_fmap.
    apply elem_of_map_to_list in Hkv. cbn in Hab. congruence.
Qed.

Lemma tag_counts_plus_singleton (tags : tag_counts) TAG c :
  tag_counts_plus tags {[TAG := c]}
  = <[TAG := Py.counter_update (default ∅ (tags !! TAG)) c]> tags.
Proof.
  unfold tag_counts_plus. rewrite (union_with_total_singleton Py.counter_update).
  f_equal. destruct (tags !! TAG); cbn; [done|]. by rewrite counter_update_empty_l.
Qed.

Lemma tag_counts_plus_insert (m : tag_counts) TAG c :
  m !! TAG = None → tag_counts_plus {[TAG := c]} m = <[TAG := c]> m.
Proof.
  intros Hm. rewrite tag_counts_plus_comm, tag_counts_plus_singleton, Hm; cbn.
  by rewrite counter_update_empty_l.
Qed.

Lemma tag_counts_plus_is_Some (a b : tag_counts) TAG :
  is_Some (tag_counts_plus a b !! TAG) ↔ is_Some (a !! TAG) ∨ is_Some (b !! TAG).
Proof.
  unfold tag_counts_plus. rewrite lookup_union_with.
  destruct (a !! TAG), (b !! TAG); cbn; rewrite ?is_Some_alt; naive_solver.
Qed.

Lemma tag_counts_plus_get (a b : tag_counts) TAG UMI :
  Py.counter_get (default ∅ (tag_counts_plus a b !! TAG)) UMI
  = (Py.counter_get (default ∅ (a !! TAG)) UMI
     + Py.counter_get (default ∅ (b !! TAG)) UMI)%Z.
Proof.
  unfold tag_counts_plus. rewrite lookup_union_with.
  destruct (a !! TAG), (b !! TAG); cbn;
    rewrite ?counter_get_update; unfold Py.counter_get; rewrite ?lookup_empty; cbn; lia.
Qed.

Lemma collapse_tag_eq real fresh (fr : results) (tags : tag_counts) TAG c :
  fr !! real = Some tags →
  (fresh = true → is_Some (tags !! TAG)) →
  collapse_tag real fresh fr (TAG, c)
  = Some (<[real := <[TAG := Py.counter_update (default ∅ (tags !! TAG)) c]> tags]> fr).
Proof.
  intros Hreal Hfresh. unfold collapse_tag. rewrite Hreal. cbn.
  destruct (tags !! TAG) as [c0|] eqn:Htag; cbn; [done|].
  destruct fresh; [|done]. by destruct (Hfresh eq_refl).
Qed.

Lemma for_each_collapse_tag real fresh (l : list (string * counter)) :
  ∀ (fr : results) (tags : tag_counts),
    NoDup l.*1 →
    fr !! real = Some tags →
    (fresh = true → ∀ TAG, TAG ∈ l.*1 → is_Some (tags !! TAG)) →
    for_each (collapse_tag real fresh) fr l
    = Some (<[real := tag_counts_plus tags (list_to_map l)]> fr).
Proof.
  induction l as [|[TAG c] l IH]; intros fr tags Hnd Hreal Hfresh.
  - cbn. unfold tag_counts_plus. rewrite (right_id ∅ _). by rewrite insert_id.
  - rewrite fmap_cons in Hnd. apply NoDup_cons in Hnd as [Hnotin Hnd].
    cbn [for_each list_to_map foldr].
    rewrite (collapse_tag_eq _ _ _ tags); [|done|].
    2:{ intros Hf. apply (Hfresh Hf). by left. }
    cbn [mbind option_bind].
    rewrite (IH _ (<[TAG := Py.counter_update (default ∅ (tags !! TAG)) c]> tags)).
    + rewrite insert_insert_eq. do 2 f_equal.
      rewrite <- tag_counts_plus_singleton, <- tag_counts_plus_assoc.
      f_equal. apply tag_counts_plus_insert.
      by apply not_elem_of_list_to_map_1.
    + done.
    + by rewrite lookup_insert_eq.
    + intros Hf T HT. destruct (decide (TAG = T)) as [->|Hne].
      * by rewrite lookup_insert_eq.
      * rewrite lookup_insert_ne by done. apply (Hfresh Hf). by right.
Qed.

Lemma collapse_fake_eq real fresh st fake temp tags n :
  cs_final_results st !! fake = Some temp →
  fake ≠ real →
  cs_final_results st !! real = Some tags →
  cs_umis_per_cell st !! fake = Some n →
  (fresh = true → ∀ TAG, is_Some (temp !! TAG) → is_Some (tags !! TAG)) →
  collapse_fake real fresh st fake
  = Some {| cs_umis_per_cell := counter_incr (delete fake (cs_umis_per_cell st)) real n;
            cs_final_results :=
              <[real := tag_counts_plus tags temp]> (delete fake (cs_final_results st));
            corrected_barcodes := (corrected_barcodes st + 1)%Z |}.
Proof.
  intros Hfake Hne Hreal Humi Hfresh. unfold collapse_fake.
  rewrite Hfake; cbn.
  rewrite (for_each_collapse_tag real fresh _ _ tags).
  - cbn. rewrite Humi; cbn. by rewrite list_to_map_to_list.
  - apply NoDup_fst_map_to_list.
  - by rewrite lookup_delete_ne.
  - intros Hf T ([k v] & -> & Hkv)%list_elem_of_fmap.
    apply elem_of_map_to_list in Hkv. apply (Hfresh Hf). cbn. by rewrite Hkv.
Qed.

Lemma count_at_lookup (fr : results) cb TAG UMI :
  count_at fr cb TAG UMI = Py.counter_get (default ∅ (tags_of fr cb !! TAG)) UMI.
Proof. done. Qed.

Lemma count_at_ext (fr1 fr2 : results) cb TAG UMI :
  fr1 !! cb = fr2 !! cb → count_at fr1 cb TAG UMI = count_at fr2 cb TAG UMI.
Proof. unfold count_at. by intros ->. Qed.

Lemma counter_get_ext (u1 u2 : counter) k :
  u1 !! k = u2 !! k → Py.counter_get u1 k = Py.counter_get u2 k.
Proof. unfold Py.counter_get. by intros ->. Qed.

Lemma folded_nil real st : is_Some (cs_final_results st !! real) → folded real [] st st.
Proof.
  intros Hreal. split; try done.
  - intros f Hf. by apply elem_of_nil in Hf.
  - intros. cbn. unfold Py.sum. cbn. lia.
  - cbn. unfold Py.sum. cbn. lia.
  - cbn. lia.
Qed.

Lemma for_each_collapse_fake real fresh ab_map (fakes : list string) :
  ∀ st,
    NoDup fakes →
    real ∉ fakes →
    is_Some (cs_final_results st !! real) →
    (∀ f, f ∈ fakes →
       is_Some (cs_final_results st !! f) ∧ is_Some (cs_umis_per_cell st !! f)) →
    (fresh = true → ∀ f TAG, f ∈ fakes →
       is_Some (tags_of (cs_final_results st) f !! TAG) →
       is_Some (tags_of (cs_final_results st) real !! TAG)) →
    ∃ st', for_each (collapse_fake real fresh) st fakes = Some st'
           ∧ folded real fakes st st'
           ∧ (panel_tags_only ab_map (cs_final_results st) →
              panel_tags_only ab_map (cs_final_results st')).
Proof.
  induction fakes as [|f fs IH]; intros st Hnd Hnotin Hreal Hknown Hfresh.
  - exists st. split; [done|]. split; [by apply folded_nil|done].
  - apply NoDup_cons in Hnd as [Hf_fs Hnd].
    apply not_elem_of_cons in Hnotin as [Hreal_f Hreal_fs].
    destruct Hreal as [tags Hreal].
    destruct (Hknown f) as [[temp Htemp] [n Hn]]; [by left|].
    cbn [for_each].
    rewrite (collapse_fake_eq real fresh st f temp tags n); try done.
    2:{ intros Hfr T HT. specialize (Hfresh Hfr f T).
        unfold tags_of in Hfresh. rewrite Htemp, Hreal in Hfresh.
        apply Hfresh; [by left|done]. }
    cbn [mbind option_bind].
    set (st1 := {| cs_umis_per_cell := _; cs_final_results := _; corrected_barcodes := _ |}).
    assert (cs_final_results st1 !! real = Some (tag_counts_plus tags temp)) as Hreal1.
    { subst st1; cbn. by rewrite lookup_insert_eq. }
    assert (∀ cb, cb ≠ real → cb ≠ f →
              cs_final_results st1 !! cb = cs_final_results st !! cb
              ∧ cs_umis_per_cell st1 !! cb = cs_umis_per_cell st !! cb) as Hframe1.
    { intros cb Hcb1 Hcb2. subst st1; cbn. unfold counter_incr.
      by rewrite !lookup_insert_ne, !lookup_delete_ne by done. }
    assert (cs_final_results st1 !! f = None ∧ cs_umis_per_cell st1 !! f = None) as [Hf1 Hf1u].
    { subst st1; cbn. unfold counter_incr.
      by rewrite !lookup_insert_ne, !lookup_delete_eq by done. }
    assert (Py.counter_get (cs_umis_per_cell st1) real
            = (Py.counter_get (cs_umis_per_cell st) real
               + Py.counter_get (cs_umis_per_cell st) f)%Z) as Humis1.
    { subst st1; cbn. unfold counter_incr, Py.counter_get at 1.
      rewrite lookup_insert_eq; cbn. unfold Py.counter_get.
      rewrite lookup_delete_ne by done. by rewrite Hn. }
    destruct (IH st1) as (st' & Hrun & Hfold & Hpanel); try done.
    { intros g Hg. destruct (Hframe1 g) as [-> ->]; [set_solver..|].
      apply Hknown. by right. }
    { intros Hfr g T Hg. unfold tags_of. rewrite Hreal1.
      destruct (Hframe1 g) as [-> _]; [set_solver..|]. intros HT. cbn.
      apply tag_counts_plus_is_Some. left.
      specialize (Hfresh Hfr g T). unfold tags_of in Hfresh.
      rewrite Hreal in Hfresh. apply Hfresh; [by right|done]. }
    exists st'. split; [done|]. destruct Hfold as [Hrm Hfr Hpres Htags Hcnt Hum Hcor].
    split; [split|].
    + intros g [->|Hg]%elem_of_cons; [|by apply Hrm].
      destruct (Hfr f) as [-> ->]; done.
    + intros cb Hcb%not_elem_of_cons Hcb'. destruct Hcb as [Hcbf Hcbfs].
      destruct (Hfr cb) as [-> ->]; [done..|]. by apply Hframe1.
    + done.
    + intros T HT. apply Htags. unfold tags_of in *. rewrite Hreal1.
      rewrite Hreal in HT. cbn in *. apply tag_counts_plus_is_Some. by left.
    + intros T U. rewrite Hcnt. rewrite fmap_cons. unfold Py.sum at 2. cbn [foldr].
      fold (Py.sum ((λ g, count_at (cs_final_results st) g T U) <$> fs)).
      rewrite (sum_ext (λ g, count_at (cs_final_results st1) g T U)
                       (λ g, count_at (cs_final_results st) g T U)).
      2:{ intros g Hg. apply count_at_ext. apply Hframe1; set_solver. }
      assert (count_at (cs_final_results st1) real T U
              = (count_at (cs_final_results st) real T U
                 + count_at (cs_final_results st) f T U)%Z) as ->; [|lia].
      unfold count_at. rewrite Hreal1, Hreal, Htemp. cbn [default from_option].
      apply tag_counts_plus_get.
    + rewrite Hum, Humis1. rewrite fmap_cons. unfold Py.sum at 2. cbn [foldr].
      fold (Py.sum ((λ g, Py.counter_get (cs_umis_per_cell st) g) <$> fs)).
      rewrite (sum_ext (λ g, Py.counter_get (cs_umis_per_cell st1) g)
                       (λ g, Py.counter_get (cs_umis_per_cell st) g)).
      2:{ intros g Hg. apply counter_get_ext. apply Hframe1; set_solver. }
      lia.
    + rewrite Hcor. subst st1; cbn. lia.
    + intros Hp. apply Hpanel. intros cb tg T Hcb HT.
      destruct (decide (cb = real)) as [->|Hcbr].
      * rewrite Hreal1 in Hcb. injection Hcb as <-.
        apply tag_counts_plus_is_Some in HT as [HT|HT]; eauto.
      * destruct (decide (cb = f)) as [->|Hcbf]; [congruence|].
        destruct (Hframe1 cb) as [Heq _]; [done..|]. rewrite Heq in Hcb. eauto.
Qed.

Lemma empty_tag_counters_get ab_map TAG UMI :
  Py.counter_get (default ∅ (empty_tag_counters ab_map !! TAG)) UMI = 0%Z.
Proof.
  rewrite empty_tag_counters_lookup. by destruct (ab_map !! TAG).
Qed.

Lemma elem_of_concat {X} (x : X) (ls : list (list X)) :
  x ∈ concat ls ↔ ∃ l, l ∈ ls ∧ x ∈ l.
Proof.
  induction ls as [|l ls IH]; cbn.
  - split; [by intros ?%elem_of_nil|]. by intros (l & ?%elem_of_nil & _).
  - rewrite elem_of_app, IH. split.
    + intros [Hx|(l' & Hl' & Hx)]; [exists l; split; [by left|done]|].
      exists l'. split; [by right|done].
    + intros (l' & [->|Hl']%elem_of_cons & Hx); [by left|]. right. by exists l'.
Qed.

Lemma for_each_collapse_real ab_map (L : list (string * list string)) :
  ∀ st,
    NoDup L.*1 →
    NoDup (concat L.*2) →
    (∀ r, r ∈ L.*1 → r ∉ concat L.*2) →
    (∀ f, f ∈ concat L.*2 →
       is_Some (cs_final_results st !! f) ∧ is_Some (cs_umis_per_cell st !! f)) →
    panel_tags_only ab_map (cs_final_results st) →
    ∃ st', for_each (collapse_real ab_map) st L = Some st' ∧ collapsed ab_map L st st'.
Proof.
  induction L as [|[r fs] L IH]; intros st Hreals Hfakes Hdisj Hknown Hpanel.
  - exists st. split; [done|]. split; cbn.
    + intros r fs Hin. by apply elem_of_nil in Hin.
    + intros f Hin. by apply elem_of_nil in Hin.
    + done.
    + lia.
  - rewrite fmap_cons in Hreals. apply NoDup_cons in Hreals as [Hr_L Hreals].
    rewrite !fmap_cons in *. cbn [fst snd concat] in *.
    apply NoDup_app in Hfakes as (Hfs & Hfs_L & Hfakes).
    assert ((r ∉ fs) ∧ (r ∉ concat L.*2)) as [Hr_fs Hr_cL].
    { specialize (Hdisj r ltac:(by left)). by apply not_elem_of_app in Hdisj. }
    cbn [for_each].
    pose (fresh := bool_decide (cs_final_results st !! r = None)).
    pose (st0 := {| cs_umis_per_cell := cs_umis_per_cell st;
                    cs_final_results :=
                      if fresh
                      then <[r := empty_tag_counters ab_map]> (cs_final_results st)
                      else cs_final_results st;
                    corrected_barcodes := corrected_barcodes st |}).
    change (collapse_real ab_map st (r, fs))
      with (for_each (collapse_fake r fresh) st0 fs).
    assert (∀ cb, cb ≠ r → cs_final_results st0 !! cb = cs_final_results st !! cb) as Hfr0.
    { intros cb Hcb. subst st0; cbn. destruct fresh; [|done].
      by rewrite lookup_insert_ne. }
    assert (is_Some (cs_final_results st0 !! r)) as Hr0.
    { subst st0 fresh; cbn. case_bool_decide as Hnone.
      - by rewrite lookup_insert_eq.
      - by apply not_eq_None_Some. }
    assert (∀ T U, count_at (cs_final_results st0) r T U
                    = count_at (cs_final_results st) r T U) as Hcnt0.
    { intros T U. subst st0 fresh; cbn. case_bool_decide as Hnone; [|done].
      unfold count_at. rewrite lookup_insert_eq, Hnone. cbn.
      rewrite empty_tag_counters_get. by rewrite lookup_empty. }
    assert (fresh = true → ∀ T, is_Some (ab_map !! T) →
              is_Some (tags_of (cs_final_results st0) r !! T)) as Hfresh0.
    { intros Hf T [info HT]. subst st0; cbn. rewrite Hf.
      unfold tags_of. rewrite lookup_insert_eq; cbn.
      rewrite empty_tag_counters_lookup, HT. by eexists. }
    assert (panel_tags_only ab_map (cs_final_results st0)) as Hpanel0.
    { intros cb tg T Hcb HT. destruct (decide (cb = r)) as [->|Hcbr].
      - subst st0; cbn in Hcb. destruct fresh; [|by eapply Hpanel].
        rewrite lookup_insert_eq in Hcb. injection Hcb as <-.
        rewrite empty_tag_counters_lookup in HT.
        destruct (ab_map !! T); [by eexists|by destruct HT].
      - rewrite Hfr0 in Hcb by done. by eapply Hpanel. }
    destruct (for_each_collapse_fake r fresh ab_map fs st0)
      as (st1 & -> & Hfold & Hpanel1); try done.
    { intros f Hf. rewrite Hfr0 by (by intros ->).
      apply Hknown, elem_of_app. by left. }
    { intros Hf f T Hin HT. apply (Hfresh0 Hf).
      unfold tags_of in HT. rewrite Hfr0 in HT by (by intros ->).
      destruct (cs_final_results st !! f) as [tg|] eqn:Htg;
        [|cbn in HT; rewrite lookup_empty in HT; by destruct HT].
      by eapply Hpanel. }
    specialize (Hpanel1 Hpanel0). cbn [mbind option_bind].
    destruct Hfold as [Hrm Hfr Hpres Htags Hcnt Hum Hcor].
    destruct (IH st1) as (st' & Hrun & Hcol); try done.
    { intros r' Hr'. specialize (Hdisj r' ltac:(by right)).
      by apply not_elem_of_app in Hdisj as [_ ?]. }
    { intros f Hf.
      assert (f ∉ fs) as Hf_fs by (intros Hin; by eapply Hfs_L).
      assert (f ≠ r) as Hf_r by (by intros ->).
      destruct (Hfr f) as [-> ->]; [done..|].
      rewrite Hfr0 by done. apply Hknown, elem_of_app. by right. }
    exists st'. split; [done|].
    destruct Hcol as [Hc_real Hc_rm Hc_fr Hc_cor].
    assert (∀ cb, cb ∉ fs → cb ≠ r →
              cs_final_results st1 !! cb = cs_final_results st !! cb
              ∧ cs_umis_per_cell st1 !! cb = cs_umis_per_cell st !! cb) as Hfr1.
    { intros cb H1 H2. destruct (Hfr cb) as [-> ->]; [done..|]. by rewrite Hfr0. }
    split.
    + intros r' fs' [Heq|Hin]%elem_of_cons.
      * injection Heq as -> ->.
        destruct (Hc_fr r) as [Hr_fr Hr_u]; [done..|].
        split; [by rewrite Hr_fr|]. split; [|split].
        -- intros Hnone T HT. unfold tags_of. rewrite Hr_fr.
           apply Htags, Hfresh0; [|done]. subst fresh. by apply bool_decide_eq_true.
        -- intros T U. rewrite (count_at_ext _ _ _ _ _ Hr_fr), Hcnt, Hcnt0. f_equal.
           apply sum_ext. intros f Hf. apply count_at_ext, Hfr0. by intros ->.
        -- rewrite (counter_get_ext _ _ _ Hr_u), Hum. done.
      * assert (r' ∈ L.*1) as Hr'. { apply list_elem_of_fmap. by exists (r', fs'). }
        assert (∀ f, f ∈ fs' → f ∈ concat L.*2) as Hfs'.
        { intros f Hf. apply elem_of_concat. exists fs'. split; [|done].
          apply list_elem_of_fmap. by exists (r', fs'). }
        assert ((r' ∉ fs) ∧ r' ≠ r) as [Hr'fs Hr'r].
        { specialize (Hdisj r' ltac:(by right)).
          apply not_elem_of_app in Hdisj as [? _]. split; [done|]. by intros ->. }
        destruct (Hc_real r' fs' Hin) as (Hp & Hnew & Hc & Hu).
        destruct (Hfr1 r') as [Hr'1 Hr'1u]; [done..|].
        split; [done|]. split; [|split].
        -- intros Hnone. apply Hnew. by rewrite Hr'1.
        -- intros T U. rewrite Hc, (count_at_ext _ _ _ _ _ Hr'1). f_equal.
           apply sum_ext. intros f Hf. apply count_at_ext, Hfr1.
           ++ intros Hin'. eapply Hfs_L; [done|]. by apply Hfs'.
           ++ intros ->. apply Hr_cL. by apply Hfs'.
        -- rewrite Hu, (counter_get_ext _ _ _ Hr'1u). f_equal.
           apply sum_ext. intros f Hf. apply counter_get_ext, Hfr1.
           ++ intros Hin'. eapply Hfs_L; [done|]. by apply Hfs'.
           ++ intros ->. apply Hr_cL. by apply Hfs'.
    + intros f [Hf|Hf]%elem_of_app; [|by apply Hc_rm].
      destruct (Hc_fr f) as [-> ->]; [| |by apply Hrm].
      * intros Hf'. by apply (Hdisj f ltac:(by right)), elem_of_app; left.
      * intros Hf'. by eapply Hfs_L.
    + intros cb [Hcb1 Hcb2]%not_elem_of_cons [Hcb3 Hcb4]%not_elem_of_app.
      destruct (Hc_fr cb) as [-> ->]; [done..|]. by apply Hfr1.
    + rewrite Hc_cor, Hcor, fmap_cons. cbn [concat snd]. rewrite length_app.
      subst st0; cbn. lia.
Qed.

(** C4: the shared collapse procedure.  When no step raises (every false
    barcode is known, folded once and not itself a true barcode, and the
    results only hold panel tags), [collapse_cells] returns; a true barcode
    that was absent gets an entry with a counter for every tag of the
    panel, starting from zero counts; every false barcode loses its whole
    entry and its UMI total; the counts of its tags and its UMI total are
    added to those of its true barcode; the tally is the number of false
    barcodes; and every other cell is untouched. *)
Theorem collapse_cells_folds_false_barcodes
    (true_to_false : gmap string (list string)) (umis_per_cell : counter)
    (final_results : results) (ab_map : gmap string tag_info) :
  collapsible true_to_false umis_per_cell final_results ab_map →
  ∃ st', collapse_cells true_to_false umis_per_cell final_results ab_map = Some st'
    ∧ corrected_barcodes st'
      = Z.of_nat (length (concat (map_to_list true_to_false).*2))
    ∧ (∀ r fakes, true_to_false !! r = Some fakes →
         is_Some (cs_final_results st' !! r)
         ∧ (final_results !! r = None →
              (∀ TAG, is_Some (ab_map !! TAG) →
                 is_Some (tags_of (cs_final_results st') r !! TAG))
              ∧ ∀ TAG UMI, count_at final_results r TAG UMI = 0%Z)
         ∧ (∀ TAG UMI,
              count_at (cs_final_results st') r TAG UMI
              = (count_at final_results r TAG UMI
                 + Py.sum ((λ f, count_at final_results f TAG UMI) <$> fakes))%Z)
         ∧ Py.counter_get (cs_umis_per_cell st') r
           = (Py.counter_get umis_per_cell r
              + Py.sum ((λ f, Py.counter_get umis_per_cell f) <$> fakes))%Z
         ∧ (∀ f, f ∈ fakes →
              cs_final_results st' !! f = None ∧ cs_umis_per_cell st' !! f = None))
    ∧ (∀ cb, true_to_false !! cb = None →
         (∀ r fakes, true_to_false !! r = Some fakes → cb ∉ fakes) →
         cs_final_results st' !! cb = final_results !! cb
         ∧ cs_umis_per_cell st' !! cb = umis_per_cell !! cb).
Proof.
  intros [Hknown Honce Hnotreal Hpanel]. unfold collapse_cells.
  set (L := map_to_list true_to_false) in *.
  assert (∀ r fakes, (r, fakes) ∈ L ↔ true_to_false !! r = Some fakes) as HL.
  { intros r fakes. apply elem_of_map_to_list. }
  assert (∀ f, f ∈ concat L.*2 ↔
               ∃ r fakes, true_to_false !! r = Some fakes ∧ f ∈ fakes) as Hconcat.
  { intros f. rewrite elem_of_concat. split.
    - intros (fakes & ([r fk] & -> & Hin)%list_elem_of_fmap & Hf).
      exists r, fk. by rewrite <- HL.
    - intros (r & fakes & Hr & Hf). exists fakes. split; [|done].
      apply list_elem_of_fmap. exists (r, fakes). by rewrite HL. }
  assert (∀ r, r ∈ L.*1 ↔ is_Some (true_to_false !! r)) as Hkeys.
  { intros r. split.
    - intros ([r' fakes] & -> & Hin)%list_elem_of_fmap. apply HL in Hin. by eexists.
    - intros [fakes Hr]. apply list_elem_of_fmap. exists (r, fakes). by rewrite HL. }
  destruct (for_each_collapse_real ab_map L
              {| cs_umis_per_cell := umis_per_cell;
                 cs_final_results := final_results;
                 corrected_barcodes := 0 |})
    as (st' & Hrun & [Hreal Hrm Hframe Hcor]); cbn [cs_final_results cs_umis_per_cell].
  - apply NoDup_fst_map_to_list.
  - done.
  - intros r [fakes Hr]%Hkeys (r' & fakes' & Hr' & Hin)%Hconcat.
    rewrite (Hnotreal r' fakes' r Hr' Hin) in Hr. done.
  - intros f (r & fakes & Hr & Hin)%Hconcat. by eapply Hknown.
  - done.
  - exists st'. split; [done|]. cbn in *. split; [lia|]. split.
    + intros r fakes Hr. destruct (Hreal r fakes) as (H1 & H2 & H3 & H4); [by apply HL|].
      split; [done|]. split; [|split; [done|split; [done|]]].
      * intros Hnone. split; [by apply H2|]. intros T U. unfold count_at.
        rewrite Hnone. cbn. by rewrite lookup_empty.
      * intros f Hf. apply Hrm, Hconcat. eauto.
    + intros cb Hcb Hnotfake. apply Hframe.
      * rewrite Hkeys, Hcb. by intros [? ?].
      * rewrite Hconcat. intros (r & fakes & Hr & Hin). by eapply Hnotfake.
Qed.

Definition collapse_example_ttf : gmap string (list string) :=
  {[ "AAAAA" := ["AAAAT"] ]}.
Definition collapse_example_results : results :=
  {[ "AAAAT" := {[ "tagA" := {[ "u1" := 2%Z; "u2" := 3%Z ]} ]} ]}.
Definition collapse_example_umis : counter := {[ "AAAAT" := 4%Z ]}.
Definition collapse_example_panel : gmap string tag_info :=
  {[ "tagA" := mk_tag_info 0 "ACGT"; "unmapped" := mk_tag_info 1 "UNKNOWN" ]}.

Lemma collapse_example_collapsible :
  collapsible collapse_example_ttf collapse_example_umis collapse_example_results
              collapse_example_panel.
Proof.
  unfold collapse_example_ttf, collapse_example_results, collapse_example_umis,
    collapse_example_panel. split.
  - intros r fakes f [<- <-]%lookup_singleton_Some ->%list_elem_of_singleton.
    rewrite !lookup_singleton_eq. split; by eexists.
  - rewrite map_to_list_singleton. cbn. apply NoDup_singleton.
  - intros r fakes f [<- <-]%lookup_singleton_Some ->%list_elem_of_singleton.
    by apply lookup_singleton_ne.
  - intros cb tags TAG [<- <-]%lookup_singleton_Some [c [<- _]%lookup_singleton_Some].
    eexists. by vm_compute.
Qed.

(** The only entry of the results, a false barcode, is folded into a
    true barcode that had no entry. *)
Example collapse_cells_single_fake :
  collapse_cells collapse_example_ttf collapse_example_umis collapse_example_results
                 collapse_example_panel
  = Some {| cs_umis_per_cell := {[ "AAAAA" := 4%Z ]};
            cs_final_results :=
              {[ "AAAAA" := {[ "tagA" := {[ "u1" := 2%Z; "u2" := 3%Z ]};
                               "unmapped" := ∅ ]} ]};
            corrected_barcodes := 1 |}.
Proof. by vm_compute. Qed.

Lemma collapse_cells_folds_false_barcodes_witness :
  ∃ st', collapse_cells collapse_example_ttf collapse_example_umis
           collapse_example_results collapse_example_panel = Some st'
         ∧ corrected_barcodes st'
           = Z.of_nat (length (concat (map_to_list collapse_example_ttf).*2)).
Proof.
  destruct (collapse_cells_folds_false_barcodes _ _ _ _ collapse_example_collapsible)
    as (st' & Hrun & Hcor & _).
  exists st'. split; assumption.
Defined.

(** ** Sparse matrices *)

Lemma int32_in_range v : (- 2 ^ 31 ≤ v < 2 ^ 31)%Z → int32 v = v.
Proof. intros Hv. unfold int32. rewrite Z.mod_small; lia. Qed.

Lemma dok_index_in_range n i : (0 ≤ i < n)%Z → dok_index n i = Some i.
Proof.
  intros Hi. unfold dok_index.
  destruct (Z.ltb_spec i (- n)); [lia|]. destruct (Z.leb_spec n i); [lia|]. cbn.
  destruct (Z.ltb_spec i 0); [lia|done].
Qed.

Lemma dok_setitem_in_range m rows cols r c v :
  shape m = (rows, cols) → (0 ≤ r < rows)%Z → (0 ≤ c < cols)%Z →
  (- 2 ^ 31 ≤ v < 2 ^ 31)%Z →
  ∃ m', dok_setitem m r c v = Some m' ∧ shape m' = (rows, cols)
        ∧ dok_getitem m' r c = v
        ∧ ∀ r' c', (r', c') ≠ (r, c) → dok_getitem m' r' c' = dok_getitem m r' c'.
Proof.
  intros Hshape Hr Hc Hv. unfold dok_setitem. rewrite Hshape; cbn [fst snd].
  rewrite !dok_index_in_range by done. cbn [mbind option_bind].
  rewrite int32_in_range by done. eexists. split; [done|]. split; [done|].
  unfold dok_getitem; cbn. destruct (Z.eqb_spec v 0) as [->|Hne].
  - rewrite lookup_delete_eq. split; [done|]. intros r' c' Hne.
    by rewrite lookup_delete_ne.
  - rewrite lookup_insert_eq. split; [done|]. intros r' c' Hne'.
    by rewrite lookup_insert_ne.
Qed.

Section sparse.
Context (ordered_tags_map : gmap string tag_info) (rows cols : Z).
Hypothesis ids : ∀ T1 T2 i1 i2, ordered_tags_map !! T1 = Some i1 →
  ordered_tags_map !! T2 = Some i2 → info_id i1 = info_id i2 → T1 = T2.

Lemma for_each_fill_tag (i : Z) (l : list (string * counter)) :
  ∀ mats,
    (0 ≤ i < cols)%Z →
    shape mats.1 = (rows, cols) → shape mats.2 = (rows, cols) →
    NoDup l.*1 →
    (∀ TAG cnt, (TAG, cnt) ∈ l → cnt ≠ ∅ →
       (∃ info, ordered_tags_map !! TAG = Some info ∧ (0 ≤ info_id info < rows)%Z)
       ∧ (Py.dict_len cnt < 2 ^ 31)%Z
       ∧ (- 2 ^ 31 ≤ Py.sum_values cnt < 2 ^ 31)%Z) →
    ∃ mats', for_each (fill_tag ordered_tags_map i) mats l = Some mats'
      ∧ shape mats'.1 = (rows, cols) ∧ shape mats'.2 = (rows, cols)
      ∧ (∀ TAG cnt info, (TAG, cnt) ∈ l → cnt ≠ ∅ →
           ordered_tags_map !! TAG = Some info →
           dok_getitem mats'.1 (info_id info) i = Py.dict_len cnt
           ∧ dok_getitem mats'.2 (info_id info) i = Py.sum_values cnt)
      ∧ (∀ row col,
           (∀ TAG cnt info, (TAG, cnt) ∈ l → cnt ≠ ∅ →
              ordered_tags_map !! TAG = Some info → info_id info = row → col ≠ i) →
           dok_getitem mats'.1 row col = dok_getitem mats.1 row col
           ∧ dok_getitem mats'.2 row col = dok_getitem mats.2 row col).
Proof.
  induction l as [|[TAG cnt] l IH]; intros mats Hi Hs1 Hs2 Hnd Hok.
  - exists mats. split; [done|]. split; [done|]. split; [done|]. split.
    + intros T c info Hin. by apply elem_of_nil in Hin.
    + done.
  - rewrite fmap_cons in Hnd. apply NoDup_cons in Hnd as [Hnotin Hnd].
    cbn [for_each fst] in *.
    assert (∃ mats1, fill_tag ordered_tags_map i mats (TAG, cnt) = Some mats1
              ∧ shape mats1.1 = (rows, cols) ∧ shape mats1.2 = (rows, cols)
              ∧ (cnt ≠ ∅ → ∀ info, ordered_tags_map !! TAG = Some info →
                   dok_getitem mats1.1 (info_id info) i = Py.dict_len cnt
                   ∧ dok_getitem mats1.2 (info_id info) i = Py.sum_values cnt)
              ∧ (∀ row col,
                   (cnt ≠ ∅ → ∀ info, ordered_tags_map !! TAG = Some info →
                      info_id info = row → col ≠ i) →
                   dok_getitem mats1.1 row col = dok_getitem mats.1 row col
                   ∧ dok_getitem mats1.2 row col = dok_getitem mats.2 row col))
      as (mats1 & -> & Hs1' & Hs2' & Hset1 & Hframe1).
    { unfold fill_tag; cbn [fst snd]. case_decide as Hcnt.
      - exists mats. repeat split; try done.
      - destruct (Hok TAG cnt) as ((info & Hinfo & Hid) & Hlen & Hsum);
          [by left|done|].
        rewrite Hinfo; cbn [mbind option_bind].
        assert (0 ≤ Py.dict_len cnt)%Z by (unfold Py.dict_len; lia).
        destruct (dok_setitem_in_range mats.1 rows cols (info_id info) i
                    (Py.dict_len cnt)) as (u & -> & Hus & Hug & Huf);
          [done|done|done|lia|].
        destruct (dok_setitem_in_range mats.2 rows cols (info_id info) i
                    (Py.sum_values cnt)) as (r & -> & Hrs & Hrg & Hrf);
          [done|done|done|lia|].
        cbn [mbind option_bind]. exists (u, r). cbn [fst snd].
        split; [done|]. split; [done|]. split; [done|]. split.
        + intros _ info' [= <-]. done.
        + intros row col Hne.
          assert ((row, col) ≠ (info_id info, i)) as Hpos.
          { intros [= -> ->]. by apply (Hne Hcnt info eq_refl eq_refl). }
          split; [by apply Huf|by apply Hrf]. }
    cbn [mbind option_bind].
    destruct (IH mats1) as (mats' & Hrun & Hs1'' & Hs2'' & Hset & Hframe); try done.
    { intros T c Hin. apply Hok. by right. }
    exists mats'. split; [done|]. split; [done|]. split; [done|]. split.
    + intros T c info [[= -> ->]|Hin]%elem_of_cons Hc Hinfo; [|by eapply Hset].
      destruct (Hframe (info_id info) i) as [-> ->]; [|by apply Hset1].
      intros T' c' info' Hin' Hc' Hinfo' Heq. exfalso. apply Hnotin.
      rewrite (ids _ _ _ _ Hinfo Hinfo') by done.
      apply list_elem_of_fmap. by exists (T', c').
    + intros row col Hne. destruct (Hframe row col) as [-> ->].
      * intros T c info Hin. apply Hne. by right.
      * apply Hframe1. intros Hc info Hinfo. by apply (Hne TAG cnt); [left|..].
Qed.

Lemma for_each_fill_cell (final_results : results) (ics : list (nat * string)) :
  ∀ mats,
    shape mats.1 = (rows, cols) → shape mats.2 = (rows, cols) →
    NoDup ics.*1 →
    (∀ i cell, (i, cell) ∈ ics →
       (Z.of_nat i < cols)%Z ∧ is_Some (final_results !! cell)) →
    (∀ i cell tags TAG cnt, (i, cell) ∈ ics →
       final_results !! cell = Some tags → tags !! TAG = Some cnt → cnt ≠ ∅ →
       (∃ info, ordered_tags_map !! TAG = Some info ∧ (0 ≤ info_id info < rows)%Z)
       ∧ (Py.dict_len cnt < 2 ^ 31)%Z
       ∧ (- 2 ^ 31 ≤ Py.sum_values cnt < 2 ^ 31)%Z) →
    ∃ mats', for_each (fill_cell final_results ordered_tags_map) mats ics = Some mats'
      ∧ shape mats'.1 = (rows, cols) ∧ shape mats'.2 = (rows, cols)
      ∧ (∀ i cell tags TAG cnt info, (i, cell) ∈ ics →
           final_results !! cell = Some tags → tags !! TAG = Some cnt → cnt ≠ ∅ →
           ordered_tags_map !! TAG = Some info →
           dok_getitem mats'.1 (info_id info) (Z.of_nat i) = Py.dict_len cnt
           ∧ dok_getitem mats'.2 (info_id info) (Z.of_nat i) = Py.sum_values cnt)
      ∧ (∀ row col,
           (∀ i cell tags TAG cnt info, (i, cell) ∈ ics →
              final_results !! cell = Some tags → tags !! TAG = Some cnt → cnt ≠ ∅ →
              ordered_tags_map !! TAG = Some info → info_id info = row →
              col ≠ Z.of_nat i) →
           dok_getitem mats'.1 row col = dok_getitem mats.1 row col
           ∧ dok_getitem mats'.2 row col = dok_getitem mats.2 row col).
Proof.
  induction ics as [|[i cell] ics IH]; intros mats Hs1 Hs2 Hnd Hcells Hok.
  - exists mats. split; [done|]. split; [done|]. split; [done|]. split.
    + intros i cell tags T c info Hin. by apply elem_of_nil in Hin.
    + done.
  - rewrite fmap_cons in Hnd. apply NoDup_cons in Hnd as [Hnotin Hnd].
    cbn [fst] in Hnotin.
    destruct (Hcells i cell) as [Hi [tags Htags]]; [by left|].
    cbn [for_each]. unfold fill_cell at 2. cbn [fst snd].
    rewrite Htags. cbn [mbind option_bind].
    destruct (for_each_fill_tag (Z.of_nat i) (map_to_list tags) mats)
      as (mats1 & -> & Hs1' & Hs2' & Hset1 & Hframe1); try done.
    { lia. }
    { apply NoDup_fst_map_to_list. }
    { intros T c Hin%elem_of_map_to_list Hc. by apply (Hok i cell tags); [left|..]. }
    cbn [mbind option_bind].
    destruct (IH mats1) as (mats' & Hrun & Hs1'' & Hs2'' & Hset & Hframe); try done.
    { intros i' cell' Hin. apply Hcells. by right. }
    { intros i' cell' tags' T c Hin. apply (Hok i' cell' tags' T c). by right. }
    exists mats'. split; [done|]. split; [done|]. split; [done|]. split.
    + intros i' cell' tags' T c info [[= -> ->]|Hin]%elem_of_cons Ht HT Hc Hinfo;
        [|by eapply Hset].
      assert (tags' = tags) as -> by congruence.
      destruct (Hframe (info_id info) (Z.of_nat i)) as [-> ->].
      * intros i' cell' tags' T' c' info' Hin _ _ _ _ _ Heq.
        apply Nat2Z.inj in Heq as ->. apply Hnotin.
        apply list_elem_of_fmap. by exists (i', cell').
      * apply (Hset1 T c info); [by apply elem_of_map_to_list|done..].
    + intros row col Hne. destruct (Hframe row col) as [-> ->].
      * intros i' cell' tags' T c info Hin. apply Hne. by right.
      * apply Hframe1. intros T c info Hin%elem_of_map_to_list.
        by apply (Hne i cell tags T c info); [left|..].
Qed.
End sparse.

Lemma elem_of_enumerate {X} (l : list X) (i : nat) (x : X) :
  (i, x) ∈ enumerate l ↔ l !! i = Some x.
Proof.
  unfold enumerate. rewrite elem_of_lookup_imap. split.
  - by intros (j & y & [= -> ->] & Hl).
  - intros Hl. by exists i, x.
Qed.

Lemma NoDup_enumerate {X} (l : list X) : NoDup (enumerate l).*1.
Proof.
  unfold enumerate. rewrite fmap_imap.
  rewrite (imap_ext _ (λ j _, j)) by done.
  rewrite (imap_seq_0 l (λ j, j)), list_fmap_id. apply NoDup_seq.
Qed.

(** C6: sparse-matrix generation.  When no step raises and the values fit
    the matrix type, the two matrices have one row per tag of the map and
    one column per selected cell; for the cell at position i and each of
    its tags with a non-empty UMI counter, the entry at (tag id, i) of the
    UMI matrix is the number of distinct UMIs and that of the read matrix
    is the sum of the UMI counts; and every other entry is zero. *)
Theorem generate_sparse_matrices_entries
    (final_results : results) (ordered_tags_map : gmap string tag_info)
    (top_cells : list string) :
  matrix_inputs final_results ordered_tags_map top_cells →
  ∃ umi_results_matrix read_results_matrix,
    generate_sparse_matrices final_results ordered_tags_map top_cells
      = Some (umi_results_matrix, read_results_matrix)
    ∧ shape umi_results_matrix
      = (Py.dict_len ordered_tags_map, Z.of_nat (length top_cells))
    ∧ shape read_results_matrix
      = (Py.dict_len ordered_tags_map, Z.of_nat (length top_cells))
    ∧ (∀ i row cnt,
         observed final_results ordered_tags_map top_cells i row cnt →
         dok_getitem umi_results_matrix row (Z.of_nat i) = Py.dict_len cnt
         ∧ dok_getitem read_results_matrix row (Z.of_nat i) = Py.sum_values cnt)
    ∧ (∀ row col,
         (∀ i cnt, observed final_results ordered_tags_map top_cells i row cnt →
                   col ≠ Z.of_nat i) →
         dok_getitem umi_results_matrix row col = 0%Z
         ∧ dok_getitem read_results_matrix row col = 0%Z).
Proof.
  intros [Hcells Htags Hids Hfit]. unfold generate_sparse_matrices.
  set (rows := Py.dict_len ordered_tags_map).
  set (cols := Z.of_nat (length top_cells)).
  destruct (for_each_fill_cell ordered_tags_map rows cols Hids final_results
              (enumerate top_cells) (dok_new rows cols, dok_new rows cols))
    as ([umi read] & Hrun & Hs1 & Hs2 & Hset & Hframe); try done.
  - apply NoDup_enumerate.
  - intros i cell Hin%elem_of_enumerate. split.
    + apply lookup_lt_Some in Hin. subst cols. lia.
    + apply Hcells. by eapply list_elem_of_lookup_2.
  - intros i cell tags T c Hin%elem_of_enumerate Ht HT Hc.
    assert (cell ∈ top_cells) as Hcell by (by eapply list_elem_of_lookup_2).
    split; [by eapply Htags|]. by eapply Hfit.
  - exists umi, read. cbn [fst snd] in *. split; [done|]. split; [done|].
    split; [done|]. split.
    + intros i row cnt (cell & tags & T & info & Hi & Ht & HT & Hc & Hinfo & <-).
      apply (Hset i cell tags T cnt info); try done. by apply elem_of_enumerate.
    + intros row col Hne. destruct (Hframe row col) as [-> ->]; [|done].
      intros i cell tags T c info Hin%elem_of_enumerate Ht HT Hc Hinfo Hrow.
      apply (Hne i c). by exists cell, tags, T, info.
Qed.

Definition matrix_example_results : results :=
  {[ "CELL" := {[ "X" := {[ "u1" := 2%Z; "u2" := 3%Z ]} ]} ]}.
Definition matrix_example_tags : gmap string tag_info :=
  {[ "X" := mk_tag_info 0 "ACGT" ]}.

Lemma matrix_example_inputs :
  matrix_inputs matrix_example_results matrix_example_tags ["CELL"].
Proof.
  unfold matrix_example_results, matrix_example_tags. split.
  - intros cell ->%list_elem_of_singleton. rewrite lookup_singleton_eq. by eexists.
  - intros cell tags T c ->%list_elem_of_singleton.
    rewrite lookup_singleton_eq. intros [= <-] [<- _]%lookup_singleton_Some _.
    eexists. split; [apply lookup_singleton_eq|]. by vm_compute.
  - intros T1 T2 i1 i2 [<- _]%lookup_singleton_Some [<- _]%lookup_singleton_Some _.
    done.
  - intros cell tags T c ->%list_elem_of_singleton.
    rewrite lookup_singleton_eq. intros [= <-] [_ <-]%lookup_singleton_Some.
    by vm_compute.
Qed.

(** A tag with UMIs u1:2 and u2:3: the UMI entry is 2 and the read entry
    is 5. *)
Example generate_sparse_matrices_two_umis :
  generate_sparse_matrices matrix_example_results matrix_example_tags ["CELL"]
  = Some (mk_dok (1, 1)%Z {[ (0, 0)%Z := 2%Z ]}, mk_dok (1, 1)%Z {[ (0, 0)%Z := 5%Z ]}).
Proof. by vm_compute. Qed.

Lemma generate_sparse_matrices_entries_witness :
  ∃ umi read,
    generate_sparse_matrices matrix_example_results matrix_example_tags ["CELL"]
      = Some (umi, read)
    ∧ shape umi = (1, 1)%Z ∧ shape read = (1, 1)%Z.
Proof.
  destruct (generate_sparse_matrices_entries _ _ _ matrix_example_inputs)
    as (umi & read & Hrun & Hs1 & Hs2 & _).
  exists umi, read. split; [exact Hrun|]. split; [exact Hs1|exact Hs2].
Defined.

(** ** Unmapped-rate guard *)

Lemma check_unmapped_test no_match total_reads start_trim :
  check_unmapped no_match total_reads start_trim
  = match guard_test (Py.sum_values no_match) total_reads with
    | None => Raises
    | Some true => Exits (unmapped_message start_trim)
    | Some false => Returns
    end.
Proof.
  unfold check_unmapped, guard_test.
  by destruct (int_truediv (Py.sum_values no_match) total_reads).
Qed.

Lemma guard_exact_upto_spec (bound n total : Z) :
  guard_exact_upto bound = true →
  (0 < total < bound)%Z → (0 ≤ n ≤ total)%Z →
  guard_test n total = Some (bool_decide (99 * total < 100 * n)%Z).
Proof.
  intros Hall Ht Hn.
  unfold guard_exact_upto in Hall. rewrite forallb_forall in Hall.
  specialize (Hall total). rewrite forallb_forall in Hall.
  apply (proj1 (bool_decide_eq_true _)), Hall.
  - apply list_elem_of_In, elem_of_seqZ. lia.
  - apply list_elem_of_In, elem_of_seqZ. lia.
Qed.

Lemma guard_exact_129 : guard_exact_upto 129 = true.
Proof. vm_compute. reflexivity. Qed.

(** C5: the unmapped-rate guard.  The call exits, with the message that
    names the read-2 trim start, exactly when the quotient of the unmapped
    total by the read total, computed in binary64 as the code does, is
    greater than the binary64 constant 0.99; for every read total from 1
    to 128 and every unmapped total up to it this is the exact test
    100 * unmapped > 99 * total; with 100 reads, 99 unmapped do not fire
    the guard and 100 unmapped fire it. *)
Theorem check_unmapped_guard (no_match : counter) (total_reads start_trim : Z) :
  let unmapped_count := Py.sum_values no_match in
  let result := check_unmapped no_match total_reads start_trim in
  (result = Exits (unmapped_message start_trim)
   ↔ ∃ ratio, int_truediv unmapped_count total_reads = Some ratio
              ∧ SFltb float_0_99 ratio = true)
  ∧ ((0 < total_reads ≤ 128)%Z → (0 ≤ unmapped_count ≤ total_reads)%Z →
       (result = Exits (unmapped_message start_trim)
        ↔ (99 * total_reads < 100 * unmapped_count)%Z)
       ∧ (result = Returns ↔ (100 * unmapped_count ≤ 99 * total_reads)%Z))
  ∧ (total_reads = 100%Z → unmapped_count = 99%Z → result = Returns)
  ∧ (total_reads = 100%Z → unmapped_count = 100%Z →
       result = Exits (unmapped_message start_trim))
  ∧ unmapped_message start_trim
    = "More than 99 percent of your data is unmapped." +:+ newline
      +:+ "Please check that your --start_trim " +:+ pretty start_trim
      +:+ " parameter is correct and that your tags file is properly formatted".
Proof.
  intros unmapped_count result. subst result.
  assert (∀ n, (0 < total_reads ≤ 128)%Z → (0 ≤ n ≤ total_reads)%Z →
            unmapped_count = n →
            check_unmapped no_match total_reads start_trim
            = if bool_decide (99 * total_reads < 100 * n)%Z
              then Exits (unmapped_message start_trim) else Returns) as Hexact.
  { intros n Ht Hn Heq. rewrite check_unmapped_test. fold unmapped_count.
    rewrite Heq, (guard_exact_upto_spec 129) by (apply guard_exact_129 || lia).
    done. }
  split; [|split; [|split; [|split]]].
  - unfold check_unmapped. fold unmapped_count.
    destruct (int_truediv unmapped_count total_reads) as [ratio|].
    + destruct (SFltb float_0_99 ratio) eqn:Hlt.
      * split; [eauto|done].
      * split; [done|]. intros (r & [= <-] & Hr). congruence.
    + split; [done|]. by intros (r & Hr & _).
  - intros Ht Hn. rewrite (Hexact unmapped_count) by done.
    case_bool_decide; split; split; (done || lia).
  - intros -> Heq. by rewrite (Hexact 99%Z) by (done || lia).
  - intros -> Heq. by rewrite (Hexact 100%Z) by (done || lia).
  - done.
Qed.

Lemma check_unmapped_guard_witness :
  check_unmapped {[ "GGGG" := 60%Z; "TTTT" := 39%Z ]} 100 10 = Returns
  ∧ check_unmapped {[ "GGGG" := 60%Z; "TTTT" := 40%Z ]} 100 10
    = Exits (unmapped_message 10).
Proof.
  split.
  - apply (check_unmapped_guard {[ "GGGG" := 60%Z; "TTTT" := 39%Z ]} 100 10);
      by vm_compute.
  - apply (check_unmapped_guard {[ "GGGG" := 60%Z; "TTTT" := 40%Z ]} 100 10);
      by vm_compute.
Defined.

(** ** Read chunking and disk staging *)

Section staging_facts.
Context (args : arguments) (cwd : string) (R2_max_length : Z)
        (chemistry_def : chemistry) (named_tuples_tags_map : list tag).

Local Abbreviation row_of := (chunk_row R2_max_length chemistry_def).
Local Abbreviation stage_one :=
  (stage_row args cwd R2_max_length chemistry_def named_tuples_tags_map).
Local Abbreviation stage_all :=
  (stage_reads args cwd R2_max_length chemistry_def named_tuples_tags_map).

Lemma rows_written_app tr1 tr2 :
  rows_written (tr1 ++ tr2) = (rows_written tr1 ++ rows_written tr2)%list.
Proof. unfold rows_written. apply omap_app. Qed.

Lemma stage_row_effect st read1 read2 :
  let st' := stage_one st read1 read2 in
  rows_written (trace st') = (rows_written (trace st) ++ [row_of read1 read2])%list
  ∧ total_reads_written st' = (total_reads_written st + 1)%Z
  ∧ R1_too_short st' = R1_too_short st
  ∧ R2_too_short st' = R2_too_short st
  ∧ total_reads st' = total_reads st.
Proof.
  unfold stage_row. cbn.
  destruct (_ =? 0)%Z; cbn; rewrite ?rows_written_app; cbn;
    rewrite ?app_nil_r; done.
Qed.

(** With a cap [n] not yet reached and at least as many valid reads
    left as the cap still allows, the loop over one pair of files stops
    with exactly [n] rows written in total and reports [n]. *)
Lemma stage_reads_cap (n : Z) (secondlines : list (string * string)) :
  first_n args = Some n →
  ∀ st,
    (total_reads_written st < n)%Z →
    (n - total_reads_written st
     ≤ valid_reads R2_max_length chemistry_def secondlines)%Z →
    let st' := stage_all st secondlines in
    total_reads_written st' = n
    ∧ total_reads st' = n
    ∧ length (rows_written (trace st'))
      = (length (rows_written (trace st))
         + Z.to_nat (n - total_reads_written st))%nat.
Proof.
  intros Hcap. unfold valid_reads.
  induction secondlines as [|[read1 read2] rest IH]; intros st Hlt Hvalid.
  - cbn in Hvalid. lia.
  - cbn [stage_reads].
    destruct (Py.len (strip read1) <? umi_barcode_end chemistry_def)%Z eqn:H1.
    { rewrite filter_cons_False in Hvalid
        by (unfold skipped; cbn [fst snd]; by rewrite H1).
      apply (IH (count_R1_too_short st)); done. }
    destruct (Py.len read2 <? R2_max_length)%Z eqn:H2.
    { rewrite filter_cons_False in Hvalid
        by (unfold skipped; cbn [fst snd]; by rewrite H1, H2).
      apply (IH (count_R2_too_short st)); done. }
    rewrite filter_cons_True in Hvalid
      by (unfold skipped; cbn [fst snd]; by rewrite H1, H2).
    cbn [length] in Hvalid.
    pose proof (stage_row_effect st (strip read1) read2) as Heff.
    cbn zeta in Heff. revert Heff.
    generalize (stage_one st (strip read1) read2).
    intros st1 (Hrows & Htotal & _ & _ & Hreported).
    unfold cap_reached. rewrite Hcap. case_bool_decide as Hreached.
    + cbn [report_total total_reads_written total_reads trace].
      rewrite Hrows, length_app. cbn [length]. lia.
    + destruct (IH st1) as (H1' & H2' & H3'); [lia|lia|].
      split; [done|]. split; [done|].
      rewrite H3', Hrows, length_app. cbn [length]. lia.
Qed.
End staging_facts.

Lemma append_cons c s t : String c s +:+ t = String c (s +:+ t).
Proof. reflexivity. Qed.

Lemma append_nil t : "" +:+ t = t.
Proof. reflexivity. Qed.

Lemma length_append s t :
  String.length (s +:+ t) = (String.length s + String.length t)%nat.
Proof.
  induction s as [|c s IH]; [done|]. rewrite append_cons. cbn. by rewrite IH.
Qed.

Lemma append_assoc s t u : (s +:+ t) +:+ u = s +:+ (t +:+ u).
Proof.
  induction s as [|c s IH]; [done|]. rewrite !append_cons. by rewrite IH.
Qed.

(** The slice that starts at [n] and runs to the end of a string that
    ends with [tail] keeps [tail]. *)
Lemma substring_to_end s tail n :
  (n ≤ String.length s)%nat →
  substring n (String.length (s +:+ tail) - n) (s +:+ tail)
  = substring n (String.length s - n) s +:+ tail.
Proof.
  revert n. induction s as [|c s IH]; intros n Hn.
  - cbn in Hn. replace n with 0%nat by lia. rewrite append_nil, Nat.sub_0_r.
    cbn [String.length substring Nat.sub]. rewrite append_nil.
    induction tail as [|c t IHt]; [done|]. cbn. by rewrite IHt.
  - destruct n as [|n].
    + rewrite !Nat.sub_0_r. rewrite append_cons. cbn [String.length substring].
      rewrite append_cons. f_equal.
      specialize (IH 0%nat ltac:(lia)). by rewrite !Nat.sub_0_r in IH.
    + rewrite append_cons. cbn [String.length substring Nat.sub].
      apply IH. cbn in Hn. lia.
Qed.

(** C10: read 2 keeps its line end.  For a read pair whose read 1 is long
    enough and whose read-2 line is R2_max_length - 1 bases followed by
    the newline, the length test sees R2_max_length characters: the pair
    is not counted as too short and its row is written; and when the trim
    start is within the read, the tag read taken by the slice
    [R2_trim_start : R2_trim_start + R2_max_length] ends with that newline,
    which the written row then contains before its own line end. *)
Theorem stage_reads_keeps_read2_newline
    (args : arguments) (cwd : string) (R2_max_length : Z) (chemistry_def : chemistry)
    (named_tuples_tags_map : list tag) (st : staging)
    (read1 bases : string) (rest : list (string * string)) :
  (umi_barcode_end chemistry_def ≤ Py.len (strip read1))%Z →
  Py.len bases = (R2_max_length - 1)%Z →
  let read2 := bases +:+ newline in
  let st' := stage_row args cwd R2_max_length chemistry_def named_tuples_tags_map
               st (strip read1) read2 in
  stage_reads args cwd R2_max_length chemistry_def named_tuples_tags_map st
    ((read1, read2) :: rest)
  = (if cap_reached args st' then report_total st'
     else stage_reads args cwd R2_max_length chemistry_def named_tuples_tags_map
            st' rest)
  ∧ R2_too_short st' = R2_too_short st
  ∧ rows_written (trace st')
    = (rows_written (trace st)
       ++ [chunk_row R2_max_length chemistry_def (strip read1) read2])%list
  ∧ ((0 ≤ R2_trim_start chemistry_def < R2_max_length)%Z →
     ∃ kept,
       Py.slice read2 (R2_trim_start chemistry_def)
                      (R2_max_length + R2_trim_start chemistry_def)
       = kept +:+ newline
       ∧ ∃ fields,
           chunk_row R2_max_length chemistry_def (strip read1) read2
           = fields +:+ "," +:+ (kept +:+ newline) +:+ newline).
Proof.
  intros Hread1 Hbases read2 st'.
  assert (Py.len read2 = R2_max_length) as Hlen2.
  { subst read2. unfold Py.len in *. rewrite length_append. cbn. lia. }
  destruct (stage_row_effect args cwd R2_max_length chemistry_def
              named_tuples_tags_map st (strip read1) read2)
    as (Hrows & _ & _ & Hshort & _).
  split; [|split; [done|split; [done|]]].
  - cbn [stage_reads].
    destruct (Z.ltb_spec (Py.len (strip read1)) (umi_barcode_end chemistry_def));
      [lia|].
    destruct (Z.ltb_spec (Py.len read2) R2_max_length); [lia|]. done.
  - intros Htrim.
    assert (Py.slice read2 (R2_trim_start chemistry_def)
                     (R2_max_length + R2_trim_start chemistry_def)
            = substring (Z.to_nat (R2_trim_start chemistry_def))
                        (String.length bases
                         - Z.to_nat (R2_trim_start chemistry_def)) bases
              +:+ newline) as Hslice.
    { unfold Py.slice, Py.slice_bound. fold (Py.len read2). rewrite Hlen2.
      destruct (Z.ltb_spec (R2_trim_start chemistry_def) 0); [lia|].
      destruct (Z.ltb_spec (R2_max_length + R2_trim_start chemistry_def) 0); [lia|].
      rewrite !Z.min_l, Z.min_r by lia.
      replace (Z.to_nat (R2_max_length - R2_trim_start chemistry_def))
        with (String.length (bases +:+ newline)
              - Z.to_nat (R2_trim_start chemistry_def))%nat.
      - apply substring_to_end. unfold Py.len in Hbases. lia.
      - unfold Py.len in Hlen2. subst read2. lia. }
    eexists. split; [exact Hslice|].
    unfold chunk_row. rewrite Hslice.
    exists (Py.slice
              (Py.slice (strip read1) (cell_barcode_start chemistry_def - 1)
                        (umi_barcode_end chemistry_def))
              (cell_barcode_start chemistry_def - 1)
              (cell_barcode_end chemistry_def)
            +:+ "," +:+
            Py.slice
              (Py.slice (strip read1) (cell_barcode_start chemistry_def - 1)
                        (umi_barcode_end chemistry_def))
              (umi_barcode_start chemistry_def - 1)
              (umi_barcode_end chemistry_def)).
    by rewrite 2!append_assoc.
Qed.

Lemma stage_reads_keeps_read2_newline_witness :
  let st := mk_staging 0 "/tmp/work/temp_0" 0 0 0 0 1 [] [] [Open "/tmp/work/temp_0"] in
  let st' := stage_row (mk_arguments 100 "/tmp/work" false 1 false None) "/home/user"
               4 example_chemistry [] st (strip ("AAAACC" +:+ newline))
               ("ACG" +:+ newline) in
  R2_too_short st' = 0%Z
  ∧ rows_written (trace st')
    = [chunk_row 4 example_chemistry (strip ("AAAACC" +:+ newline))
         ("ACG" +:+ newline)].
Proof.
  intros st st'.
  destruct (stage_reads_keeps_read2_newline
              (mk_arguments 100 "/tmp/work" false 1 false None) "/home/user"
              4 example_chemistry [] st ("AAAACC" +:+ newline) "ACG" [])
    as (_ & Hshort & Hrows & _); [by vm_compute|by vm_compute|].
  split; [exact Hshort|exact Hrows].
Defined.

(** The row written for a read 2 of three bases when four are required:
    the newline of the line is part of the tag read. *)
Example chunk_row_short_read2 :
  chunk_row 4 example_chemistry "AAAACC" ("ACG" +:+ newline)
  = "AAAA,CC,ACG" +:+ newline +:+ newline.
Proof. reflexivity. Qed.

(** With one pair of files, a cap of at least 1 and at least as many
    valid reads as the cap, exactly [first_n] rows are written and
    [first_n] is the reported total. *)
Lemma write_chunks_to_disk_first_n_one_pair
    (args : arguments) (cwd : string) (R2_max_length : Z) (chemistry_def : chemistry)
    (named_tuples_tags_map : list tag) (files : list string * list string)
    (total_reads0 n : Z) :
  first_n args = Some n →
  (0 < n)%Z →
  (n ≤ valid_reads R2_max_length chemistry_def
         (islice_from 1 4 (zip files.1 files.2)))%Z →
  let result := write_chunks_to_disk args cwd R2_max_length chemistry_def
                  named_tuples_tags_map [files] total_reads0 in
  length (rows_written (trace result)) = Z.to_nat n ∧ total_reads result = n.
Proof.
  intros Hcap Hn Hvalid result. subst result.
  unfold write_chunks_to_disk. cbn [foldl]. unfold stage_files.
  cbn [trace total_reads num_chunk total_reads_written].
  match goal with
  | |- context [stage_reads _ _ _ _ _ ?st0 ?l] =>
      destruct (stage_reads_cap args cwd R2_max_length chemistry_def
                  named_tuples_tags_map n l Hcap st0) as (_ & Htotal & Hrows)
  end.
  - cbn. lia.
  - cbn [total_reads_written]. lia.
  - rewrite rows_written_app, length_app, Hrows. cbn. split; [lia|done].
Qed.

(** C7: the cap on written rows.  With [first_n] = 1 and two pairs of
    input files, the first of which alone holds two valid reads, staging
    writes two rows, one from each pair, and reports a total of 2: the
    [break] that follows the test of the cap leaves the loop over the reads
    of one pair of files, and the loop over the pairs goes on. *)
Theorem write_chunks_to_disk_first_n_two_pairs :
  let result := example_run 100 (Some 1%Z) [example_files_1; example_files_2] 3 in
  valid_reads 4 example_chemistry
    (islice_from 1 4 (zip example_files_1.1 example_files_1.2)) = 2%Z
  ∧ rows_written (trace result)
    = ["AAAA,CC,ACGT" +:+ newline; "GGGG,TT,ACGA" +:+ newline]
  ∧ total_reads result = 2%Z.
Proof. by vm_compute. Qed.

(** C9: the names of the chunk files.  With a chunk size of 1 and two
    valid reads, the file opened first is in the temporary directory
    /tmp/work and the two files opened after a rotation are opened under
    the bare names temp_1 and temp_2, that is in the working directory
    /home/user; and with two pairs of files and no rotation, both pairs
    open /tmp/work/temp_0. *)
Theorem write_chunks_to_disk_chunk_file_names :
  let rotated := example_run 1 None [example_files_1] 2 in
  let two_pairs := example_run 100 None [example_files_1; example_files_2] 3 in
  files_opened (trace rotated) = ["/tmp/work/temp_0"; "temp_1"; "temp_2"]
  ∧ temp_files rotated
    = ["/tmp/work/temp_0"; "/home/user/temp_1"; "/home/user/temp_2"]
  ∧ files_opened (trace two_pairs) = ["/tmp/work/temp_0"; "/tmp/work/temp_0"].
Proof. by vm_compute. Qed.


(** * More of the code *)

(** ** Binary64 division of two integers *)

Section binary64.
Local Open Scope Z_scope.

Lemma digits2_pos_spec p :
  2 ^ (Zpos (digits2_pos p) - 1) ≤ Zpos p < 2 ^ Zpos (digits2_pos p).
Proof.
  induction p as [p IH|p IH|]; cbn [digits2_pos].
  - rewrite Pos2Z.inj_succ. replace (Z.succ (Zpos (digits2_pos p)) - 1)
      with (Z.succ (Zpos (digits2_pos p) - 1)) by lia.
    rewrite !Z.pow_succ_r by lia. lia.
  - rewrite Pos2Z.inj_succ. replace (Z.succ (Zpos (digits2_pos p)) - 1)
      with (Z.succ (Zpos (digits2_pos p) - 1)) by lia.
    rewrite !Z.pow_succ_r by lia. lia.
  - cbn. lia.
Qed.

Lemma digits2_pos_unique p k :
  2 ^ (k - 1) ≤ Zpos p < 2 ^ k -> Zpos (digits2_pos p) = k.
Proof.
  intros [Hlo Hhi]. pose proof (digits2_pos_spec p) as [Hlo' Hhi'].
  assert (0 < k) as Hk.
  { destruct (Z.ltb_spec 0 k); [done|]. exfalso.
    destruct (Z.eq_dec k 0) as [->|]; [cbn in Hhi; lia|].
    rewrite Z.pow_neg_r in Hhi by lia. lia. }
  destruct (Z.lt_trichotomy (Zpos (digits2_pos p)) k) as [Hlt|[Heq|Hgt]]; [|done|].
  - assert (2 ^ Zpos (digits2_pos p) ≤ 2 ^ (k - 1)) by (apply Z.pow_le_mono_r; lia). lia.
  - assert (2 ^ k ≤ 2 ^ (Zpos (digits2_pos p) - 1)) by (apply Z.pow_le_mono_r; lia). lia.
Qed.

Lemma new_location_spec b r : 0 ≤ r < b → new_location b r = loc_of r b.
Proof.
  intros Hr. unfold new_location, new_location_even, new_location_odd, loc_of.
  destruct (Z.even b) eqn:Hb; [done|].
  destruct (Z.eqb_spec r 0); [done|]. f_equal.
  assert (Z.odd b = true) as [k Hk]%Z.odd_spec by (by rewrite <- Z.negb_even, Hb).
  destruct (Z.compare_spec (2 * r + 1) b), (Z.compare_spec (2 * r) b); try done; lia.
Qed.

Lemma SFdiv_core_int (pa pb : positive) :
  let d1 := Zpos (digits2_pos pa) in
  let d2 := Zpos (digits2_pos pb) in
  let s := 53 + d2 - d1 in
  d1 ≤ d2 → d2 ≤ 1000 →
  SFdiv_core_binary 53 1024 (Zpos pa) 0 (Zpos pb) 0
  = (Zpos pa * 2 ^ s / Zpos pb, - s, new_location (Zpos pb) (Zpos pa * 2 ^ s mod Zpos pb)).
Proof.
  intros d1 d2 s Hd Hd2. unfold SFdiv_core_binary, fexp, emin, Zdigits2.
  fold d1 d2.
  replace (Z.min (Z.max (d1 + 0 - (d2 + 0) - 53) (3 - 1024 - 53)) (0 - 0)) with (- s)
    by (subst s; lia).
  replace (0 - 0 - - s) with s by lia.
  assert (0 < s) as Hs by (subst s; lia).
  destruct s as [|ps|ps] eqn:Hseq; [lia| |lia].
  rewrite Z.shiftl_mul_pow2 by lia.
  unfold Z.div, Z.modulo.
  by destruct (Z.div_eucl (Zpos pa * 2 ^ Zpos ps) (Zpos pb)).
Qed.

Lemma shr_m_of_loc m l : shr_m (shr_record_of_loc m l) = m.
Proof. by destruct l as [|[]]. Qed.

Lemma loc_of_shr_record_of_loc m l : loc_of_shr_record (shr_record_of_loc m l) = l.
Proof. by destruct l as [|[]]. Qed.

Lemma shr_fexp_keep (p : positive) e l :
  2 ^ 52 ≤ Zpos p < 2 ^ 53 → -1074 ≤ e →
  shr_fexp 53 1024 (Zpos p) e l = (shr_record_of_loc (Zpos p) l, e).
Proof.
  intros Hp He. unfold shr_fexp, fexp, emin, Zdigits2.
  rewrite (digits2_pos_unique p 53) by (cbn; lia).
  replace (Z.max (53 + e - 53) (3 - 1024 - 53) - e) with 0 by lia. done.
Qed.

Lemma shr_fexp_shift (p : positive) e l :
  2 ^ 53 ≤ Zpos p < 2 ^ 54 → -1074 ≤ e →
  shr_fexp 53 1024 (Zpos p) e l = (shr_1 (shr_record_of_loc (Zpos p) l), e + 1).
Proof.
  intros Hp He. unfold shr_fexp, fexp, emin, Zdigits2.
  rewrite (digits2_pos_unique p 54) by (cbn; lia).
  replace (Z.max (54 + e - 53) (3 - 1024 - 53) - e) with 1 by lia. done.
Qed.

Lemma rne_spec q r b :
  0 < b → 0 ≤ r < b →
  let m1 := round_nearest_even q (loc_of r b) in
  q ≤ m1 ≤ q + 1 ∧ (2 * m1 - 1) * b ≤ 2 * (q * b + r) ≤ (2 * m1 + 1) * b.
Proof.
  intros Hb Hr. unfold loc_of. destruct (Z.eqb_spec r 0) as [->|Hne]; cbn.
  - lia.
  - destruct (Z.compare_spec (2 * r) b); cbn; [destruct (Z.even q)|..]; lia.
Qed.

Lemma rne_shift_spec (pq : positive) r b :
  0 < b → 0 ≤ r < b → 2 ≤ Zpos pq →
  let mrs := shr_1 (shr_record_of_loc (Zpos pq) (loc_of r b)) in
  let m1 := round_nearest_even (shr_m mrs) (loc_of_shr_record mrs) in
  Zpos pq - 1 ≤ 2 * m1 ≤ Zpos pq + 2
  ∧ (2 * m1 - 1) * (2 * b) ≤ 2 * (Zpos pq * b + r) ≤ (2 * m1 + 1) * (2 * b).
Proof.
  intros Hb Hr Hq. unfold loc_of.
  destruct pq as [p|p|]; [| |lia];
    (destruct (Z.eqb_spec r 0) as [->|Hne];
     [|destruct (Z.compare_spec (2 * r) b)]);
    cbn [shr_1 shr_record_of_loc shr_m loc_of_shr_record round_nearest_even orb];
    rewrite ?(Pos2Z.inj_xI p), ?(Pos2Z.inj_xO p);
    generalize (Pos2Z.is_pos p); generalize (Zpos p) as h; intros h Hh;
    try destruct (Z.even h); lia.
Qed.

Lemma round_finish (m1 : positive) e :
  2 ^ 52 ≤ Zpos m1 ≤ 2 ^ 53 → -1074 ≤ e ≤ 900 →
  (let '(mrs'', e'') := shr_fexp 53 1024 (Zpos m1) e loc_Exact in
   match shr_m mrs'' with
   | Z0 => S754_zero false
   | Zpos m => if e'' <=? 1024 - 53 then S754_finite false m e'' else S754_infinity false
   | Zneg _ => S754_nan
   end)
  = if Zpos m1 <? 2 ^ 53 then S754_finite false m1 e
    else S754_finite false (Z.to_pos (2 ^ 52)) (e + 1).
Proof.
  intros Hm He. destruct (Z.ltb_spec (Zpos m1) (2 ^ 53)).
  - rewrite shr_fexp_keep by lia. cbn [shr_record_of_loc shr_m].
    destruct (Z.leb_spec e (1024 - 53)); [done|lia].
  - rewrite shr_fexp_shift by lia.
    assert (m1 = Z.to_pos (2 ^ 53)) as -> by lia.
    cbn [shr_record_of_loc]. 
    replace (shr_1 {| shr_m := Zpos (Z.to_pos (2 ^ 53)); shr_r := false; shr_s := false |})
      with {| shr_m := Zpos (Z.to_pos (2 ^ 52)); shr_r := false; shr_s := false |}
      by (by vm_compute).
    cbn [shr_m]. destruct (Z.leb_spec (e + 1) (1024 - 53)); [done|lia].
Qed.

(** The rounded quotient: a mantissa of 53 bits within half a unit of the
    exact value (q + r / b) * 2 ^ e. *)
Lemma binary_round_aux_spec (pq : positive) (e r b : Z) :
  0 < b → 0 ≤ r < b → 2 ^ 52 ≤ Zpos pq < 2 ^ 54 → -1074 ≤ e ≤ 0 →
  ∃ (m : positive) (k : Z),
    binary_round_aux 53 1024 false (Zpos pq) e (loc_of r b) = S754_finite false m (e + k)
    ∧ 0 ≤ k ≤ 2
    ∧ 2 ^ 52 ≤ Zpos m < 2 ^ 53
    ∧ (2 * Zpos m - 1) * 2 ^ k * b ≤ 2 * (Zpos pq * b + r)
      ≤ (2 * Zpos m + 1) * 2 ^ k * b.
Proof.
  intros Hb Hr Hq He. unfold binary_round_aux.
  destruct (Z.ltb_spec (Zpos pq) (2 ^ 53)) as [Hsmall|Hbig].
  - rewrite shr_fexp_keep by lia.
    rewrite shr_m_of_loc, loc_of_shr_record_of_loc.
    destruct (rne_spec (Zpos pq) r b Hb Hr) as [Hm1 Hbounds].
    destruct (round_nearest_even (Zpos pq) (loc_of r b)) as [|m1|m1] eqn:Hrne; [lia| |lia].
    rewrite round_finish by lia.
    destruct (Z.ltb_spec (Zpos m1) (2 ^ 53)).
    + exists m1, 0. rewrite Z.add_0_r. split; [done|]. cbn [Z.pow]. lia.
    + exists (Z.to_pos (2 ^ 52)), 1. split; [done|].
      change (Zpos (Z.to_pos (2 ^ 52))) with (2 ^ 52). change (2 ^ 1) with 2.
      assert (Zpos m1 = 2 ^ 53) as Hm1eq by lia. rewrite Hm1eq in Hbounds.
      assert (Zpos pq = 2 ^ 53 - 1) as Hqeq by lia. rewrite Hqeq in *. lia.
  - rewrite shr_fexp_shift by lia.
    destruct (rne_shift_spec pq r b Hb Hr ltac:(lia)) as [Hm1 Hbounds].
    cbv zeta in Hm1, Hbounds.
    destruct (round_nearest_even _ _) as [|m1|m1] eqn:Hrne; [lia| |lia].
    rewrite round_finish by lia.
    destruct (Z.ltb_spec (Zpos m1) (2 ^ 53)).
    + exists m1, 1. split; [done|]. change (2 ^ 1) with 2. lia.
    + exists (Z.to_pos (2 ^ 52)), 2. rewrite <- Z.add_assoc. split; [done|].
      change (Zpos (Z.to_pos (2 ^ 52))) with (2 ^ 52). change (2 ^ 2) with 4.
      assert (Zpos m1 = 2 ^ 53) as Hm1eq by lia. rewrite Hm1eq in Hbounds. lia.
Qed.

Lemma pow2_pos (n : Z) : 0 ≤ n → 0 < 2 ^ n.
Proof. intros. by apply Z.pow_pos_nonneg. Qed.

(** The quotient of two positive integers [a <= b < 2^47] in binary64: a
    mantissa [m] of 53 bits and an exponent [- E] with [m] within one half
    of [a * 2^E / b]. *)
Lemma SFdiv_int_spec (pa pb : positive) :
  Zpos pa ≤ Zpos pb < 2 ^ 47 →
  ∃ (m : positive) (E : Z),
    SFdiv 53 1024 (S754_finite false pa 0) (S754_finite false pb 0)
    = S754_finite false m (- E)
    ∧ 0 ≤ E
    ∧ 2 ^ 52 ≤ Zpos m < 2 ^ 53
    ∧ (2 * Zpos m - 1) * Zpos pb ≤ 2 * (Zpos pa * 2 ^ E)
      ≤ (2 * Zpos m + 1) * Zpos pb.
Proof.
  intros Hab.
  pose proof (digits2_pos_spec pa) as [Ha1 Ha2].
  pose proof (digits2_pos_spec pb) as [Hb1 Hb2].
  set (d1 := Zpos (digits2_pos pa)) in *. set (d2 := Zpos (digits2_pos pb)) in *.
  assert (0 < d1) as Hd1pos by (subst d1; lia).
  assert (d1 ≤ d2) as Hd.
  { destruct (Z.le_gt_cases d1 d2); [done|].
    assert (2 ^ d2 ≤ 2 ^ (d1 - 1)) by (apply Z.pow_le_mono_r; lia). lia. }
  assert (d2 ≤ 47) as Hd2.
  { destruct (Z.le_gt_cases d2 47); [done|].
    assert (2 ^ 47 ≤ 2 ^ (d2 - 1)) by (apply Z.pow_le_mono_r; lia). lia. }
  set (s := 53 + d2 - d1).
  unfold SFdiv. rewrite SFdiv_core_int by (fold d1 d2; lia). fold d1 d2 s.
  set (N := Zpos pa * 2 ^ s).
  assert (0 < 2 ^ s) as Hs by (apply pow2_pos; subst s; lia).
  pose proof (Z.div_mod N (Zpos pb) ltac:(lia)) as Hdm.
  pose proof (Z.mod_pos_bound N (Zpos pb) ltac:(lia)) as Hr.
  rewrite new_location_spec by done.
  assert (2 ^ s * 2 ^ (d1 - 1) = 2 ^ 53 * 2 ^ (d2 - 1)) as Hpow.
  { rewrite <- !Z.pow_add_r by (subst s; lia). f_equal. subst s. lia. }
  assert (2 ^ d1 = 2 * 2 ^ (d1 - 1)) as Hd1eq.
  { rewrite <- (Z.pow_succ_r 2 (d1 - 1)) by lia. f_equal. lia. }
  assert (2 ^ d2 = 2 * 2 ^ (d2 - 1)) as Hd2eq.
  { rewrite <- (Z.pow_succ_r 2 (d2 - 1)) by lia. f_equal. lia. }
  assert (2 ^ 52 ≤ N / Zpos pb < 2 ^ 54) as Hq.
  { split.
    - apply Z.div_le_lower_bound; [lia|]. subst N.
      assert (2 ^ (d1 - 1) * 2 ^ s ≤ Zpos pa * 2 ^ s)
        by (apply Z.mul_le_mono_nonneg_r; lia).
      lia.
    - apply Z.div_lt_upper_bound; [lia|]. subst N.
      assert (Zpos pa * 2 ^ s < 2 ^ d1 * 2 ^ s)
        by (apply Z.mul_lt_mono_pos_r; lia).
      lia. }
  destruct (N / Zpos pb) as [|pq|pq] eqn:Hquot; [lia| |lia].
  destruct (binary_round_aux_spec pq (- s) (N mod Zpos pb) (Zpos pb))
    as (m & k & Hround & Hk & Hm & Hbounds); [lia|done|done|subst s; lia|].
  cbn [xorb]. rewrite Hround.
  exists m, (s - k). replace (- s + k) with (- (s - k)) by lia.
  split; [done|]. split; [subst s; lia|]. split; [done|].
  assert (2 ^ s = 2 ^ k * 2 ^ (s - k)) as Hsplit.
  { rewrite <- Z.pow_add_r by (subst s; lia). f_equal. lia. }
  assert (0 < 2 ^ k) as Hkpos by (apply pow2_pos; lia).
  assert (Zpos pq * Zpos pb + N mod Zpos pb = N) as HN by lia.
  rewrite HN in Hbounds. subst N. rewrite Hsplit in Hbounds.
  set (X := 2 ^ k) in *. set (Y := 2 ^ (s - k)) in *. clearbody X Y.
  split.
  - apply (Z.mul_le_mono_pos_l _ _ X); [done|]. lia.
  - apply (Z.mul_le_mono_pos_l _ _ X); [done|]. lia.
Qed.

Lemma SFltb_0_99 (m : positive) (E : Z) :
  SFltb float_0_99 (S754_finite false m (- E))
  = match - 53 ?= - E with
    | Lt => true
    | Gt => false
    | Eq => bool_decide (8917127262193582 < Zpos m)
    end.
Proof.
  unfold SFltb, SFcompare, float_0_99.
  destruct (- 53 ?= - E); [|done..].
  rewrite Pos.compare_cont_spec. cbn [Pos.switch_Eq].
  change (8917127262193582%positive ?= m)%positive
    with (Zpos 8917127262193582 ?= Zpos m).
  destruct (Z.compare_spec 8917127262193582 (Zpos m)).
  - by rewrite bool_decide_eq_false_2 by lia.
  - by rewrite bool_decide_eq_true_2 by lia.
  - by rewrite bool_decide_eq_false_2 by lia.
Qed.

(** For a total below 2^47 and an unmapped count up to the total, the
    binary64 test of the guard is the exact test
    [100 * unmapped > 99 * total]. *)
Lemma guard_test_exact_below_2_47 (a b : Z) :
  0 < b < 2 ^ 47 → 0 ≤ a ≤ b →
  guard_test a b = Some (bool_decide (99 * b < 100 * a)).
Proof.
  intros Hb Ha. unfold guard_test, int_truediv.
  destruct (Z.eqb_spec b 0); [lia|].
  destruct b as [|pb|pb]; [lia| |lia]. cbn [float_of_int].
  destruct a as [|pa|pa]; [|  |lia].
  - cbn. by rewrite bool_decide_eq_false_2 by lia.
  - cbn [float_of_int].
    destruct (SFdiv_int_spec pa pb) as (m & E & -> & HE & Hm & Hlo & Hhi); [lia|].
    cbn [fmap option_fmap option_map]. f_equal. rewrite SFltb_0_99.
    assert ((2 ^ 53 - 1) * Zpos pb ≤ (2 * Zpos m - 1) * Zpos pb) as Hm_lo
      by (apply Z.mul_le_mono_nonneg_r; lia).
    assert ((2 * Zpos m + 1) * Zpos pb ≤ (2 ^ 54 - 1) * Zpos pb) as Hm_hi
      by (apply Z.mul_le_mono_nonneg_r; lia).
    destruct (Z.compare_spec (- 53) (- E)) as [Heq|Hlt|Hgt].
    + assert (E = 53) as -> by lia.
      case_bool_decide as Hcmp.
      * assert ((2 * 8917127262193582 + 1) * Zpos pb ≤ (2 * Zpos m - 1) * Zpos pb)
          by (apply Z.mul_le_mono_nonneg_r; lia).
        rewrite bool_decide_eq_true_2; [done|]. lia.
      * assert ((2 * Zpos m + 1) * Zpos pb ≤ (2 * 8917127262193582 + 1) * Zpos pb)
          by (apply Z.mul_le_mono_nonneg_r; lia).
        rewrite bool_decide_eq_false_2; [done|]. lia.
    + assert (2 ^ E ≤ 2 ^ 52) by (apply Z.pow_le_mono_r; lia).
      assert (Zpos pa * 2 ^ E ≤ Zpos pa * 2 ^ 52)
        by (apply Z.mul_le_mono_nonneg_l; lia).
      rewrite bool_decide_eq_true_2; [done|]. lia.
    + assert (2 ^ 54 ≤ 2 ^ E) by (apply Z.pow_le_mono_r; lia).
      assert (Zpos pa * 2 ^ 54 ≤ Zpos pa * 2 ^ E)
        by (apply Z.mul_le_mono_nonneg_l; lia).
      rewrite bool_decide_eq_false_2; [done|]. lia.
Qed.

End binary64.

(** X1: the guard on realistic sizes.  For a read total below 2^47 and an
    unmapped total between 0 and the read total, [check_unmapped] exits
    with its message exactly when 100 * unmapped > 99 * total, and returns
    otherwise: the rounding of the binary64 quotient never moves a ratio
    across the constant 0.99.  With a read total of 0 the division raises. *)
Theorem check_unmapped_exact_threshold
    (no_match : counter) (total_reads start_trim : Z) :
  ((0 < total_reads < 2 ^ 47)%Z →
   (0 ≤ Py.sum_values no_match ≤ total_reads)%Z →
   check_unmapped no_match total_reads start_trim
   = if bool_decide (99 * total_reads < 100 * Py.sum_values no_match)%Z
     then Exits (unmapped_message start_trim) else Returns)
  ∧ check_unmapped no_match 0 start_trim = Raises.
Proof.
  split; [|done].
  intros Ht Hn. rewrite check_unmapped_test.
  by rewrite guard_test_exact_below_2_47 by done.
Qed.

Lemma check_unmapped_exact_threshold_witness :
  check_unmapped {[ "GGGG" := 991%Z; "TTTT" := 4000%Z ]} 5000 10
  = Exits (unmapped_message 10).
Proof.
  rewrite (proj1 (check_unmapped_exact_threshold
                    {[ "GGGG" := 991%Z; "TTTT" := 4000%Z ]} 5000 10))
    by (by vm_compute).
  by vm_compute.
Defined.

(** ** Sliding-window matching *)

Lemma prefix_true_iff needle hay :
  String.prefix needle hay = true ↔ ∃ rest, hay = needle +:+ rest.
Proof.
  revert hay. induction needle as [|c needle IH]; intros hay.
  - split; [|intros _; by destruct hay]. intros _. by exists hay.
  - destruct hay as [|d hay]; cbn [String.prefix].
    + split; [done|]. intros [rest Hrest]. by rewrite append_cons in Hrest.
    + destruct (ascii_dec c d) as [->|Hne].
      * rewrite IH. split.
        -- intros [rest ->]. by exists rest.
        -- intros [rest Hrest]. rewrite append_cons in Hrest.
           injection Hrest as ->. by exists rest.
      * split; [done|]. intros [rest Hrest]. rewrite append_cons in Hrest.
        by injection Hrest as ->.
Qed.

Lemma contains_true_iff needle hay :
  contains needle hay = true ↔ occurs_in needle hay.
Proof.
  unfold occurs_in. induction hay as [|d hay IH].
  - cbn [contains]. rewrite orb_false_r, prefix_true_iff. split.
    + intros [rest Hrest]. by exists "", rest.
    + intros ([|c before] & after & Heq).
      * by exists after.
      * by rewrite append_cons in Heq.
  - cbn [contains]. rewrite orb_true_iff, prefix_true_iff, IH. split.
    + intros [[rest Hrest]|(before & after & ->)].
      * by exists "", rest.
      * by exists (String d before), after.
    + intros ([|c before] & after & Heq).
      * left. by exists after.
      * right. rewrite append_cons in Heq. injection Heq as -> ->.
        by exists before, after.
Qed.

Lemma find_best_match_shift_loop_skip TAG_seq pre rest best_match :
  Forall (λ u, ¬ occurs_in (sequence u) TAG_seq) pre →
  find_best_match_shift_loop TAG_seq (pre ++ rest) best_match
  = find_best_match_shift_loop TAG_seq rest best_match.
Proof.
  induction 1 as [|u pre Hu _ IH]; [done|]. cbn [app find_best_match_shift_loop].
  destruct (contains (sequence u) TAG_seq) eqn:Hc; [|done].
  by apply contains_true_iff in Hc.
Qed.

(** The tag CGT occurs in AACGTAA; GGG does not. *)
Example find_best_match_shift_window :
  find_best_match_shift "AACGTAA" [mk_tag "t1" "GGG" 0; mk_tag "t2" "CGT" 1] = "t2"
  ∧ find_best_match_shift "AACGTAA" [mk_tag "t1" "GGG" 0] = "unmapped".
Proof. done. Qed.

(** X2: sliding-window matching returns the name of the first tag of the
    panel whose sequence occurs in the read at any offset, whatever tags
    follow it, and "unmapped" when no tag occurs in the read; it never
    raises, also on a read shorter than the tags. *)
Theorem find_best_match_shift_first_occurrence (TAG_seq : string) :
  (∀ pre t post,
     Forall (λ u, ¬ occurs_in (sequence u) TAG_seq) pre →
     occurs_in (sequence t) TAG_seq →
     find_best_match_shift TAG_seq (pre ++ t :: post) = name t)
  ∧ (∀ tags,
     Forall (λ u, ¬ occurs_in (sequence u) TAG_seq) tags →
     find_best_match_shift TAG_seq tags = unmapped).
Proof.
  unfold find_best_match_shift. split.
  - intros pre t post Hpre Ht. rewrite find_best_match_shift_loop_skip by done.
    cbn [find_best_match_shift_loop].
    apply contains_true_iff in Ht. by rewrite Ht.
  - intros tags Hall.
    by rewrite <- (app_nil_r tags), find_best_match_shift_loop_skip.
Qed.

Lemma find_best_match_shift_first_occurrence_witness :
  find_best_match_shift "AACGTAA"
    ([mk_tag "t1" "GGG" 0] ++ mk_tag "t2" "CGT" 1 :: [mk_tag "t3" "AA" 2])
  = "t2".
Proof.
  apply (proj1 (find_best_match_shift_first_occurrence "AACGTAA")
           [mk_tag "t1" "GGG" 0] (mk_tag "t2" "CGT" 1) [mk_tag "t3" "AA" 2]).
  - constructor; [|constructor]. intros Hocc%contains_true_iff. done.
  - by exists "AA", "AA".
Defined.

(** ** Sums over dictionaries *)

Section map_sum.
Context {V : Type} (h : V → Z).
Implicit Types m : gmap string V.

Lemma map_sum_empty : map_sum h (∅ : gmap string V) = 0%Z.
Proof. unfold map_sum. by rewrite map_to_list_empty. Qed.

Lemma map_sum_insert_None m k v :
  m !! k = None → map_sum h (<[k := v]> m) = (h v + map_sum h m)%Z.
Proof.
  intros Hk. unfold map_sum.
  by rewrite (sum_perm _ _ (fmap_Permutation _ _ _ (map_to_list_insert m k v Hk))).
Qed.

Lemma map_sum_delete m k v :
  m !! k = Some v → map_sum h m = (h v + map_sum h (delete k m))%Z.
Proof.
  intros Hk. rewrite <- (insert_id m k v Hk) at 1.
  rewrite <- insert_delete_eq. apply map_sum_insert_None, lookup_delete_eq.
Qed.

Lemma map_sum_insert m k v :
  map_sum h (<[k := v]> m)
  = (h v + map_sum h m - from_option h 0 (m !! k))%Z.
Proof.
  destruct (m !! k) as [old|] eqn:Hk; cbn.
  - rewrite (map_sum_delete m k old Hk), <- insert_delete_eq.
    rewrite map_sum_insert_None by apply lookup_delete_eq. lia.
  - rewrite map_sum_insert_None by done. lia.
Qed.

Lemma map_sum_singleton k v : map_sum h ({[k := v]} : gmap string V) = h v.
Proof.
  rewrite <- insert_empty, map_sum_insert_None by apply lookup_empty.
  rewrite map_sum_empty. lia.
Qed.

Lemma map_sum_union_with (f : V → V → V) (a b : gmap string V) :
  (∀ x y, h (f x y) = (h x + h y)%Z) →
  map_sum h (union_with (λ x y, Some (f x y)) a b) = (map_sum h a + map_sum h b)%Z.
Proof.
  intros Hf. induction b as [|k v b Hk IH] using map_ind.
  - rewrite (right_id ∅ _), map_sum_empty. lia.
  - assert (union_with (λ x y, Some (f x y)) a (<[k := v]> b)
            = <[k := from_option (λ x, f x v) v (a !! k)]>
                (union_with (λ x y, Some (f x y)) a b)) as ->.
    { apply map_eq. intros j. rewrite lookup_union_with.
      destruct (decide (k = j)) as [->|Hne].
      - rewrite !lookup_insert_eq. by destruct (a !! j).
      - rewrite !lookup_insert_ne by done. by rewrite lookup_union_with. }
    rewrite map_sum_insert, IH, map_sum_insert_None by done.
    rewrite lookup_union_with, Hk.
    destruct (a !! k) as [x|]; cbn; rewrite ?Hf; lia.
Qed.

Lemma map_sum_nonneg m :
  (∀ k v, m !! k = Some v → (0 ≤ h v)%Z) → (0 ≤ map_sum h m)%Z.
Proof.
  induction m as [|k v m Hk IH] using map_ind; intros Hpos.
  - by rewrite map_sum_empty.
  - rewrite map_sum_insert_None by done.
    assert (0 ≤ h v)%Z by (apply (Hpos k); by rewrite lookup_insert_eq).
    assert (0 ≤ map_sum h m)%Z; [|lia].
    apply IH. intros j w Hj. apply (Hpos j).
    rewrite lookup_insert_ne; [done|]. intros ->. congruence.
Qed.
End map_sum.

Lemma sum_values_map_sum (c : counter) : Py.sum_values c = map_sum (λ z, z) c.
Proof. done. Qed.

Lemma read_total_map_sum (tags : tag_counts) :
  read_total tags = map_sum Py.sum_values tags.
Proof. done. Qed.

Lemma sum_values_update (a b : counter) :
  Py.sum_values (Py.counter_update a b) = (Py.sum_values a + Py.sum_values b)%Z.
Proof.
  rewrite !sum_values_map_sum. by apply (map_sum_union_with (λ z, z) Z.add).
Qed.

Lemma read_total_plus (a b : tag_counts) :
  read_total (tag_counts_plus a b) = (read_total a + read_total b)%Z.
Proof.
  rewrite !read_total_map_sum.
  apply (map_sum_union_with Py.sum_values Py.counter_update), sum_values_update.
Qed.

Lemma all_reads_plus (a b : results) :
  all_reads (results_plus a b) = (all_reads a + all_reads b)%Z.
Proof. apply (map_sum_union_with read_total tag_counts_plus), read_total_plus. Qed.

Lemma tags_of_plus (a b : results) cb :
  tags_of (results_plus a b) cb = tag_counts_plus (tags_of a cb) (tags_of b cb).
Proof.
  unfold tags_of, results_plus. rewrite lookup_union_with.
  destruct (a !! cb), (b !! cb); cbn; try done.
  - by rewrite tag_counts_plus_empty_r.
  - by rewrite tag_counts_plus_comm, tag_counts_plus_empty_r.
Qed.

Lemma cell_reads_plus (a b : results) cb :
  cell_reads (results_plus a b) cb = (cell_reads a cb + cell_reads b cb)%Z.
Proof. unfold cell_reads. by rewrite tags_of_plus, read_total_plus. Qed.

(** ** Mapping the reads of a chunk *)

Lemma results_plus_empty_l (r : results) : results_plus ∅ r = r.
Proof. unfold results_plus. by rewrite (left_id ∅ _). Qed.

Lemma results_plus_empty_r (r : results) : results_plus r ∅ = r.
Proof. unfold results_plus. by rewrite (right_id ∅ _). Qed.

Lemma chunk_plus_empty_r st : chunk_plus st (∅, ∅) = st.
Proof.
  destruct st as [r nm]. unfold chunk_plus; cbn.
  by rewrite results_plus_empty_r, counter_update_empty_r.
Qed.

Lemma chunk_plus_empty_l st : chunk_plus (∅, ∅) st = st.
Proof.
  destruct st as [r nm]. unfold chunk_plus; cbn.
  by rewrite results_plus_empty_l, counter_update_empty_l.
Qed.

Lemma chunk_plus_assoc a b c :
  chunk_plus a (chunk_plus b c) = chunk_plus (chunk_plus a b) c.
Proof.
  unfold chunk_plus; cbn. by rewrite results_plus_assoc, counter_update_assoc.
Qed.
Lemma results_plus_singleton_new (r : results) cb (tags : tag_counts) :
  r !! cb = None → results_plus {[cb := tags]} r = <[cb := tags]> r.
Proof.
  intros Hr. rewrite results_plus_comm. unfold results_plus.
  rewrite (union_with_total_singleton tag_counts_plus). by rewrite Hr.
Qed.

Lemma results_plus_ensured (r : results) cb (tags : tag_counts) :
  r !! cb = None →
  results_plus (<[cb := ∅]> r) {[cb := tags]} = results_plus r {[cb := tags]}.
Proof.
  intros Hr. unfold results_plus.
  rewrite !(union_with_total_singleton tag_counts_plus).
  rewrite lookup_insert_eq, Hr, insert_insert_eq; cbn.
  f_equal. rewrite tag_counts_plus_comm. apply tag_counts_plus_empty_r.
Qed.

Lemma map_read_plus tags maximum_distance sliding_window st read :
  map_read tags maximum_distance sliding_window st read
  = chunk_plus st <$> row_contribution tags maximum_distance sliding_window read.
Proof.
  unfold map_read, row_contribution, best_match_of.
  destruct (read !! 0%nat) as [cb|]; cbn; [|done].
  destruct (read !! 1%nat ≫= bytes_ascii) as [UMI|]; cbn; [|done].
  destruct (read !! 2%nat) as [read2|]; cbn; [|done].
  destruct (if sliding_window then _ else _) as [bm|]; cbn; [|done].
  unfold chunk_plus, row_results, row_no_match; cbn. f_equal. f_equal.
  - rewrite nested_incr_plus.
    destruct (st.1 !! cb) eqn:Hcb; [done|]. by apply results_plus_ensured.
  - case_decide.
    + apply counter_incr_update.
    + by rewrite counter_update_empty_r.
Qed.

Lemma for_each_map_read tags maximum_distance sliding_window st reads :
  for_each (map_read tags maximum_distance sliding_window) st reads
  = chunk_plus st <$> map_reads reads tags maximum_distance sliding_window.
Proof.
  unfold map_reads. revert st.
  induction reads as [|read reads IH]; intros st; cbn.
  - by rewrite chunk_plus_empty_r.
  - rewrite !map_read_plus.
    destruct (row_contribution _ _ _ read) as [c|]; cbn; [|done].
    rewrite (IH (chunk_plus st c)), (IH (chunk_plus (∅, ∅) c)).
    destruct (for_each _ (∅, ∅) reads) as [o|]; cbn; [|done].
    by rewrite chunk_plus_empty_l, chunk_plus_assoc.
Qed.

Lemma map_reads_cons read reads tags maximum_distance sliding_window :
  map_reads (read :: reads) tags maximum_distance sliding_window
  = c ← row_contribution tags maximum_distance sliding_window read;
    o ← map_reads reads tags maximum_distance sliding_window;
    Some (chunk_plus c o).
Proof.
  unfold map_reads at 1. cbn. rewrite map_read_plus.
  destruct (row_contribution _ _ _ read) as [c|]; cbn; [|done].
  by rewrite for_each_map_read, chunk_plus_empty_l.
Qed.

Lemma map_reads_app l1 l2 tags maximum_distance sliding_window :
  map_reads (l1 ++ l2) tags maximum_distance sliding_window
  = a ← map_reads l1 tags maximum_distance sliding_window;
    b ← map_reads l2 tags maximum_distance sliding_window;
    Some (chunk_plus a b).
Proof.
  induction l1 as [|read l1 IH]; cbn [app].
  - change (map_reads [] tags maximum_distance sliding_window) with (Some ((∅, ∅) : results * counter)).
    cbn. destruct (map_reads l2 _ _ _) as [b|]; cbn; [|done].
    by rewrite chunk_plus_empty_l.
  - rewrite !map_reads_cons, IH.
    destruct (row_contribution _ _ _ read) as [c|]; cbn; [|done].
    destruct (map_reads l1 _ _ _) as [a|]; cbn; [|done].
    destruct (map_reads l2 _ _ _) as [b|]; cbn; [|done].
    by rewrite chunk_plus_assoc.
Qed.
Lemma sum_values_empty : Py.sum_values (∅ : counter) = 0%Z.
Proof. rewrite sum_values_map_sum. apply map_sum_empty. Qed.

Lemma sum_values_singleton k n : Py.sum_values ({[k := n]} : counter) = n.
Proof. rewrite sum_values_map_sum. apply (map_sum_singleton (λ z, z)). Qed.

Lemma unmapped_reads_plus (a b : results) :
  unmapped_reads (results_plus a b) = (unmapped_reads a + unmapped_reads b)%Z.
Proof.
  apply (map_sum_union_with _ tag_counts_plus). intros x y.
  unfold tag_counts_plus. rewrite lookup_union_with.
  destruct (x !! unmapped), (y !! unmapped); cbn;
    rewrite ?sum_values_update, ?sum_values_empty; lia.
Qed.

Lemma all_reads_row cb bm UMI : all_reads (row_results cb bm UMI) = 1%Z.
Proof.
  unfold row_results.
  rewrite (map_sum_singleton read_total), read_total_map_sum.
  rewrite (map_sum_singleton Py.sum_values). apply sum_values_singleton.
Qed.

Lemma cell_reads_single cb TAG UMI n cb' :
  cell_reads {[cb := {[TAG := {[UMI := n]}]}]} cb' = if decide (cb = cb') then n else 0%Z.
Proof.
  unfold cell_reads, tags_of. case_decide as Hcb.
  - subst. rewrite lookup_singleton_eq; cbn.
    rewrite read_total_map_sum, (map_sum_singleton Py.sum_values).
    apply sum_values_singleton.
  - rewrite lookup_singleton_ne by done. cbn.
    rewrite read_total_map_sum. apply map_sum_empty.
Qed.

Lemma cell_reads_row cb bm UMI cb' :
  cell_reads (row_results cb bm UMI) cb' = if decide (cb = cb') then 1%Z else 0%Z.
Proof. apply cell_reads_single. Qed.

Lemma unmapped_reads_row cb bm UMI read2 :
  unmapped_reads (row_results cb bm UMI) = Py.sum_values (row_no_match bm read2).
Proof.
  unfold unmapped_reads, row_results, row_no_match.
  rewrite map_sum_singleton. case_decide as Hbm.
  - subst. rewrite lookup_singleton_eq; cbn. by rewrite !sum_values_singleton.
  - rewrite lookup_singleton_ne by done. done.
Qed.

Lemma no_empty_counter_empty : no_empty_counter ∅.
Proof. intros cb tags TAG cnt Hcb. by rewrite lookup_empty in Hcb. Qed.

Lemma no_empty_counter_row cb bm UMI : no_empty_counter (row_results cb bm UMI).
Proof.
  unfold row_results.
  intros cb' tags TAG cnt [<- <-]%lookup_singleton_Some [<- <-]%lookup_singleton_Some.
  apply insert_non_empty.
Qed.

Lemma counter_update_non_empty (a b : counter) :
  a ≠ ∅ ∨ b ≠ ∅ → Py.counter_update a b ≠ ∅.
Proof.
  intros Hab Hempty.
  assert (∀ k, a !! k = None ∧ b !! k = None) as Hnone.
  { intros k. assert (Py.counter_update a b !! k = None) as Hk
      by (by rewrite Hempty, lookup_empty).
    unfold Py.counter_update in Hk. rewrite lookup_union_with in Hk.
    by destruct (a !! k), (b !! k). }
  destruct Hab as [Ha|Hb]; [apply Ha|apply Hb];
    apply map_empty; intros k; apply Hnone.
Qed.

Lemma no_empty_counter_plus (a b : results) :
  no_empty_counter a → no_empty_counter b → no_empty_counter (results_plus a b).
Proof.
  intros Ha Hb cb tags TAG cnt Hcb HTAG.
  unfold results_plus in Hcb. rewrite lookup_union_with in Hcb.
  destruct (a !! cb) as [ta|] eqn:Hta, (b !! cb) as [tb|] eqn:Htb;
    cbn in Hcb; simplify_eq; eauto.
  unfold tag_counts_plus in HTAG. rewrite lookup_union_with in HTAG.
  destruct (ta !! TAG) as [ca|] eqn:Hca, (tb !! TAG) as [cb'|] eqn:Hcb';
    cbn in HTAG; simplify_eq; eauto.
  apply counter_update_non_empty. left. eauto.
Qed.

Lemma rows_of_cell_cons cb read reads :
  rows_of_cell cb (read :: reads)
  = if decide (read !! 0%nat = Some cb) then read :: rows_of_cell cb reads
    else rows_of_cell cb reads.
Proof. done. Qed.

(** X3: what [map_reads] counts.  When it returns, every row of the chunk
    is counted exactly once: the counts of the results add up to the
    number of rows, those of one cell barcode to the number of rows that
    start with it, the unmapped tally adds up to the number of reads
    counted under the tag ["unmapped"], and no counter of the results is
    empty. *)
Theorem map_reads_counts_every_row (reads : list (list string)) (tags : list tag)
    (maximum_distance : Z) (sliding_window : bool) (r : results) (no_match : counter) :
  map_reads reads tags maximum_distance sliding_window = Some (r, no_match) →
  all_reads r = Z.of_nat (length reads)
  ∧ (∀ cb, cell_reads r cb = Z.of_nat (length (rows_of_cell cb reads)))
  ∧ Py.sum_values no_match = unmapped_reads r
  ∧ no_empty_counter r.
Proof.
  revert r no_match. induction reads as [|read reads IH]; intros r no_match.
  - intros [= <- <-]. split_and!.
    + done.
    + intros cb. unfold cell_reads, tags_of. rewrite lookup_empty; cbn.
      rewrite read_total_map_sum. apply map_sum_empty.
    + by rewrite sum_values_empty.
    + apply no_empty_counter_empty.
  - rewrite map_reads_cons. intros Hm.
    destruct (row_contribution _ _ _ read) as [c|] eqn:Hc; cbn in Hm; [|done].
    destruct (map_reads reads _ _ _) as [[r' nm']|]; cbn in Hm; [|done].
    injection Hm as <- <-. destruct (IH r' nm' eq_refl) as (Hall & Hcell & Hun & Hclean).
    unfold row_contribution in Hc.
    destruct (read !! 0%nat) as [cb0|] eqn:Hcb0; cbn in Hc; [|done].
    destruct (read !! 1%nat ≫= bytes_ascii) as [UMI|]; cbn in Hc; [|done].
    destruct (read !! 2%nat) as [read2|]; cbn in Hc; [|done].
    destruct (best_match_of _ _ _ _) as [bm|]; cbn in Hc; [|done].
    injection Hc as <-. cbn [fst snd]. split_and!.
    + rewrite all_reads_plus, all_reads_row, Hall. cbn [length]. lia.
    + intros cb. rewrite cell_reads_plus, cell_reads_row, Hcell.
      rewrite rows_of_cell_cons, Hcb0. case_decide as Hd.
      * subst. rewrite decide_True by done. cbn [length]. lia.
      * rewrite decide_False by congruence. lia.
    + rewrite sum_values_update, unmapped_reads_plus, Hun.
      by rewrite (unmapped_reads_row _ _ _ read2).
    + apply no_empty_counter_plus; [apply no_empty_counter_row|done].
Qed.

Lemma map_reads_counts_every_row_witness :
  ∃ r no_match,
    map_reads (concat mapping_example_chunks) mapping_example_tags 1 false
      = Some (r, no_match)
    ∧ all_reads r = 3%Z ∧ Py.sum_values no_match = unmapped_reads r.
Proof.
  assert (is_Some (map_reads (concat mapping_example_chunks) mapping_example_tags
                     1 false)) as [[r no_match] Hrun]
    by (apply (bool_decide_unpack _); by vm_compute).
  exists r, no_match.
  destruct (map_reads_counts_every_row _ _ _ _ _ _ Hrun) as (Hall & _ & Hun & _).
  split; [exact Hrun|]. split; [exact Hall|exact Hun].
Defined.

(** ** Merging the outputs of [map_reads] *)

Lemma foldl_unchanged {A B X} (f : A → X → A) (g : A → B) (l : list X) a :
  (∀ a x, g (f a x) = g a) → g (foldl f a l) = g a.
Proof.
  intros Hf. revert a. induction l as [|x l IH]; intros a; cbn; [done|].
  by rewrite IH, Hf.
Qed.

Lemma merge_cell_no_match st ct :
  merged_no_match (merge_cell st ct) = merged_no_match st.
Proof.
  unfold merge_cell. rewrite foldl_unchanged.
  - unfold ensure_cell. by destruct (merged_results st !! ct.1).
  - intros a tc. unfold merge_tag. case_decide; [done|].
    by apply foldl_unchanged.
Qed.

Lemma results_plus_singletons cb (a b : tag_counts) :
  results_plus {[cb := a]} {[cb := b]} = {[cb := tag_counts_plus a b]}.
Proof.
  unfold results_plus. rewrite (union_with_total_singleton tag_counts_plus).
  by rewrite lookup_singleton_eq, insert_singleton_eq.
Qed.

Lemma tag_counts_plus_singletons TAG (a b : counter) :
  tag_counts_plus {[TAG := a]} {[TAG := b]} = {[TAG := Py.counter_update a b]}.
Proof.
  rewrite tag_counts_plus_singleton.
  by rewrite lookup_singleton_eq, insert_singleton_eq.
Qed.

Lemma counter_update_insert (m : counter) k n :
  m !! k = None → Py.counter_update {[k := n]} m = <[k := n]> m.
Proof.
  intros Hk. rewrite counter_update_comm. unfold Py.counter_update.
  rewrite (union_with_total_singleton Z.add). by rewrite Hk.
Qed.

Lemma merge_umi_fold_results cb TAG cnt0 (cnt : counter) :
  merged_results (foldl (merge_umi cb TAG cnt0) merged_empty (map_to_list cnt))
  = if decide (cnt = ∅) then ∅ else {[cb := {[TAG := cnt]}]}.
Proof.
  induction cnt as [|UMI n cnt HUMI IH] using map_ind.
  - by rewrite map_to_list_empty, decide_True.
  - rewrite (foldl_additive_perm _ _ _ (merge_umi_additive cb TAG cnt0)
               (map_to_list_insert cnt UMI n HUMI)).
    cbn [foldl]. rewrite foldl_additive by apply merge_umi_additive.
    cbn [merged_results merged_plus merge_umi merged_empty fst snd].
    rewrite IH, nested_incr_plus, results_plus_empty_l.
    rewrite (decide_False (P := <[UMI := n]> cnt = ∅)) by apply insert_non_empty.
    case_decide as Hc.
    + subst. by rewrite results_plus_empty_r, insert_empty.
    + rewrite results_plus_singletons, tag_counts_plus_singletons.
      by rewrite counter_update_insert.
Qed.

Lemma merge_tag_fold_results cb (tags : tag_counts) :
  (∀ TAG cnt, tags !! TAG = Some cnt → cnt ≠ ∅) →
  merged_results (foldl (merge_tag cb) merged_empty (map_to_list tags))
  = if decide (tags = ∅) then ∅ else {[cb := tags]}.
Proof.
  induction tags as [|TAG cnt tags HTAG IH] using map_ind; intros Hclean.
  - by rewrite map_to_list_empty, decide_True.
  - rewrite (foldl_additive_perm _ _ _ (merge_tag_additive cb)
               (map_to_list_insert tags TAG cnt HTAG)).
    cbn [foldl]. rewrite foldl_additive by apply merge_tag_additive.
    cbn [merged_results merged_plus].
    rewrite IH.
    2:{ intros T c HT. apply (Hclean T). rewrite lookup_insert_ne; [done|].
        intros ->. congruence. }
    assert (cnt ≠ ∅) as Hcnt by (apply (Hclean TAG); by rewrite lookup_insert_eq).
    unfold merge_tag at 1. cbn [fst snd]. rewrite decide_False by done.
    rewrite merge_umi_fold_results, decide_False by done.
    rewrite (decide_False (P := <[TAG := cnt]> tags = ∅)) by apply insert_non_empty.
    case_decide as Ht.
    + subst. by rewrite results_plus_empty_r, insert_empty.
    + by rewrite results_plus_singletons, tag_counts_plus_insert.
Qed.

Lemma merge_cell_results cb (tags : tag_counts) :
  (∀ TAG cnt, tags !! TAG = Some cnt → cnt ≠ ∅) →
  merged_results (merge_cell merged_empty (cb, tags)) = {[cb := tags]}.
Proof.
  intros Hclean. unfold merge_cell. cbn [fst snd].
  rewrite foldl_additive by apply merge_tag_additive.
  cbn [merged_results merged_plus]. rewrite merge_tag_fold_results by done.
  unfold ensure_cell. cbn. rewrite lookup_empty. cbn. rewrite insert_empty.
  case_decide as Ht.
  - subst. by rewrite results_plus_empty_r.
  - rewrite results_plus_singletons. f_equal.
    rewrite tag_counts_plus_comm. apply tag_counts_plus_empty_r.
Qed.

Lemma merge_cells_results (r : results) :
  no_empty_counter r →
  merged_results (foldl merge_cell merged_empty (map_to_list r)) = r.
Proof.
  induction r as [|cb tags r Hcb IH] using map_ind; intros Hclean.
  - by rewrite map_to_list_empty.
  - rewrite (foldl_additive_perm _ _ _ merge_cell_additive
               (map_to_list_insert r cb tags Hcb)).
    cbn [foldl]. rewrite foldl_additive by apply merge_cell_additive.
    cbn [merged_results merged_plus]. rewrite IH.
    2:{ intros c t T n Hc. apply (Hclean c). rewrite lookup_insert_ne; [done|].
        intros ->. congruence. }
    rewrite merge_cell_results.
    2:{ intros T c. apply (Hclean cb). by rewrite lookup_insert_eq. }
    by apply results_plus_singleton_new.
Qed.

Lemma merge_chunk_clean st (chunk : results * counter) :
  no_empty_counter chunk.1 →
  merged_results (merge_chunk st chunk) = results_plus (merged_results st) chunk.1
  ∧ merged_no_match (merge_chunk st chunk)
    = Py.counter_update (merged_no_match st) chunk.2.
Proof.
  intros Hclean. rewrite merge_chunk_additive.
  unfold merge_chunk. cbn [merged_results merged_no_match merged_plus fst snd].
  rewrite merge_cells_results by done.
  rewrite (foldl_unchanged _ merged_no_match) by apply merge_cell_no_match.
  cbn. by rewrite counter_update_empty_l.
Qed.

Lemma map_reads_clean reads tags maximum_distance sliding_window out :
  map_reads reads tags maximum_distance sliding_window = Some out →
  no_empty_counter out.1.
Proof.
  revert out. induction reads as [|read reads IH]; intros out.
  - intros [= <-]. apply no_empty_counter_empty.
  - rewrite map_reads_cons. intros Hm.
    destruct (row_contribution _ _ _ read) as [c|] eqn:Hc; cbn in Hm; [|done].
    destruct (map_reads reads _ _ _) as [o|]; cbn in Hm; [|done].
    injection Hm as <-. cbn. apply no_empty_counter_plus; [|by apply IH].
    unfold row_contribution in Hc.
    destruct (read !! 0%nat) as [cb0|]; cbn in Hc; [|done].
    destruct (read !! 1%nat ≫= bytes_ascii) as [UMI|]; cbn in Hc; [|done].
    destruct (read !! 2%nat) as [read2|]; cbn in Hc; [|done].
    destruct (best_match_of _ _ _ _) as [bm|]; cbn in Hc; [|done].
    injection Hc as <-. apply no_empty_counter_row.
Qed.

(** X4: splitting a run into chunks does not change what is counted.
    When [map_reads] returns on every chunk, merging its outputs gives
    the results and the unmapped tally that [map_reads] returns on all
    the rows in one piece. *)
Theorem merge_results_of_map_reads (chunks : list (list (list string)))
    (tags : list tag) (maximum_distance : Z) (sliding_window : bool)
    (outputs : list (results * counter)) :
  Forall2 (λ rows out, map_reads rows tags maximum_distance sliding_window = Some out)
          chunks outputs →
  map_reads (concat chunks) tags maximum_distance sliding_window
  = Some (merged_results (merge_results outputs),
          merged_no_match (merge_results outputs)).
Proof.
  induction 1 as [|rows out chunks outputs Hout _ IH].
  - done.
  - cbn [concat]. rewrite map_reads_app, Hout, IH. cbn [mbind option_bind]. f_equal.
    unfold merge_results. cbn [foldl].
    rewrite (foldl_additive _ _ (merge_chunk merged_empty out))
      by apply merge_chunk_additive.
    destruct (merge_chunk_clean merged_empty out (map_reads_clean _ _ _ _ _ Hout))
      as [Hr Hnm].
    unfold chunk_plus. cbn [merged_results merged_no_match merged_plus fst snd].
    rewrite Hr, Hnm. cbn [merged_results merged_no_match merged_empty].
    by rewrite results_plus_empty_l, counter_update_empty_l.
Qed.

Lemma merge_results_of_map_reads_witness :
  ∃ outputs,
    Forall2 (λ rows out, map_reads rows mapping_example_tags 1 false = Some out)
            mapping_example_chunks outputs
    ∧ map_reads (concat mapping_example_chunks) mapping_example_tags 1 false
      = Some (merged_results (merge_results outputs),
              merged_no_match (merge_results outputs)).
Proof.
  assert (Forall (λ rows, is_Some (map_reads rows mapping_example_tags 1 false))
                 mapping_example_chunks) as Hsome.
  { unfold mapping_example_chunks.
    repeat (constructor; [apply (bool_decide_unpack _); by vm_compute|]). constructor. }
  assert (∃ outputs,
    Forall2 (λ rows out, map_reads rows mapping_example_tags 1 false = Some out)
            mapping_example_chunks outputs) as [outputs Hruns].
  { induction Hsome as [|rows chunks [out Hout] _ [outputs IH]].
    - exists []. constructor.
    - exists (out :: outputs). by constructor. }
  exists outputs. split; [exact Hruns|].
  exact (merge_results_of_map_reads _ _ _ _ _ Hruns).
Defined.

(** ** Invariants of the merged state *)

Section getters_agree.
Context (g1 g2 : merged → Z).
Hypothesis g1_plus : ∀ a b, g1 (merged_plus a b) = (g1 a + g1 b)%Z.
Hypothesis g2_plus : ∀ a b, g2 (merged_plus a b) = (g2 a + g2 b)%Z.
Hypothesis g1_empty : g1 merged_empty = 0%Z.
Hypothesis g2_empty : g2 merged_empty = 0%Z.
Hypothesis agree_umi : ∀ cb TAG cnt kv,
  g1 (merge_umi cb TAG cnt merged_empty kv) = g2 (merge_umi cb TAG cnt merged_empty kv).
Hypothesis agree_cell : ∀ cb,
  g1 (ensure_cell cb merged_empty) = g2 (ensure_cell cb merged_empty).
Hypothesis agree_no_match : ∀ nm, g1 (mk_merged ∅ ∅ ∅ nm) = g2 (mk_merged ∅ ∅ ∅ nm).

Lemma getters_agree_merge_results l : g1 (merge_results l) = g2 (merge_results l).
Proof.
  rewrite (getter_merge_results g1), (getter_merge_results g2) by done.
  apply sum_ext. intros chunk _.
  rewrite (getter_merge_chunk g1), (getter_merge_chunk g2) by done.
  rewrite agree_no_match. f_equal.
  apply sum_ext. intros ct _.
  rewrite (getter_merge_cell g1), (getter_merge_cell g2) by done.
  rewrite agree_cell. f_equal.
  apply sum_ext. intros tc _.
  rewrite (getter_merge_tag g1), (getter_merge_tag g2) by done.
  apply sum_ext. intros kv _. apply agree_umi.
Qed.
End getters_agree.

Lemma cell_reads_empty cb : cell_reads ∅ cb = 0%Z.
Proof.
  unfold cell_reads, tags_of. rewrite lookup_empty; cbn.
  rewrite read_total_map_sum. apply map_sum_empty.
Qed.

(** X5: the read totals agree with the merged results.  Whatever the
    chunks hold, the entry of [reads_per_cell] for a cell barcode is the
    sum of all the counts that [merged_results] holds for that cell. *)
Theorem merge_results_reads_per_cell (parallel_results : list (results * counter))
    (cb : string) :
  Py.counter_get (reads_per_cell (merge_results parallel_results)) cb
  = cell_reads (merged_results (merge_results parallel_results)) cb.
Proof.
  apply (getters_agree_merge_results
           (get_reads cb) (λ m, cell_reads (merged_results m) cb)).
  - intros; apply counter_get_update.
  - intros; apply cell_reads_plus.
  - done.
  - apply cell_reads_empty.
  - intros cb' TAG cnt kv. unfold get_reads, merge_umi.
    cbn [reads_per_cell merged_results merged_empty].
    rewrite counter_get_incr_empty, nested_incr_plus, results_plus_empty_l.
    by rewrite cell_reads_single.
  - intros cb'. unfold get_reads, ensure_cell. cbn. rewrite lookup_empty. cbn.
    unfold cell_reads, tags_of. rewrite insert_empty.
    destruct (decide (cb' = cb)) as [->|Hne].
    + rewrite lookup_singleton_eq. cbn. rewrite read_total_map_sum. by rewrite map_sum_empty.
    + rewrite lookup_singleton_ne by done. cbn. rewrite read_total_map_sum. by rewrite map_sum_empty.
  - intros nm. cbn. by rewrite cell_reads_empty.
Qed.

Lemma foldl_invariant {A X} (P : A → Prop) (f : A → X → A) (l : list X) a :
  (∀ a x, P a → P (f a x)) → P a → P (foldl f a l).
Proof.
  intros Hf. revert a. induction l as [|x l IH]; intros a Ha; cbn; [done|].
  apply IH, Hf, Ha.
Qed.

Lemma no_empty_counter_single cb TAG UMI n :
  no_empty_counter {[cb := {[TAG := {[UMI := n]}]}]}.
Proof.
  intros cb' tags T cnt [<- <-]%lookup_singleton_Some [<- <-]%lookup_singleton_Some.
  apply insert_non_empty.
Qed.

Lemma merge_cell_no_empty_counter st ct :
  no_empty_counter (merged_results st) →
  no_empty_counter (merged_results (merge_cell st ct)).
Proof.
  intros Hst. unfold merge_cell. apply foldl_invariant.
  - intros a tc Ha. unfold merge_tag. case_decide; [done|].
    apply foldl_invariant; [|done].
    intros b kv Hb. cbn. rewrite nested_incr_plus.
    apply no_empty_counter_plus; [done|apply no_empty_counter_single].
  - unfold ensure_cell. destruct (merged_results st !! ct.1) eqn:Hcell; [done|].
    cbn. intros cb tags T cnt Hcb HT.
    destruct (decide (ct.1 = cb)) as [<-|Hne].
    + rewrite lookup_insert_eq in Hcb. injection Hcb as <-.
      by rewrite lookup_empty in HT.
    + rewrite lookup_insert_ne in Hcb by done. eauto.
Qed.

Lemma results_plus_is_Some (a b : results) cb :
  is_Some (results_plus a b !! cb) ↔ is_Some (a !! cb) ∨ is_Some (b !! cb).
Proof.
  unfold results_plus. rewrite lookup_union_with.
  destruct (a !! cb), (b !! cb); cbn; rewrite ?is_Some_alt; naive_solver.
Qed.

(** X6: merging never leaves an empty counter behind.  Whatever the
    chunks hold, also empty counters, every counter
    [merged_results[cell][TAG]] of the merged results holds at least one
    UMI, and every cell barcode of a chunk is a key of the merged
    results. *)
Theorem merge_results_no_empty_counter (parallel_results : list (results * counter)) :
  no_empty_counter (merged_results (merge_results parallel_results))
  ∧ ∀ chunk cb, chunk ∈ parallel_results → is_Some (chunk.1 !! cb) →
      is_Some (merged_results (merge_results parallel_results) !! cb).
Proof.
  split.
  - unfold merge_results. apply foldl_invariant; [|apply no_empty_counter_empty].
    intros st chunk Hst. unfold merge_chunk. cbn [merged_results].
    apply foldl_invariant; [|done]. intros a ct. apply merge_cell_no_empty_counter.
  - intros chunk cb Hin Hcb.
    apply list_elem_of_split in Hin as (l1 & l2 & ->).
    unfold merge_results. rewrite foldl_app. cbn [foldl].
    rewrite foldl_additive by apply merge_chunk_additive.
    rewrite (merge_chunk_additive (foldl _ _ l1)).
    cbn [merged_results merged_plus].
    rewrite !results_plus_is_Some. left. right.
    unfold merge_chunk. cbn [merged_results].
    destruct Hcb as [tags Hcb].
    apply elem_of_map_to_list, list_elem_of_split in Hcb as (c1 & c2 & ->).
    rewrite foldl_app. cbn [foldl].
    rewrite foldl_additive by apply merge_cell_additive.
    rewrite (merge_cell_additive (foldl _ _ c1)).
    cbn [merged_results merged_plus].
    rewrite !results_plus_is_Some. left. right.
    unfold merge_cell. rewrite foldl_additive by apply merge_tag_additive.
    cbn [merged_results merged_plus ensure_cell merged_empty fst snd].
    rewrite results_plus_is_Some. left.
    unfold ensure_cell. cbn [merged_results merged_empty].
    rewrite lookup_empty. cbn [merged_results]. by rewrite lookup_insert_eq.
Qed.


Lemma merge_results_no_empty_counter_witness :
  is_Some (merged_results (merge_results [({["AAAA" := {["CD3" := ∅]}]}, ∅)]) !! "AAAA").
Proof.
  apply (proj2 (merge_results_no_empty_counter _) ({["AAAA" := {["CD3" := ∅]}]}, ∅)).
  - apply list_elem_of_here.
  - cbn. rewrite lookup_singleton_eq. by eexists.
Defined.


(** ** UMI correction *)

Lemma merge_minor_umi_sum major st minor st' :
  merge_minor_umi major st minor = Some st' →
  Py.sum_values st'.1 = Py.sum_values st.1 ∧ st'.2 = (st.2 + 1)%Z.
Proof.
  unfold merge_minor_umi. destruct (st.1 !! minor) as [temp|] eqn:Hminor; [|done].
  intros [= <-]. cbn. split; [|done].
  rewrite counter_incr_update, sum_values_update, sum_values_singleton.
  rewrite (sum_values_map_sum st.1), (map_sum_delete _ _ _ _ Hminor).
  rewrite sum_values_map_sum. lia.
Qed.

Lemma for_each_merge_minor_umi_sum major minors st st' :
  for_each (merge_minor_umi major) st minors = Some st' →
  Py.sum_values st'.1 = Py.sum_values st.1
  ∧ st'.2 = (st.2 + Z.of_nat (length minors))%Z.
Proof.
  revert st. induction minors as [|m minors IH]; intros st; cbn [for_each].
  - intros [= <-]. split; [done|]. cbn. lia.
  - intros Hrest.
    destruct (merge_minor_umi major st m) as [st1|] eqn:Hm; [|done]. cbn in Hrest.
    apply merge_minor_umi_sum in Hm as [Hs Hn].
    apply IH in Hrest as [Hs' Hn']. rewrite Hs', Hn', Hs, Hn. cbn [length]. lia.
Qed.

(** X7: UMI correction moves counts, it does not change them.  When
    [update_umi_counts] returns, the counts of the counter add up to what
    they added up to before, and the number of corrections is the number of
    minor UMIs of the clusters (all but the first UMI of each). *)
Theorem update_umi_counts_conserves (UMIclusters : list (list string))
    (cell_tag_counts new_res : counter) (temp_corrected_umis : Z) :
  update_umi_counts UMIclusters cell_tag_counts = Some (new_res, temp_corrected_umis) →
  Py.sum_values new_res = Py.sum_values cell_tag_counts
  ∧ temp_corrected_umis = Z.of_nat (length (minor_umis UMIclusters)).
Proof.
  unfold update_umi_counts.
  assert (∀ st st', for_each update_cluster st UMIclusters = Some st' →
            Py.sum_values st'.1 = Py.sum_values st.1
            ∧ st'.2 = (st.2 + Z.of_nat (length (minor_umis UMIclusters)))%Z) as Hgen.
  { induction UMIclusters as [|cluster clusters IH]; intros st st'; cbn [for_each].
    - intros [= <-]. split; [done|]. cbn. lia.
    - intros Hrest.
      destruct (update_cluster st cluster) as [st1|] eqn:Hc; [|done]. cbn in Hrest.
      apply IH in Hrest as [Hs' Hn'].
      unfold minor_umis. rewrite fmap_cons. cbn [concat]. rewrite length_app.
      fold (minor_umis clusters). unfold update_cluster in Hc.
      case_decide as Hlen.
      + destruct (cluster !! 0%nat) as [major|]; [|done]. cbn in Hc.
        apply for_each_merge_minor_umi_sum in Hc as [Hs Hn].
        rewrite Hs', Hn', Hs, Hn. lia.
      + injection Hc as <-. rewrite Hs', Hn'. split; [done|].
        destruct cluster as [|u [|u' cluster]]; cbn in *; lia. }
  intros Hrun. apply Hgen in Hrun. cbn in Hrun. done.
Qed.

Lemma update_umi_counts_conserves_witness :
  ∃ new_res n,
    update_umi_counts umi_example_clusters umi_example_counts = Some (new_res, n)
    ∧ Py.sum_values new_res = Py.sum_values umi_example_counts.
Proof.
  assert (is_Some (update_umi_counts umi_example_clusters umi_example_counts))
    as [[new_res n] Hrun] by (apply (bool_decide_unpack _); by vm_compute).
  exists new_res, n. split; [exact Hrun|].
  exact (proj1 (update_umi_counts_conserves _ _ _ _ Hrun)).
Defined.

Lemma counter_get_ne_insert (c : counter) k v j :
  k ≠ j → Py.counter_get (<[k := v]> c) j = Py.counter_get c j.
Proof. intros Hne. unfold Py.counter_get. by rewrite lookup_insert_ne. Qed.

Lemma merge_minor_umi_eq major (c : counter) n m temp :
  c !! m = Some temp →
  merge_minor_umi major (c, n) m
  = Some (counter_incr (delete m c) major temp, (n + 1)%Z).
Proof. intros Hm. unfold merge_minor_umi. cbn. by rewrite Hm. Qed.

Lemma for_each_merge_minor_umi major minors (c : counter) n :
  NoDup (major :: minors) →
  (∀ u, u ∈ minors → is_Some (c !! u)) →
  ∃ c', for_each (merge_minor_umi major) (c, n) minors
        = Some (c', (n + Z.of_nat (length minors))%Z)
    ∧ Py.counter_get c' major
      = (Py.counter_get c major + Py.sum (Py.counter_get c <$> minors))%Z
    ∧ (is_Some (c !! major) → is_Some (c' !! major)
                              ∧ size c = (size c' + length minors)%nat)
    ∧ (∀ m, m ∈ minors → c' !! m = None)
    ∧ (∀ u, u ≠ major → u ∉ minors → c' !! u = c !! u).
Proof.
  revert c n. induction minors as [|m minors IH]; intros c n Hnodup Hknown.
  - exists c. cbn. split_and!.
    + f_equal. f_equal. lia.
    + unfold Py.sum. cbn. lia.
    + intros Hc. split; [done|lia].
    + intros m Hm. by apply elem_of_nil in Hm.
    + done.
  - apply NoDup_cons in Hnodup as [Hmajor Hnodup].
    apply NoDup_cons in Hnodup as [Hm Hminors].
    apply not_elem_of_cons in Hmajor as [Hne Hmajor].
    destruct (Hknown m) as [temp Htemp]; [by left|].
    cbn [for_each]. rewrite (merge_minor_umi_eq _ _ _ _ _ Htemp). cbn [mbind option_bind].
    set (c1 := counter_incr (delete m c) major temp).
    assert (∀ u, u ≠ major → u ≠ m → c1 !! u = c !! u) as Hframe1.
    { intros u Hu1 Hu2. unfold c1, counter_incr.
      by rewrite lookup_insert_ne, lookup_delete_ne. }
    assert (c1 !! m = None) as Hm1.
    { unfold c1, counter_incr. by rewrite lookup_insert_ne, lookup_delete_eq. }
    assert (Py.counter_get c1 major = (Py.counter_get c major + temp)%Z) as Hmajor1.
    { unfold c1, counter_incr, Py.counter_get.
      by rewrite lookup_insert_eq, lookup_delete_ne. }
    destruct (IH c1 (n + 1)%Z) as (c' & Hrun & Hget & Hsome & Hnone & Hframe).
    { apply NoDup_cons. done. }
    { intros u Hu. rewrite Hframe1; [apply Hknown; by right| |]; intros ->; done. }
    exists c'. split_and!.
    + rewrite Hrun. f_equal. f_equal. cbn [length]. lia.
    + rewrite Hget, Hmajor1, fmap_cons. unfold Py.sum at 2. cbn [foldr].
      fold (Py.sum (Py.counter_get c <$> minors)).
      replace (Py.counter_get c m) with temp
        by (unfold Py.counter_get; by rewrite Htemp).
      rewrite (sum_ext (Py.counter_get c1) (Py.counter_get c)); [lia|].
      intros u Hu. unfold Py.counter_get.
      rewrite Hframe1; [done| |]; intros ->; done.
    + intros Hc. destruct Hsome as [Hsome Hsize].
      { unfold c1, counter_incr. rewrite lookup_insert_eq. by eexists. }
      split; [done|]. cbn [length].
      assert (size c = S (size c1)) as Hc1; [|lia].
      unfold c1, counter_incr. destruct Hc as [v Hv].
      rewrite map_size_insert_Some by (rewrite lookup_delete_ne by done; by eexists).
      rewrite <- (insert_id c m temp Htemp) at 1.
      rewrite <- insert_delete_eq. apply map_size_insert_None, lookup_delete_eq.
    + intros u [->|Hu]%elem_of_cons.
      * rewrite Hframe; done.
      * by apply Hnone.
    + intros u Hu1 [Hu2 Hu3]%not_elem_of_cons. rewrite Hframe by done.
      by apply Hframe1.
Qed.

Lemma update_cluster_cons st major minors :
  update_cluster st (major :: minors) = for_each (merge_minor_umi major) st minors.
Proof.
  unfold update_cluster. case_decide as Hlen; [done|].
  destruct minors; [done|]. cbn in Hlen. lia.
Qed.

Lemma minor_umis_cons cluster clusters :
  minor_umis (cluster :: clusters) = (drop 1 cluster ++ minor_umis clusters)%list.
Proof. done. Qed.

(** X8: what UMI correction does to the counter.  When the clusters are
    disjoint lists of distinct UMIs that are all keys of the counter (a
    clustering of the counter's UMIs), [update_umi_counts] returns: the
    first UMI of every cluster ends with the sum of the counts of its
    cluster, the other UMIs of the cluster are removed, UMIs outside the
    clusters keep their entry, and the counter loses one key for every
    correction. *)
Theorem update_umi_counts_folds_clusters (UMIclusters : list (list string))
    (cell_tag_counts : counter) :
  NoDup (concat UMIclusters) →
  (∀ u, u ∈ concat UMIclusters → is_Some (cell_tag_counts !! u)) →
  ∃ new_res,
    update_umi_counts UMIclusters cell_tag_counts
    = Some (new_res, Z.of_nat (length (minor_umis UMIclusters)))
    ∧ (∀ cluster major, cluster ∈ UMIclusters → cluster !! 0%nat = Some major →
         new_res !! major = Some (Py.sum (Py.counter_get cell_tag_counts <$> cluster))
         ∧ ∀ m, m ∈ drop 1 cluster → new_res !! m = None)
    ∧ (∀ u, u ∉ concat UMIclusters → new_res !! u = cell_tag_counts !! u)
    ∧ Py.dict_len new_res
      = (Py.dict_len cell_tag_counts - Z.of_nat (length (minor_umis UMIclusters)))%Z.
Proof.
  unfold update_umi_counts.
  assert (∀ (c : counter) n,
    NoDup (concat UMIclusters) →
    (∀ u, u ∈ concat UMIclusters → is_Some (c !! u)) →
    ∃ c', for_each update_cluster (c, n) UMIclusters
          = Some (c', (n + Z.of_nat (length (minor_umis UMIclusters)))%Z)
      ∧ (∀ cluster major, cluster ∈ UMIclusters → cluster !! 0%nat = Some major →
           c' !! major = Some (Py.sum (Py.counter_get c <$> cluster))
           ∧ ∀ m, m ∈ drop 1 cluster → c' !! m = None)
      ∧ (∀ u, u ∉ concat UMIclusters → c' !! u = c !! u)
      ∧ size c = (size c' + length (minor_umis UMIclusters))%nat) as Hgen.
  { induction UMIclusters as [|cluster clusters IH]; intros c n Hnodup Hknown.
    - exists c. cbn. split_and!.
      + f_equal. f_equal. lia.
      + intros cluster major Hin. by apply elem_of_nil in Hin.
      + done.
      + lia.
    - cbn [concat] in Hnodup, Hknown.
      apply NoDup_app in Hnodup as (Hcluster & Hdisj & Hnodup).
      destruct cluster as [|major minors].
      + destruct (IH c n) as (c' & Hrun & Hcl & Hframe & Hsize); [done|done|].
        exists c'. split_and!.
        * cbn [for_each]. unfold update_cluster at 1. cbn. exact Hrun.
        * intros cluster major [->|Hin]%elem_of_cons; [done|]. by apply Hcl.
        * done.
        * done.
      + destruct (for_each_merge_minor_umi major minors c n)
          as (c1 & Hrun1 & Hget1 & Hsome1 & Hnone1 & Hframe1); [done| |].
        { intros u Hu. apply Hknown, elem_of_app. left. by right. }
        destruct Hsome1 as [Hsome1 Hsize1].
        { apply Hknown, elem_of_app. left. by left. }
        assert (∀ u, u ∈ concat clusters → c1 !! u = c !! u) as Hsame.
        { intros u Hu. apply Hframe1.
          - intros ->. apply (Hdisj major); [by left|done].
          - intros Hu'. apply (Hdisj u); [by right|done]. }
        destruct (IH c1 (n + Z.of_nat (length minors))%Z)
          as (c' & Hrun & Hcl & Hframe & Hsize); [done| |].
        { intros u Hu. rewrite Hsame by done. apply Hknown, elem_of_app. by right. }
        exists c'. split_and!.
        * cbn [for_each]. rewrite update_cluster_cons, Hrun1. cbn [mbind option_bind].
          rewrite Hrun. f_equal. f_equal. rewrite minor_umis_cons, length_app.
          cbn [drop]. rewrite drop_0. lia.
        * intros cluster major' [->|Hin]%elem_of_cons Hhead.
          -- injection Hhead as <-. split.
             ++ rewrite Hframe by (by apply Hdisj; left).
                destruct Hsome1 as [v Hv]. rewrite Hv. f_equal.
                unfold Py.counter_get in Hget1 at 1. rewrite Hv in Hget1. cbn in Hget1.
                rewrite Hget1, fmap_cons. done.
             ++ cbn. intros m Hm. rewrite Hframe; [by apply Hnone1|].
                apply Hdisj. by right.
          -- destruct (Hcl cluster major' Hin Hhead) as [Hmaj Hmin]. split; [|done].
             rewrite Hmaj. f_equal. apply sum_ext. intros u Hu.
             unfold Py.counter_get. rewrite Hsame; [done|].
             apply elem_of_concat. eauto.
        * intros u [Hu1 Hu2]%not_elem_of_app.
          apply not_elem_of_cons in Hu1 as [Hne Hu1].
          rewrite Hframe by done. by apply Hframe1.
        * rewrite minor_umis_cons, length_app. cbn [drop]. rewrite drop_0. lia. }
  intros Hnodup Hknown.
  destruct (Hgen cell_tag_counts 0%Z Hnodup Hknown) as (c' & Hrun & Hcl & Hframe & Hsize).
  exists c'. split_and!; [|done|done|unfold Py.dict_len; lia].
  rewrite Hrun. done.
Qed.

Lemma update_umi_counts_folds_clusters_witness :
  ∃ new_res,
    update_umi_counts umi_example_clusters umi_example_counts = Some (new_res, 1%Z)
    ∧ new_res !! "AAC" = Some 6%Z ∧ new_res !! "AAT" = None.
Proof.
  destruct (update_umi_counts_folds_clusters umi_example_clusters umi_example_counts)
    as (new_res & Hrun & Hcl & _).
  - by apply (bool_decide_unpack _).
  - intros u Hu. cbn in Hu.
    repeat (apply elem_of_cons in Hu as [->|Hu]; [eexists; by vm_compute|]).
    by apply elem_of_nil in Hu.
  - exists new_res. split; [exact Hrun|].
    destruct (Hcl ["AAC"; "AAT"] "AAC") as [Hmajor Hminor];
      [apply list_elem_of_here|done|].
    split; [exact Hmajor|]. apply Hminor. apply list_elem_of_here.
Defined.

(** ** Whitelist correction *)

Lemma concat_Permutation {X} (l1 l2 : list (list X)) :
  l1 ≡ₚ l2 → concat l1 ≡ₚ concat l2.
Proof.
  induction 1 as [|x l1 l2 _ IH|x y l|l1 l2 l3 _ IH1 _ IH2]; cbn.
  - done.
  - by rewrite IH.
  - rewrite !(assoc app). f_equiv. apply Permutation_app_comm.
  - by rewrite IH1.
Qed.

Lemma concat_defaultdict_append (d : gmap string (list string)) k v :
  concat (map_to_list (defaultdict_append d k v)).*2
  ≡ₚ (concat (map_to_list d).*2 ++ [v])%list.
Proof.
  unfold defaultdict_append. destruct (d !! k) as [old|] eqn:Hk; cbn.
  - rewrite <- insert_delete_eq.
    rewrite (concat_Permutation _ _
               (fmap_Permutation snd _ _
                  (map_to_list_insert (delete k d) k (old ++ [v])%list
                     (lookup_delete_eq d k)))).
    rewrite <- (concat_Permutation _ _
                  (fmap_Permutation snd _ _ (map_to_list_delete d k old Hk))).
    cbn. rewrite <- !(assoc app). f_equiv. apply Permutation_app_comm.
  - rewrite (concat_Permutation _ _
               (fmap_Permutation snd _ _ (map_to_list_insert d k [v] Hk))).
    cbn. apply Permutation_cons_append.
Qed.

Lemma elem_of_keys {V} (m : gmap string V) k :
  k ∈ (map_to_list m).*1 ↔ is_Some (m !! k).
Proof.
  rewrite list_elem_of_fmap. split.
  - intros ([k' v] & -> & Hin). apply elem_of_map_to_list in Hin. by eexists.
  - intros [v Hv]. exists (k, v). split; [done|]. by apply elem_of_map_to_list.
Qed.

Section whitelist_correction.
Context (distance : string → string → nat) (whitelist : gset string)
        (collapsing_threshold : Z).

Local Abbreviation wl_tree := (mk_BKTree distance (elements whitelist)).
Local Abbreviation wl_step :=
  (find_true_to_false_step wl_tree whitelist collapsing_threshold).
Local Abbreviation wl_near := (near_whitelist distance whitelist collapsing_threshold).

Lemma find_true_to_false_step_list ttf c w :
  folded_into (wl_step ttf c) w
  = (folded_into ttf w
     ++ if decide ((c ∉ whitelist) ∧ wl_near c = [w]) then [c] else [])%list.
Proof.
  unfold find_true_to_false_step, folded_into.
  case_decide as Hwl.
  - rewrite decide_False by tauto. by rewrite app_nil_r.
  - rewrite candidates_near_whitelist.
    destruct (wl_near c) as [|w0 [|w1 rest]].
    + rewrite decide_False by (by intros [_ ?]). by rewrite app_nil_r.
    + unfold defaultdict_append. destruct (decide (w0 = w)) as [->|Hne].
      * rewrite lookup_insert_eq, decide_True by done. done.
      * rewrite lookup_insert_ne by done.
        rewrite decide_False by (intros [_ [= ?]]; done). by rewrite app_nil_r.
    + rewrite decide_False by (by intros [_ ?]). by rewrite app_nil_r.
Qed.

Lemma find_true_to_false_map_list cell_barcodes w :
  folded_into
    (find_true_to_false_map wl_tree cell_barcodes whitelist collapsing_threshold) w
  = filter (λ cb, (cb ∉ whitelist) ∧ wl_near cb = [w]) cell_barcodes.
Proof.
  unfold find_true_to_false_map.
  induction cell_barcodes as [|c l IH] using rev_ind.
  - cbn. unfold folded_into. by rewrite lookup_empty.
  - rewrite foldl_app; cbn [foldl]. rewrite find_true_to_false_step_list, IH.
    by rewrite filter_app.
Qed.

Lemma find_true_to_false_map_fakes cell_barcodes :
  concat (map_to_list
            (find_true_to_false_map wl_tree cell_barcodes whitelist
               collapsing_threshold)).*2
  ≡ₚ filter (λ cb, (cb ∉ whitelist) ∧ length (wl_near cb) = 1%nat) cell_barcodes.
Proof.
  unfold find_true_to_false_map.
  induction cell_barcodes as [|c l IH] using rev_ind.
  - cbn. by rewrite map_to_list_empty.
  - rewrite foldl_app; cbn [foldl]. rewrite filter_app, filter_cons, filter_nil.
    unfold find_true_to_false_step at 1. case_decide as Hwl.
    + rewrite decide_False by tauto. by rewrite app_nil_r.
    + rewrite candidates_near_whitelist.
      destruct (wl_near c) as [|w0 [|w1 rest]]; cbn [length].
      * rewrite decide_False by (by intros [_ ?]). by rewrite app_nil_r.
      * rewrite decide_True by done. rewrite concat_defaultdict_append. by rewrite IH.
      * rewrite decide_False by (by intros [_ ?]). by rewrite app_nil_r.
Qed.
End whitelist_correction.

(** X9: whitelist correction as a whole.  When every cell of the results
    has a UMI total and the results hold only tags of the panel,
    [correct_cells_whitelist] returns; the tally is the number of cells
    that are not on the whitelist and have exactly one whitelist barcode
    within the collapsing distance; each of these cells loses its entry
    and its UMI total; a cell that is not on the whitelist and has no such
    neighbour, or several, is untouched; and a whitelist barcode ends with
    its own counts and UMI total plus those of the cells whose only
    neighbour it is. *)
Theorem correct_cells_whitelist_folds_unique_neighbours
    (distance : string → string → nat) (final_results : results)
    (umis_per_cell : counter) (whitelist : gset string) (collapsing_threshold : Z)
    (ab_map : gmap string tag_info) :
  let near := near_whitelist distance whitelist collapsing_threshold in
  let cell_barcodes := (map_to_list final_results).*1 in
  (∀ cb, is_Some (final_results !! cb) → is_Some (umis_per_cell !! cb)) →
  panel_tags_only ab_map final_results →
  ∃ st',
    correct_cells_whitelist distance final_results umis_per_cell whitelist
      collapsing_threshold ab_map = Some st'
    ∧ corrected_barcodes st'
      = Z.of_nat (length (filter (λ cb, (cb ∉ whitelist) ∧ length (near cb) = 1%nat)
                                 cell_barcodes))
    ∧ (∀ cb w, is_Some (final_results !! cb) → cb ∉ whitelist → near cb = [w] →
         cs_final_results st' !! cb = None ∧ cs_umis_per_cell st' !! cb = None)
    ∧ (∀ cb, cb ∉ whitelist → length (near cb) ≠ 1%nat →
         cs_final_results st' !! cb = final_results !! cb
         ∧ cs_umis_per_cell st' !! cb = umis_per_cell !! cb)
    ∧ (∀ w, w ∈ whitelist →
         let fakes := filter (λ cb, (cb ∉ whitelist) ∧ near cb = [w]) cell_barcodes in
         (∀ TAG UMI,
            count_at (cs_final_results st') w TAG UMI
            = (count_at final_results w TAG UMI
               + Py.sum ((λ f, count_at final_results f TAG UMI) <$> fakes))%Z)
         ∧ Py.counter_get (cs_umis_per_cell st') w
           = (Py.counter_get umis_per_cell w
              + Py.sum ((λ f, Py.counter_get umis_per_cell f) <$> fakes))%Z).
Proof.
  intros near cell_barcodes Humis Hpanel. unfold correct_cells_whitelist.
  fold cell_barcodes.
  set (ttf := find_true_to_false_map _ cell_barcodes whitelist collapsing_threshold).
  set (L := map_to_list ttf).
  pose proof (find_true_to_false_map_fakes distance whitelist collapsing_threshold
                cell_barcodes) as Hfakes.
  fold ttf L near in Hfakes.
  assert (∀ w, folded_into ttf w
               = filter (λ cb, (cb ∉ whitelist) ∧ near cb = [w]) cell_barcodes) as Hlist
    by apply find_true_to_false_map_list.
  assert (∀ f, f ∈ concat L.*2 →
               is_Some (final_results !! f) ∧ (f ∉ whitelist)
               ∧ length (near f) = 1%nat) as Hfake.
  { intros f Hf. rewrite Hfakes in Hf.
    apply list_elem_of_filter in Hf as [[Hwl Hlen] Hin].
    by apply elem_of_keys in Hin. }
  assert (∀ r, r ∈ L.*1 → r ∈ whitelist) as Hreal.
  { intros r Hr%elem_of_keys.
    by apply find_true_to_false_map_keys in Hr. }
  destruct (for_each_collapse_real ab_map L
              {| cs_umis_per_cell := umis_per_cell;
                 cs_final_results := final_results;
                 corrected_barcodes := 0 |})
    as (st' & Hrun & [Hcreal Hrm Hframe Hcor]); cbn [cs_final_results cs_umis_per_cell].
  - apply NoDup_fst_map_to_list.
  - rewrite Hfakes. apply NoDup_filter, NoDup_fst_map_to_list.
  - intros r Hr Hr'. apply Hfake in Hr' as (_ & Hwl & _). by apply Hwl, Hreal.
  - intros f (Hf & _ & _)%Hfake. split; [done|by apply Humis].
  - done.
  - exists st'. split; [exact Hrun|]. cbn in Hcor.
    split; [|split; [|split]].
    + rewrite Hcor, Hfakes. lia.
    + intros cb w Hcb Hwl Hnear. apply Hrm. rewrite Hfakes.
      apply list_elem_of_filter. split; [|by apply elem_of_keys].
      split; [done|]. by rewrite Hnear.
    + intros cb Hwl Hlen. apply Hframe.
      * intros Hr. by apply Hwl, Hreal.
      * intros (_ & _ & Hone)%Hfake. done.
    + intros w Hw. cbv zeta. rewrite <- Hlist. unfold folded_into.
      destruct (ttf !! w) as [fs|] eqn:Hfs; cbn.
      * destruct (Hcreal w fs) as (_ & _ & Hcount & Humi);
          [by apply elem_of_map_to_list|]. done.
      * unfold Py.sum. cbn.
        destruct (Hframe w) as [Hres Hum].
        -- unfold L. rewrite elem_of_keys, Hfs. by intros [? ?].
        -- intros (_ & Hwl & _)%Hfake. done.
        -- cbn in Hres, Hum. unfold count_at, Py.counter_get. rewrite Hres, Hum.
           split; [intros TAG UMI|]; lia.
Qed.

Lemma correct_cells_whitelist_folds_unique_neighbours_witness :
  ∃ st',
    correct_cells_whitelist barcode_distance collapse_example_results
      collapse_example_umis {[ "AAAAA"; "CCCCC" ]} 1 collapse_example_panel = Some st'
    ∧ cs_final_results st' !! "AAAAT" = None.
Proof.
  destruct (correct_cells_whitelist_folds_unique_neighbours barcode_distance
              collapse_example_results collapse_example_umis
              {[ "AAAAA"; "CCCCC" ]} 1 collapse_example_panel)
    as (st' & Hrun & _ & Hrm & _).
  - unfold collapse_example_results, collapse_example_umis.
    intros cb [tags [<- <-]%lookup_singleton_Some].
    rewrite lookup_singleton_eq. by eexists.
  - exact (tags_in_panel _ _ _ _ collapse_example_collapsible).
  - exists st'. split; [exact Hrun|].
    apply (Hrm "AAAAT" "AAAAA").
    + eexists. by vm_compute.
    + apply (bool_decide_unpack _). by vm_compute.
    + by vm_compute.
Defined.

(** ** Invariants of the staging loop *)

Section staging_invariants.
Context (args : arguments) (cwd : string) (R2_max_length : Z)
        (chemistry_def : chemistry) (named_tuples_tags_map : list tag).

Local Abbreviation inv_row := (chunk_row R2_max_length chemistry_def).
Local Abbreviation inv_stage_row :=
  (stage_row args cwd R2_max_length chemistry_def named_tuples_tags_map).
Local Abbreviation inv_stage_reads :=
  (stage_reads args cwd R2_max_length chemistry_def named_tuples_tags_map).
Local Abbreviation inv_stage_files :=
  (stage_files args cwd R2_max_length chemistry_def named_tuples_tags_map).
Local Abbreviation inv_task := (task args named_tuples_tags_map).

(** A property of the state that every step of the inner loop keeps is
    kept by the loop. *)
Lemma stage_reads_invariant (I : staging → Prop) secondlines :
  (∀ st, I st → I (count_R1_too_short st)) →
  (∀ st, I st → I (count_R2_too_short st)) →
  (∀ st, I st → I (report_total st)) →
  (∀ st read1 read2, I st → I (inv_stage_row st read1 read2)) →
  ∀ st, I st → I (inv_stage_reads st secondlines).
Proof.
  intros H1 H2 Hrep Hrow.
  induction secondlines as [|[read1 read2] rest IH]; intros st Hst; cbn [stage_reads].
  - done.
  - destruct (_ <? _)%Z; [by apply IH, H1|].
    destruct (_ <? _)%Z; [by apply IH, H2|].
    destruct (cap_reached _ _); [by apply Hrep, Hrow|by apply IH, Hrow].
Qed.

Lemma files_opened_app tr1 tr2 :
  files_opened (tr1 ++ tr2) = (files_opened tr1 ++ files_opened tr2)%list.
Proof. unfold files_opened. apply omap_app. Qed.

Lemma file_protocol_app bound tr1 tr2 :
  file_protocol bound (tr1 ++ tr2)
  = foldl (protocol_step bound) (file_protocol bound tr1) tr2.
Proof. unfold file_protocol. apply foldl_app. Qed.

Lemma stage_row_chunk_open st read1 read2 :
  chunk_open args st → chunk_open args (inv_stage_row st read1 read2).
Proof.
  intros [Htrace Hrw]. unfold stage_row.
  assert (file_protocol (chunk_size args)
            (trace (write_row st (inv_row read1 read2)))
          = Some (Some (temp_filename st, (reads_written st + 1)%Z))) as Hwrite.
  { cbn [write_row trace]. rewrite file_protocol_app, Htrace. cbn.
    rewrite decide_True by (split; [done|lia]). done. }
  destruct (_ =? 0)%Z eqn:Hmod.
  - apply Z.eqb_eq in Hmod. cbn [write_row reads_written] in Hmod.
    split; [|cbn; lia].
    cbn [rotate trace temp_filename reads_written].
    rewrite file_protocol_app, Hwrite. cbn.
    rewrite decide_True by done. done.
  - apply Z.eqb_neq in Hmod. cbn [write_row reads_written] in Hmod.
    split; [exact Hwrite|]. cbn [write_row reads_written].
    assert (reads_written st + 1 ≠ chunk_size args)%Z; [|lia].
    intros Heq. rewrite Heq, Z.mod_same in Hmod by lia. done.
Qed.

Lemma stage_files_file_protocol st files :
  (0 < chunk_size args)%Z →
  file_protocol (chunk_size args) (trace st) = Some None →
  file_protocol (chunk_size args) (trace (inv_stage_files st files)) = Some None.
Proof.
  intros Hsize Hst. unfold stage_files. cbn [trace].
  match goal with
  | |- context [stage_reads _ _ _ _ _ ?st0 ?lines] =>
      assert (chunk_open args (inv_stage_reads st0 lines)) as [Hopen _]
  end.
  { apply (stage_reads_invariant (chunk_open args)); try done.
    - apply stage_row_chunk_open.
    - split; [|cbn; lia]. cbn [trace temp_filename reads_written].
      rewrite file_protocol_app, Hst. done. }
  rewrite file_protocol_app, Hopen. cbn. by rewrite decide_True.
Qed.

Lemma stage_row_files_registered st read1 read2 :
  files_registered cwd st → files_registered cwd (inv_stage_row st read1 read2).
Proof.
  intros [Hopened Htemp]. unfold stage_row.
  assert (files_opened (trace (write_row st (inv_row read1 read2)))
          = files_opened (trace st)) as Hwrite.
  { cbn [write_row trace]. rewrite files_opened_app. cbn. by rewrite app_nil_r. }
  destruct (_ =? 0)%Z.
  - split.
    + cbn [rotate trace temp_filename input_queue write_row] in *.
      rewrite files_opened_app, files_opened_app. cbn.
      rewrite app_nil_r, Hopened, fmap_app. done.
    + cbn [rotate trace temp_files write_row] in *.
      rewrite files_opened_app, files_opened_app. cbn.
      rewrite app_nil_r, fmap_app, Htemp. done.
  - split.
    + rewrite Hwrite. exact Hopened.
    + rewrite Hwrite. exact Htemp.
Qed.

Lemma stage_files_files_registered st files :
  mi_filename <$> input_queue st = files_opened (trace st) →
  temp_files st = Path.abspath cwd <$> files_opened (trace st) →
  let st' := inv_stage_files st files in
  mi_filename <$> input_queue st' = files_opened (trace st')
  ∧ temp_files st' = Path.abspath cwd <$> files_opened (trace st').
Proof.
  intros Hqueue Htemp. unfold stage_files. cbn [input_queue trace temp_files].
  match goal with
  | |- context [stage_reads _ _ _ _ _ ?st0 ?lines] =>
      assert (files_registered cwd (inv_stage_reads st0 lines)) as [Hopened Hfiles]
  end.
  { apply (stage_reads_invariant (files_registered cwd)); try done.
    - apply stage_row_files_registered.
    - split; cbn [trace temp_filename input_queue temp_files].
      + rewrite files_opened_app, Hqueue. done.
      + rewrite files_opened_app, fmap_app, Htemp. done. }
  rewrite files_opened_app. cbn. rewrite app_nil_r, fmap_app. done.
Qed.
End staging_invariants.

(** X10: the staging keeps to one output file at a time.  With a chunk
    size above 0, whatever the inputs and the cap, the file operations of
    [write_chunks_to_disk] open a file only when none is open, write
    every row to the file that is open, write at most [chunk_size] rows
    to a file between opening and closing it, close only the open file,
    and leave no file open at the end. *)
Theorem write_chunks_to_disk_file_protocol (args : arguments) (cwd : string)
    (R2_max_length : Z) (chemistry_def : chemistry) (named_tuples_tags_map : list tag)
    (files : list (list string * list string)) (total_reads0 : Z) :
  (0 < chunk_size args)%Z →
  file_protocol (chunk_size args)
    (trace (write_chunks_to_disk args cwd R2_max_length chemistry_def
              named_tuples_tags_map files total_reads0))
  = Some None.
Proof.
  intros Hsize. unfold write_chunks_to_disk.
  apply (foldl_invariant
           (λ st, file_protocol (chunk_size args) (trace st) = Some None)).
  - intros st pair Hst. by apply stage_files_file_protocol.
  - done.
Qed.

(** X11: every chunk file is registered.  Whatever the inputs, the file
    names of the mapping tasks returned by [write_chunks_to_disk] are the
    names under which it opened files, in the order of opening and once
    for every opening, and the list of temporary files holds the absolute
    paths of these names. *)
Theorem write_chunks_to_disk_registers_files (args : arguments) (cwd : string)
    (R2_max_length : Z) (chemistry_def : chemistry) (named_tuples_tags_map : list tag)
    (files : list (list string * list string)) (total_reads0 : Z) :
  let st := write_chunks_to_disk args cwd R2_max_length chemistry_def
              named_tuples_tags_map files total_reads0 in
  mi_filename <$> input_queue st = files_opened (trace st)
  ∧ temp_files st = Path.abspath cwd <$> files_opened (trace st)
  ∧ (length files ≤ length (input_queue st))%nat.
Proof.
  unfold write_chunks_to_disk. cbv zeta.
  induction files as [|pair rest IH] using rev_ind.
  - done.
  - rewrite foldl_app. cbn [foldl]. destruct IH as (Hqueue & Htemp & Hlen).
    destruct (stage_files_files_registered args cwd R2_max_length chemistry_def
                named_tuples_tags_map _ pair Hqueue Htemp) as [Hqueue' Htemp'].
    split; [exact Hqueue'|]. split; [exact Htemp'|].
    rewrite length_app. unfold stage_files. cbn [input_queue length].
    rewrite length_app. cbn [length].
    match goal with
    | |- context [stage_reads _ _ _ _ _ ?st0 ?lines] =>
        assert (length rest
                ≤ length (input_queue
                            (stage_reads args cwd R2_max_length chemistry_def
                               named_tuples_tags_map st0 lines)))%nat; [|lia]
    end.
    apply (stage_reads_invariant args cwd R2_max_length chemistry_def
             named_tuples_tags_map (λ st, (length rest ≤ length (input_queue st))%nat));
      try done.
    intros st read1 read2 Hst. unfold stage_row.
    destruct (_ =? 0)%Z; cbn [rotate write_row input_queue]; [|done].
    rewrite length_app. lia.
Qed.

Lemma write_chunks_to_disk_file_protocol_witness :
  file_protocol 1 (trace (example_run 1 None [example_files_1; example_files_2] 3))
  = Some None.
Proof.
  apply (write_chunks_to_disk_file_protocol
           (mk_arguments 1 "/tmp/work" false 1 false None)).
  cbn. lia.
Defined.

Section staging_no_cap.
Context (args : arguments) (cwd : string) (R2_max_length : Z)
        (chemistry_def : chemistry) (named_tuples_tags_map : list tag).
Hypothesis no_cap : first_n args = None.

Lemma stage_reads_no_cap secondlines st :
  accounted R2_max_length chemistry_def st secondlines
    (stage_reads args cwd R2_max_length chemistry_def named_tuples_tags_map
       st secondlines).
Proof.
  revert st. unfold accounted, staged_rows.
  induction secondlines as [|[read1 read2] rest IH]; intros st; cbn [stage_reads].
  - cbn. rewrite app_nil_r. split_and!; (done || lia).
  - destruct (Py.len (strip read1) <? umi_barcode_end chemistry_def)%Z eqn:H1.
    { destruct (IH (count_R1_too_short st)) as (Hrows & Hr1 & Hr2 & Htotal).
      rewrite filter_cons_False by (unfold skipped; cbn [fst snd]; by rewrite H1).
      rewrite filter_cons_True by (unfold R1_short; cbn [fst snd]; done).
      rewrite filter_cons_False
        by (unfold R1_short; cbn [fst snd]; rewrite H1; by intros [? _]).
      split_and!; [done| |done|done].
      rewrite Hr1. cbn [count_R1_too_short R1_too_short length]. lia. }
    destruct (Py.len read2 <? R2_max_length)%Z eqn:H2.
    { destruct (IH (count_R2_too_short st)) as (Hrows & Hr1 & Hr2 & Htotal).
      rewrite filter_cons_False by (unfold skipped; cbn [fst snd]; by rewrite H1, H2).
      rewrite filter_cons_False by (unfold R1_short; cbn [fst snd]; by rewrite H1).
      rewrite filter_cons_True by (unfold R1_short, R2_short; cbn [fst snd]; done).
      split_and!; [done|done| |done].
      rewrite Hr2. cbn [count_R2_too_short R2_too_short length]. lia. }
    rewrite filter_cons_True by (unfold skipped; cbn [fst snd]; by rewrite H1, H2).
    rewrite filter_cons_False by (unfold R1_short; cbn [fst snd]; by rewrite H1).
    rewrite filter_cons_False
      by (unfold R2_short; cbn [fst snd]; rewrite H2; by intros [_ ?]).
    unfold cap_reached. rewrite no_cap.
    pose proof (stage_row_effect args cwd R2_max_length chemistry_def
                  named_tuples_tags_map st (strip read1) read2) as Heff.
    cbn zeta in Heff. revert Heff.
    generalize (stage_row args cwd R2_max_length chemistry_def named_tuples_tags_map
                  st (strip read1) read2).
    intros st1 (Hrows1 & _ & Hr1' & Hr2' & Htotal').
    destruct (IH st1) as (Hrows & Hr1 & Hr2 & Htotal).
    rewrite Hrows, Hrows1, Hr1, Hr2, Htotal, Hr1', Hr2', Htotal'.
    rewrite fmap_cons, <- (assoc app). done.
Qed.

Lemma stage_files_no_cap st files :
  accounted R2_max_length chemistry_def st (secondlines_of files)
    (stage_files args cwd R2_max_length chemistry_def named_tuples_tags_map st files).
Proof.
  unfold accounted, stage_files.
  cbn [trace R1_too_short R2_too_short total_reads].
  match goal with
  | |- context [stage_reads _ _ _ _ _ ?st0 ?lines] =>
      destruct (stage_reads_no_cap lines st0) as (Hrows & Hr1 & Hr2 & Htotal)
  end.
  fold (secondlines_of files) in *.
  rewrite rows_written_app, Hrows, Hr1, Hr2, Htotal.
  cbn [trace R1_too_short R2_too_short total_reads].
  rewrite rows_written_app. cbn. rewrite !app_nil_r. done.
Qed.
End staging_no_cap.

Lemma staged_rows_app R2_max_length chemistry_def l1 l2 :
  staged_rows R2_max_length chemistry_def (l1 ++ l2)
  = (staged_rows R2_max_length chemistry_def l1
     ++ staged_rows R2_max_length chemistry_def l2)%list.
Proof. unfold staged_rows. by rewrite filter_app, fmap_app. Qed.

(** X12: without a cap every pair of sequence lines is accounted for.
    The rows written are, in order, the rows of the pairs that pass both
    length tests; [R1_too_short] counts the pairs whose stripped read 1 is
    too short, [R2_too_short] the other pairs whose read 2 is too short;
    the reported total is the one handed in; so the two counters and the
    number of rows add up to the number of pairs. *)
Theorem write_chunks_to_disk_accounts_for_every_pair (args : arguments) (cwd : string)
    (R2_max_length : Z) (chemistry_def : chemistry) (named_tuples_tags_map : list tag)
    (files : list (list string * list string)) (total_reads0 : Z) :
  first_n args = None →
  let st := write_chunks_to_disk args cwd R2_max_length chemistry_def
              named_tuples_tags_map files total_reads0 in
  let secondlines := concat (secondlines_of <$> files) in
  rows_written (trace st) = staged_rows R2_max_length chemistry_def secondlines
  ∧ R1_too_short st
    = Z.of_nat (length (filter (λ p, R1_short chemistry_def p = true) secondlines))
  ∧ R2_too_short st
    = Z.of_nat (length (filter (λ p, R1_short chemistry_def p = false
                                     ∧ R2_short R2_max_length p = true) secondlines))
  ∧ total_reads st = total_reads0
  ∧ (R1_too_short st + R2_too_short st + Z.of_nat (length (rows_written (trace st)))
     = Z.of_nat (length secondlines))%Z.
Proof.
  intros Hcap. cbv zeta. unfold write_chunks_to_disk.
  match goal with
  | |- context [foldl _ ?st0 files] => set (init := st0)
  end.
  assert (rows_written (trace (foldl (stage_files args cwd R2_max_length chemistry_def
                                        named_tuples_tags_map) init files))
          = staged_rows R2_max_length chemistry_def (concat (secondlines_of <$> files))
          ∧ R1_too_short (foldl (stage_files args cwd R2_max_length chemistry_def
                                   named_tuples_tags_map) init files)
            = Z.of_nat (length (filter (λ p, R1_short chemistry_def p = true)
                                       (concat (secondlines_of <$> files))))
          ∧ R2_too_short (foldl (stage_files args cwd R2_max_length chemistry_def
                                   named_tuples_tags_map) init files)
            = Z.of_nat (length (filter (λ p, R1_short chemistry_def p = false
                                             ∧ R2_short R2_max_length p = true)
                                       (concat (secondlines_of <$> files))))
          ∧ total_reads (foldl (stage_files args cwd R2_max_length chemistry_def
                                  named_tuples_tags_map) init files)
            = total_reads0) as (Hrows & Hr1 & Hr2 & Htotal).
  { induction files as [|pair rest IH] using rev_ind.
    - done.
    - rewrite foldl_app. cbn [foldl]. destruct IH as (Hrows & Hr1 & Hr2 & Htotal).
      destruct (stage_files_no_cap args cwd R2_max_length chemistry_def
                  named_tuples_tags_map Hcap
                  (foldl (stage_files args cwd R2_max_length chemistry_def
                            named_tuples_tags_map) init rest) pair)
        as (Hrows' & Hr1' & Hr2' & Htotal').
      rewrite fmap_app, concat_app. cbn [fmap list_fmap concat].
      rewrite app_nil_r, staged_rows_app, !filter_app, !length_app.
      rewrite Hrows', Hr1', Hr2', Htotal', Hrows, Hr1, Hr2, Htotal.
      split_and!; (done || lia). }
  split_and!; try done.
  rewrite Hrows, Hr1, Hr2. unfold staged_rows. rewrite length_fmap.
  generalize (concat (secondlines_of <$> files)). intros l.
  induction l as [|p l IH]; [done|].
  unfold skipped, R1_short, R2_short in *.
  destruct (Py.len (strip p.1) <? umi_barcode_end chemistry_def)%Z eqn:H1;
    [|destruct (Py.len p.2 <? R2_max_length)%Z eqn:H2].
  - rewrite filter_cons_True by done.
    rewrite filter_cons_False by (rewrite H1; by intros [? _]).
    rewrite filter_cons_False by (by rewrite H1).
    cbn [length]. lia.
  - rewrite filter_cons_False by (by rewrite H1).
    rewrite filter_cons_True by (by rewrite H1, H2).
    rewrite filter_cons_False by (by rewrite H1, H2).
    cbn [length]. lia.
  - rewrite filter_cons_False by (by rewrite H1).
    rewrite filter_cons_False by (rewrite H2; by intros [_ ?]).
    rewrite filter_cons_True by (by rewrite H1, H2).
    cbn [length]. lia.
Qed.

Lemma write_chunks_to_disk_accounts_for_every_pair_witness :
  let st := example_run 100 None [example_files_1; example_files_2] 3 in
  rows_written (trace st)
  = staged_rows 4 example_chemistry
      (concat (secondlines_of <$> [example_files_1; example_files_2]))
  ∧ total_reads st = 3%Z.
Proof.
  destruct (write_chunks_to_disk_accounts_for_every_pair
              (mk_arguments 100 "/tmp/work" false 1 false None) "/home/user" 4
              example_chemistry [] [example_files_1; example_files_2] 3 eq_refl)
    as (Hrows & _ & _ & Htotal & _).
  split; [exact Hrows|exact Htotal].
Defined.

(** ** Loops that raise *)

Lemma for_each_raises {S X} (body : S → X → option S) (x : X) (l : list X) :
  (∀ st, body st x = None) → x ∈ l → ∀ st, for_each body st l = None.
Proof.
  intros Hx. induction l as [|y l IH]; intros Hin st.
  - by apply elem_of_nil in Hin.
  - cbn [for_each]. apply elem_of_cons in Hin as [<-|Hin].
    + by rewrite Hx.
    + destruct (body st y); [by apply IH|done].
Qed.

Lemma for_each_invariant {S X} (P : S → Prop) (body : S → X → option S) (l : list X) :
  (∀ st x st', P st → body st x = Some st' → P st') →
  ∀ st st', P st → for_each body st l = Some st' → P st'.
Proof.
  intros Hbody. induction l as [|y l IH]; intros st st' Hst; cbn [for_each].
  - by intros [= <-].
  - destruct (body st y) as [st1|] eqn:Hy; [|done]. cbn.
    apply IH. by eapply Hbody.
Qed.

Lemma dok_setitem_shape m r c v m' : dok_setitem m r c v = Some m' → shape m' = shape m.
Proof.
  unfold dok_setitem.
  destruct (dok_index _ r); [|done]. destruct (dok_index _ c); [|done].
  by intros [= <-].
Qed.

(** X13: when [generate_sparse_matrices] raises, and the shape of what it
    returns.  A selected cell that is missing from the results, or that
    holds a non-empty counter for a tag missing from the tag map, makes
    the function raise; whenever it returns, both matrices have one row
    for every tag of the map and one column for every selected cell. *)
Theorem generate_sparse_matrices_raises_or_shapes (final_results : results)
    (ordered_tags_map : gmap string tag_info) (top_cells : list string) :
  (∀ cell, cell ∈ top_cells → final_results !! cell = None →
     generate_sparse_matrices final_results ordered_tags_map top_cells = None)
  ∧ (∀ cell tags TAG cnt, cell ∈ top_cells → final_results !! cell = Some tags →
       tags !! TAG = Some cnt → cnt ≠ ∅ → ordered_tags_map !! TAG = None →
       generate_sparse_matrices final_results ordered_tags_map top_cells = None)
  ∧ (∀ umi_results_matrix read_results_matrix,
       generate_sparse_matrices final_results ordered_tags_map top_cells
       = Some (umi_results_matrix, read_results_matrix) →
       shape umi_results_matrix
       = (Py.dict_len ordered_tags_map, Z.of_nat (length top_cells))
       ∧ shape read_results_matrix
         = (Py.dict_len ordered_tags_map, Z.of_nat (length top_cells))).
Proof.
  unfold generate_sparse_matrices. split; [|split].
  - intros cell [i Hi]%list_elem_of_lookup Hcell.
    apply (for_each_raises _ (i, cell)).
    + intros st. unfold fill_cell. cbn. by rewrite Hcell.
    + by apply elem_of_enumerate.
  - intros cell tags TAG cnt [i Hi]%list_elem_of_lookup Hcell HTAG Hcnt Hmap.
    apply (for_each_raises _ (i, cell)).
    + intros st. unfold fill_cell. cbn. rewrite Hcell. cbn.
      apply (for_each_raises _ (TAG, cnt)).
      * intros mats. unfold fill_tag. cbn. rewrite decide_False by done.
        by rewrite Hmap.
      * by apply elem_of_map_to_list.
    + by apply elem_of_enumerate.
  - intros umi read Hrun.
    set (shp := (Py.dict_len ordered_tags_map, Z.of_nat (length top_cells))).
    apply (for_each_invariant (λ mats, shape mats.1 = shp ∧ shape mats.2 = shp)
             _ _) in Hrun; [done| |done].
    intros mats [i cell] mats' Hmats. unfold fill_cell. cbn.
    destruct (final_results !! cell) as [tags|]; [|done]. cbn.
    apply (for_each_invariant (λ mats, shape mats.1 = shp ∧ shape mats.2 = shp));
      [|done].
    intros [m1 m2] [TAG cnt] [m1' m2'] [H1 H2]. unfold fill_tag. cbn.
    case_decide; [by intros [= <- <-]|].
    destruct (ordered_tags_map !! TAG) as [info|]; [|done]. cbn.
    destruct (dok_setitem m1 _ _ _) as [u|] eqn:Hu; [|done]. cbn.
    destruct (dok_setitem m2 _ _ _) as [r|] eqn:Hr; [|done]. cbn.
    intros [= <- <-]. cbn in *.
    by rewrite (dok_setitem_shape _ _ _ _ _ Hu), (dok_setitem_shape _ _ _ _ _ Hr).
Qed.

Lemma generate_sparse_matrices_raises_or_shapes_witness :
  generate_sparse_matrices matrix_example_results matrix_example_tags ["CELL"; "GONE"]
  = None.
Proof.
  apply (proj1 (generate_sparse_matrices_raises_or_shapes _ _ _) "GONE").
  - apply list_elem_of_further, list_elem_of_here.
  - by vm_compute.
Defined.

(** ** When collapsing raises *)

Section collapse_raises.
Context (ab_map : gmap string tag_info) (real fake TAG : string).
Hypothesis fake_not_real : fake ≠ real.

(** No counter for [TAG] in the entry of [real], if there is one. *)
Local Abbreviation lacks_tag fr :=
  (∀ t : tag_counts, (fr : results) !! real = Some t → t !! TAG = None).

(** The entry of [fake], if there is one, has a counter for [TAG]. *)
Local Abbreviation keeps_tag fr :=
  (∀ tg : tag_counts, (fr : results) !! fake = Some tg → is_Some (tg !! TAG)).

Lemma for_each_collapse_tag_frame r fresh (l : list (string * counter)) :
  ∀ fr fr', for_each (collapse_tag r fresh) fr l = Some fr' →
    ∀ cb, cb ≠ r → fr' !! cb = fr !! cb.
Proof.
  induction l as [|[T c] l IH]; intros fr fr'; cbn [for_each].
  - by intros [= <-].
  - destruct (collapse_tag r fresh fr (T, c)) as [fr1|] eqn:Hstep; [|done]. cbn.
    intros Hrest cb Hcb. rewrite (IH _ _ Hrest cb Hcb).
    unfold collapse_tag in Hstep. destruct (fr !! r) as [t|]; [|done]. cbn in Hstep.
    destruct (t !! T); [|destruct fresh; [done|]];
      injection Hstep as <-; by rewrite lookup_insert_ne.
Qed.

Lemma for_each_collapse_tag_lacks (l : list (string * counter)) :
  ∀ fr fr', for_each (collapse_tag real true) fr l = Some fr' →
    lacks_tag fr → lacks_tag fr'.
Proof.
  induction l as [|[T c] l IH]; intros fr fr'; cbn [for_each].
  - by intros [= <-].
  - destruct (collapse_tag real true fr (T, c)) as [fr1|] eqn:Hstep; [|done]. cbn.
    intros Hrest Hfr. apply (IH _ _ Hrest).
    unfold collapse_tag in Hstep. destruct (fr !! real) as [t|] eqn:Ht; [|done].
    cbn in Hstep. destruct (t !! T) as [c0|] eqn:HT; [|done].
    injection Hstep as <-. intros t'. rewrite lookup_insert_eq. intros [= <-].
    rewrite lookup_insert_ne; [by apply Hfr|]. intros ->.
    rewrite (Hfr t eq_refl) in HT. done.
Qed.

Lemma for_each_collapse_tag_raises (l : list (string * counter)) :
  ∀ fr, lacks_tag fr → TAG ∈ l.*1 → for_each (collapse_tag real true) fr l = None.
Proof.
  induction l as [|[T c] l IH]; intros fr Hfr Hin.
  - by apply elem_of_nil in Hin.
  - cbn [for_each]. destruct (collapse_tag real true fr (T, c)) as [fr1|] eqn:Hstep;
      [|done]. cbn.
    assert (lacks_tag fr1) as Hfr1.
    { apply (for_each_collapse_tag_lacks [(T, c)] fr); [|done].
      cbn [for_each]. by rewrite Hstep. }
    apply IH; [done|].
    rewrite fmap_cons in Hin. apply elem_of_cons in Hin as [Heq|Hin]; [|done].
    cbn in Heq. subst T. unfold collapse_tag in Hstep. destruct (fr !! real) as [t|] eqn:Ht; [|done].
    cbn in Hstep. by rewrite (Hfr t eq_refl) in Hstep.
Qed.

Lemma collapse_fake_frame r fresh st g st' :
  collapse_fake r fresh st g = Some st' →
  ∀ cb, cb ≠ r →
    cs_final_results st' !! cb = delete g (cs_final_results st) !! cb.
Proof.
  unfold collapse_fake.
  destruct (cs_final_results st !! g) as [temp|]; [|done]. cbn.
  destruct (for_each _ _ _) as [fr'|] eqn:Htags; [|done]. cbn.
  destruct (cs_umis_per_cell st !! g); [|done]. cbn.
  intros [= <-] cb Hcb. cbn. by apply (for_each_collapse_tag_frame _ _ _ _ _ Htags).
Qed.

Lemma collapse_fake_lacks st g st' :
  collapse_fake real true st g = Some st' →
  lacks_tag (cs_final_results st) → lacks_tag (cs_final_results st').
Proof.
  unfold collapse_fake.
  destruct (cs_final_results st !! g) as [temp|]; [|done]. cbn.
  destruct (for_each _ _ _) as [fr'|] eqn:Htags; [|done]. cbn.
  destruct (cs_umis_per_cell st !! g); [|done]. cbn.
  intros [= <-] Hst. cbn. apply (for_each_collapse_tag_lacks _ _ _ Htags).
  intros t [_ Ht]%lookup_delete_Some. by apply Hst.
Qed.

Lemma collapse_fake_raises st :
  lacks_tag (cs_final_results st) → keeps_tag (cs_final_results st) →
  collapse_fake real true st fake = None.
Proof.
  intros Hlacks Hkeeps. unfold collapse_fake.
  destruct (cs_final_results st !! fake) as [temp|] eqn:Htemp; [|done]. cbn.
  rewrite for_each_collapse_tag_raises; [done| |].
  - intros t [_ Ht]%lookup_delete_Some. by apply Hlacks.
  - destruct (Hkeeps temp eq_refl) as [c Hc].
    apply list_elem_of_fmap. exists (TAG, c). split; [done|].
    by apply elem_of_map_to_list.
Qed.

Lemma for_each_collapse_fake_raises (fakes : list string) :
  ∀ st, lacks_tag (cs_final_results st) → keeps_tag (cs_final_results st) →
    fake ∈ fakes → for_each (collapse_fake real true) st fakes = None.
Proof.
  induction fakes as [|g fakes IH]; intros st Hlacks Hkeeps Hin.
  - by apply elem_of_nil in Hin.
  - cbn [for_each]. destruct (decide (g = fake)) as [->|Hne].
    + by rewrite collapse_fake_raises.
    + destruct (collapse_fake real true st g) as [st'|] eqn:Hstep; [|done]. cbn.
      apply elem_of_cons in Hin as [->|Hin]; [done|].
      apply IH; [by eapply collapse_fake_lacks| |done].
      intros tg. rewrite (collapse_fake_frame _ _ _ _ _ Hstep) by done.
      intros [_ Htg]%lookup_delete_Some. by apply Hkeeps.
Qed.

Lemma for_each_collapse_fake_other r fresh (fs : list string) :
  r ≠ real → r ≠ fake →
  ∀ st st', for_each (collapse_fake r fresh) st fs = Some st' →
    cs_final_results st !! real = None → keeps_tag (cs_final_results st) →
    cs_final_results st' !! real = None ∧ keeps_tag (cs_final_results st').
Proof.
  intros Hr1 Hr2. induction fs as [|g fs IH]; intros st st'; cbn [for_each].
  - by intros [= <-].
  - destruct (collapse_fake r fresh st g) as [st1|] eqn:Hstep; [|done]. cbn.
    intros Hrest Hreal Hkeeps. apply (IH _ _ Hrest).
    + rewrite (collapse_fake_frame _ _ _ _ _ Hstep) by done.
      apply lookup_delete_None. by right.
    + intros tg. rewrite (collapse_fake_frame _ _ _ _ _ Hstep) by done.
      intros [_ Htg]%lookup_delete_Some. by apply Hkeeps.
Qed.

Lemma collapse_real_other st r fs st' :
  r ≠ real → r ≠ fake →
  collapse_real ab_map st (r, fs) = Some st' →
  cs_final_results st !! real = None → keeps_tag (cs_final_results st) →
  cs_final_results st' !! real = None ∧ keeps_tag (cs_final_results st').
Proof.
  intros Hr1 Hr2 Hrun Hreal Hkeeps. unfold collapse_real in Hrun. cbn [fst snd] in Hrun.
  apply (for_each_collapse_fake_other _ _ _ Hr1 Hr2 _ _ Hrun);
    cbn [cs_final_results]; case_bool_decide.
  - by rewrite lookup_insert_ne.
  - done.
  - intros tg. rewrite lookup_insert_ne by done. apply Hkeeps.
  - done.
Qed.

Lemma collapse_real_raises st fakes :
  ab_map !! TAG = None →
  cs_final_results st !! real = None → keeps_tag (cs_final_results st) →
  fake ∈ fakes →
  collapse_real ab_map st (real, fakes) = None.
Proof.
  intros Hpanel Hreal Hkeeps Hin. unfold collapse_real. cbn [fst snd].
  rewrite bool_decide_eq_true_2 by done.
  apply for_each_collapse_fake_raises; cbn [cs_final_results]; [| |done].
  - intros t. rewrite lookup_insert_eq. intros [= <-].
    by rewrite empty_tag_counters_lookup, Hpanel.
  - intros tg. rewrite lookup_insert_ne by done. apply Hkeeps.
Qed.

Lemma for_each_collapse_real_raises (L : list (string * list string)) fakes :
  ab_map !! TAG = None →
  NoDup L.*1 → (real, fakes) ∈ L → fake ∈ fakes → fake ∉ L.*1 →
  ∀ st, cs_final_results st !! real = None → keeps_tag (cs_final_results st) →
    for_each (collapse_real ab_map) st L = None.
Proof.
  intros Hpanel. induction L as [|[r fs] L IH]; intros Hnd HinL Hin Hkey st Hreal Hkeeps.
  - by apply elem_of_nil in HinL.
  - rewrite fmap_cons in Hnd, Hkey. apply NoDup_cons in Hnd as [Hr Hnd].
    apply not_elem_of_cons in Hkey as [Hfr Hkey]. cbn [fst] in *.
    cbn [for_each]. apply elem_of_cons in HinL as [[= <- <-]|HinL].
    + by rewrite collapse_real_raises.
    + destruct (collapse_real ab_map st (r, fs)) as [st'|] eqn:Hstep; [|done]. cbn.
      assert (r ≠ real) as Hne.
      { intros ->. apply Hr. apply list_elem_of_fmap. by exists (real, fakes). }
      destruct (collapse_real_other _ _ _ _ Hne (not_eq_sym Hfr) Hstep Hreal Hkeeps)
        as [Hreal' Hkeeps'].
      by apply IH.
Qed.
End collapse_raises.

(** X14: a tag outside the tag map makes the collapse raise.  When a
    true barcode has no entry in the results, the entry that
    [collapse_cells] creates for it holds a counter for the tags of
    [ab_map] only and has no default; so when one of the cells folded into
    it holds a tag that is not in [ab_map] (and that cell is not itself a
    true barcode of the mapping), [collapse_cells] raises. *)
Theorem collapse_cells_raises_outside_panel
    (true_to_false : gmap string (list string)) (umis_per_cell : counter)
    (final_results : results) (ab_map : gmap string tag_info)
    (real_barcode fake_barcode TAG : string) (fakes : list string) (temp : tag_counts) :
  true_to_false !! real_barcode = Some fakes →
  fake_barcode ∈ fakes →
  true_to_false !! fake_barcode = None →
  final_results !! real_barcode = None →
  final_results !! fake_barcode = Some temp →
  is_Some (temp !! TAG) →
  ab_map !! TAG = None →
  collapse_cells true_to_false umis_per_cell final_results ab_map = None.
Proof.
  intros Hreal Hin Hfake Hres_real Hres_fake Htag Hpanel. unfold collapse_cells.
  apply (for_each_collapse_real_raises ab_map real_barcode fake_barcode TAG)
    with (fakes := fakes).
  - intros ->. congruence.
  - done.
  - apply NoDup_fst_map_to_list.
  - by apply elem_of_map_to_list.
  - done.
  - rewrite elem_of_keys, Hfake. by intros [? ?].
  - done.
  - cbn. intros tg. rewrite Hres_fake. by intros [= <-].
Qed.

Lemma collapse_cells_raises_outside_panel_witness :
  collapse_cells collapse_example_ttf collapse_example_umis collapse_example_results
    {[ "unmapped" := mk_tag_info 0 "UNKNOWN" ]}
  = None.
Proof.
  apply (collapse_cells_raises_outside_panel collapse_example_ttf collapse_example_umis
           collapse_example_results _ "AAAAA" "AAAAT" "tagA" ["AAAAT"]
           {[ "tagA" := {[ "u1" := 2%Z; "u2" := 3%Z ]} ]}).
  - done.
  - apply list_elem_of_here.
  - done.
  - done.
  - done.
  - eexists. by vm_compute.
  - done.
Defined.

(** ** Run report *)

Lemma percentage_zero total_reads :
  total_reads ≠ 0%Z → percentage 0 total_reads = Some 0%Z.
Proof.
  intros Hne. unfold percentage, int_truediv.
  destruct total_reads as [|p|p]; [done|done|done].
Qed.

Lemma percentage_all (total_reads : Z) :
  (0 < total_reads < 2 ^ 47)%Z → percentage total_reads total_reads = Some 100%Z.
Proof.
  intros Hrange. unfold percentage, int_truediv.
  destruct total_reads as [|p|p]; [lia| |lia].
  rewrite (proj2 (Z.eqb_neq _ _)) by lia. cbn [float_of_int].
  destruct (SFdiv_int_spec p p) as (m & E & -> & HE & Hm & Hlo & Hhi); [lia|].
  assert (Zpos m = 2 ^ E)%Z as Hpow.
  { assert (2 * Z.pos m - 1 ≤ 2 * 2 ^ E ≤ 2 * Z.pos m + 1)%Z as Hb by nia.
    assert (2 ^ E = Z.pos m ∨ 2 ^ E < Z.pos m ∨ Z.pos m < 2 ^ E)%Z as [?|[?|?]] by lia;
      [done|lia|lia]. }
  assert (E = 52)%Z as ->.
  { rewrite Hpow in Hm. destruct Hm as [Hm1 Hm2].
    apply Z.pow_le_mono_r_iff in Hm1; [|lia|lia].
    apply Z.pow_lt_mono_r_iff in Hm2; [|lia|lia]. lia. }
  assert (m = Z.to_pos (2 ^ 52)) as -> by lia.
  by vm_compute.
Qed.

(** X15: the percentages of the run report.  The too-short percentage is
    computed from [total_reads - total_unmapped - total_mapped], which is
    0 by the definition of [total_mapped]: for every total other than 0 it
    is 0 and its computation does not raise, so the report is made of the
    other two percentages and 0; with a total of 0 the first division
    raises; and for totals below 2^47, a run without unmapped reads
    reports 100, 0 and 0, and a run with only unmapped reads 0, 100
    and 0. *)
Theorem create_report_too_short_is_zero (total_reads : Z) (no_match : counter) :
  create_report_percentages 0 no_match = None
  ∧ (total_reads ≠ 0%Z →
     create_report_percentages total_reads no_match
     = (mapped_perc ← percentage (total_reads - Py.sum_values no_match) total_reads;
        unmapped_perc ← percentage (Py.sum_values no_match) total_reads;
        Some (mapped_perc, unmapped_perc, 0%Z)))
  ∧ ((0 < total_reads < 2 ^ 47)%Z → Py.sum_values no_match = 0%Z →
     create_report_percentages total_reads no_match = Some (100, 0, 0)%Z)
  ∧ ((0 < total_reads < 2 ^ 47)%Z → Py.sum_values no_match = total_reads →
     create_report_percentages total_reads no_match = Some (0, 100, 0)%Z).
Proof.
  assert (total_reads ≠ 0%Z →
          create_report_percentages total_reads no_match
          = (mapped_perc ← percentage (total_reads - Py.sum_values no_match) total_reads;
             unmapped_perc ← percentage (Py.sum_values no_match) total_reads;
             Some (mapped_perc, unmapped_perc, 0%Z))) as Hzero.
  { intros Hne. unfold create_report_percentages. cbv zeta.
    replace (total_reads - Py.sum_values no_match
             - (total_reads - Py.sum_values no_match))%Z with 0%Z by lia.
    by rewrite percentage_zero. }
  split; [done|]. split; [exact Hzero|]. split.
  - intros Hrange Hsum. rewrite Hzero by lia. rewrite Hsum, Z.sub_0_r.
    rewrite percentage_all by done. rewrite percentage_zero by lia. done.
  - intros Hrange Hsum. rewrite Hzero by lia. rewrite Hsum, Z.sub_diag.
    rewrite percentage_all by done. rewrite percentage_zero by lia. done.
Qed.

Lemma create_report_too_short_is_zero_witness :
  create_report_percentages 1000 ∅ = Some (100, 0, 0)%Z.
Proof.
  apply (create_report_too_short_is_zero 1000 ∅); [lia|by vm_compute].
Defined.

Lemma row_contribution_is_Some tags maximum_distance sliding_window read :
  is_Some (row_contribution tags maximum_distance sliding_window read)
  ↔ countable_row tags maximum_distance sliding_window read.
Proof.
  unfold row_contribution, countable_row, best_match_of, bytes_ascii. split.
  - intros [c Hc].
    destruct (read !! 0%nat) as [cb|]; cbn in Hc; [|done].
    destruct (read !! 1%nat) as [UMI|]; cbn in Hc; [|done].
    destruct (is_ascii UMI) eqn:Hascii; cbn in Hc; [|done].
    destruct (read !! 2%nat) as [read2|]; cbn in Hc; [|done].
    exists cb, UMI, read2. split_and!; try done.
    intros ->. destruct (find_best_match read2 tags maximum_distance); [by eexists|done].
  - intros (cb & UMI & read2 & -> & -> & Hascii & -> & Hmatch). cbn.
    rewrite Hascii. cbn. destruct sliding_window; cbn; [by eexists|].
    destruct (Hmatch eq_refl) as [bm ->]. cbn. by eexists.
Qed.

(** X16: when [map_reads] raises.  [map_reads] returns exactly when every
    row of the chunk has its three fields, an ASCII UMI and, without the
    sliding window, a read 2 on which [find_best_match] does not raise;
    one row that falls short makes the whole chunk raise. *)
Theorem map_reads_returns_iff (reads : list (list string)) (tags : list tag)
    (maximum_distance : Z) (sliding_window : bool) :
  is_Some (map_reads reads tags maximum_distance sliding_window)
  ↔ Forall (countable_row tags maximum_distance sliding_window) reads.
Proof.
  induction reads as [|read reads IH].
  - split; [by constructor|]. intros _. by eexists.
  - rewrite map_reads_cons, Forall_cons, <- IH, <- row_contribution_is_Some.
    destruct (row_contribution _ _ _ read) as [c|]; cbn.
    + destruct (map_reads reads _ _ _) as [o|]; cbn.
      * split; [intros _; split; by eexists|intros _; by eexists].
      * split; [by intros [? ?]|by intros [_ [? ?]]].
    + split; [by intros [? ?]|by intros [[? ?] _]].
Qed.

Lemma map_reads_returns_iff_witness :
  is_Some (map_reads (concat mapping_example_chunks) mapping_example_tags 1 false).
Proof.
  apply (proj2 (map_reads_returns_iff _ _ _ _)).
  unfold mapping_example_chunks. cbn [concat app].
  repeat (apply Forall_cons; split;
          [eexists _, _, _; split_and!; try done; intros _; eexists; by vm_compute|]).
  apply Forall_nil_2.
Defined.

Section staging_chunks.
Context (args : arguments) (cwd : string) (R2_max_length : Z)
        (chemistry_def : chemistry) (named_tuples_tags_map : list tag).
Hypothesis no_cap : first_n args = None.
Hypothesis chunk_size_pos : (0 < chunk_size args)%Z.

Lemma stage_reads_chunks secondlines :
  ∀ st, (0 ≤ reads_written st < chunk_size args)%Z →
    let st' := stage_reads args cwd R2_max_length chemistry_def named_tuples_tags_map
                 st secondlines in
    let filled := (reads_written st
                   + valid_reads R2_max_length chemistry_def secondlines)%Z in
    Z.of_nat (length (input_queue st'))
    = (Z.of_nat (length (input_queue st)) + filled / chunk_size args)%Z
    ∧ reads_written st' = (filled mod chunk_size args)%Z.
Proof.
  unfold valid_reads.
  induction secondlines as [|[read1 read2] rest IH]; intros st Hrw; cbn [stage_reads].
  - cbn. rewrite Z.add_0_r, Z.div_small, Z.mod_small by lia. lia.
  - destruct (Py.len (strip read1) <? umi_barcode_end chemistry_def)%Z eqn:H1.
    { rewrite filter_cons_False by (unfold skipped; cbn [fst snd]; by rewrite H1).
      apply (IH (count_R1_too_short st)). done. }
    destruct (Py.len read2 <? R2_max_length)%Z eqn:H2.
    { rewrite filter_cons_False by (unfold skipped; cbn [fst snd]; by rewrite H1, H2).
      apply (IH (count_R2_too_short st)). done. }
    rewrite filter_cons_True by (unfold skipped; cbn [fst snd]; by rewrite H1, H2).
    unfold cap_reached. rewrite no_cap. cbn [length].
    unfold stage_row. cbn [write_row reads_written].
    destruct (_ =? 0)%Z eqn:Hmod.
    + apply Z.eqb_eq in Hmod.
      assert (reads_written st + 1 = chunk_size args)%Z as Hfull.
      { destruct (decide (reads_written st + 1 = chunk_size args)%Z); [done|].
        rewrite Z.mod_small in Hmod by lia. lia. }
      match goal with
      | |- context [stage_reads _ _ _ _ _ ?st1 rest] =>
          destruct (IH st1) as [Hlen Hrest]; [cbn; lia|]
      end.
      cbn [rotate reads_written input_queue write_row] in Hlen, Hrest.
      rewrite Hlen, Hrest, length_app. cbn [length].
      replace (reads_written st + Z.of_nat (S (length (filter _ rest))))%Z
        with (0 + Z.of_nat (length (filter
                (λ p, skipped R2_max_length chemistry_def p = false) rest))
              + 1 * chunk_size args)%Z by lia.
      rewrite Z.div_add, Z.mod_add by lia. lia.
    + apply Z.eqb_neq in Hmod.
      assert (reads_written st + 1 ≠ chunk_size args)%Z as Hnot.
      { intros Heq. rewrite Heq, Z.mod_same in Hmod by lia. done. }
      match goal with
      | |- context [stage_reads _ _ _ _ _ ?st1 rest] =>
          destruct (IH st1) as [Hlen Hrest]; [cbn; lia|]
      end.
      cbn [reads_written input_queue write_row] in Hlen, Hrest.
      rewrite Hlen, Hrest.
      replace (reads_written st + Z.of_nat (S (length (filter _ rest))))%Z
        with (reads_written st + 1 + Z.of_nat (length (filter
                (λ p, skipped R2_max_length chemistry_def p = false) rest)))%Z by lia.
      done.
Qed.

Lemma stage_files_chunks st files :
  let st' := stage_files args cwd R2_max_length chemistry_def named_tuples_tags_map
               st files in
  Z.of_nat (length (input_queue st'))
  = (Z.of_nat (length (input_queue st))
     + (valid_reads R2_max_length chemistry_def (secondlines_of files)
        / chunk_size args + 1))%Z.
Proof.
  unfold stage_files. cbn [input_queue].
  match goal with
  | |- context [stage_reads _ _ _ _ _ ?st0 ?lines] =>
      destruct (stage_reads_chunks lines st0) as [Hlen _]; [cbn; lia|]
  end.
  fold (secondlines_of files) in *.
  cbn [reads_written input_queue] in Hlen. rewrite Z.add_0_l in Hlen.
  rewrite length_app. cbn [length]. lia.
Qed.
End staging_chunks.

(** X17: how many chunk files there are.  Without a cap and with a chunk
    size above 0, every pair of input files gives one mapping task for
    each full chunk of [chunk_size] valid reads and one more for the rest:
    [valid // chunk_size + 1] tasks.  When the number of valid reads of a
    pair is a multiple of the chunk size, the last chunk file of the pair
    is empty and is queued all the same. *)
Theorem write_chunks_to_disk_number_of_chunks (args : arguments) (cwd : string)
    (R2_max_length : Z) (chemistry_def : chemistry) (named_tuples_tags_map : list tag)
    (files : list (list string * list string)) (total_reads0 : Z) :
  first_n args = None →
  (0 < chunk_size args)%Z →
  Z.of_nat (length (input_queue
                      (write_chunks_to_disk args cwd R2_max_length chemistry_def
                         named_tuples_tags_map files total_reads0)))
  = Py.sum ((λ pair, valid_reads R2_max_length chemistry_def (secondlines_of pair)
                     / chunk_size args + 1)%Z <$> files).
Proof.
  intros Hcap Hsize. unfold write_chunks_to_disk.
  induction files as [|pair rest IH] using rev_ind.
  - done.
  - rewrite foldl_app. cbn [foldl].
    rewrite (stage_files_chunks args cwd R2_max_length chemistry_def
               named_tuples_tags_map Hcap Hsize), IH.
    rewrite fmap_app. unfold Py.sum. rewrite foldr_app. cbn [fmap list_fmap foldr].
    generalize ((λ pair0, valid_reads R2_max_length chemistry_def (secondlines_of pair0)
                          / chunk_size args + 1)%Z <$> rest).
    generalize (valid_reads R2_max_length chemistry_def (secondlines_of pair)
                / chunk_size args + 1)%Z.
    intros z l. induction l as [|x l IHl]; cbn [foldr]; lia.
Qed.

Lemma write_chunks_to_disk_number_of_chunks_witness :
  Z.of_nat (length (input_queue (example_run 1 None [example_files_1] 2))) = 3%Z.
Proof.
  unfold example_run.
  rewrite (write_chunks_to_disk_number_of_chunks
             (mk_arguments 1 "/tmp/work" false 1 false None) "/home/user" 4
             example_chemistry [] [example_files_1] 2 eq_refl) by (cbn; lia).
  by vm_compute.
Defined.
